(** * file_renamer.py: the rename-planning and execution logic

  A shallow embedding of [RegexFileRenamerGUI] (src/file_renamer.py):
  the file collector, the rule builder, the plan generator, the collision
  detector and the executor, together with the parts of the Python standard
  library they call ([str] methods, [posixpath], [re]).

  Conventions.
  - A Python [str] is a list of characters.  The character type is [ascii];
    the library functions below are the ASCII restrictions of the Python
    ones (case mapping changes only [a-z]/[A-Z], white space is what
    [str.isspace] accepts below 128).
  - [os.path] is [posixpath] (separator [/]).
  - A [dict] is a [gmap]; lists are lists.
  - A call that may raise returns an [option]; [None] is the exception. *)

From Stdlib Require Import Ascii String ZArith Lia Sorting.Sorted.
From stdpp Require Import base decidable option list gmap strings sorting.

Local Open Scope Z_scope.
Local Open Scope list_scope.
Local Open Scope nat_scope.

(* ===================================================================== *)
(** * Python strings *)
(* ===================================================================== *)

Abbreviation str := (list ascii).

(** String literals are read as character lists. *)
Coercion list_ascii_of_string : string >-> list.

Definition code (c : ascii) : nat := nat_of_ascii c.

(** [str.isspace] on one character (ASCII range): TAB, LF, VT, FF, CR,
    FS, GS, RS, US and the space. *)
Definition isspace (c : ascii) : bool :=
  let n := code c in
  ((9 <=? n) && (n <=? 13)) || ((28 <=? n) && (n <=? 32)).

Definition is_upper (c : ascii) : bool := (65 <=? code c) && (code c <=? 90).
Definition is_lower (c : ascii) : bool := (97 <=? code c) && (code c <=? 122).
Definition is_digit (c : ascii) : bool := (48 <=? code c) && (code c <=? 57).
Definition is_alpha (c : ascii) : bool := is_upper c || is_lower c.
Definition is_alnum (c : ascii) : bool := is_alpha c || is_digit c.

Definition upper_char (c : ascii) : ascii :=
  if is_lower c then ascii_of_nat (code c - 32) else c.
Definition lower_char (c : ascii) : ascii :=
  if is_upper c then ascii_of_nat (code c + 32) else c.

(** [s.upper()], [s.lower()], [s.capitalize()]. *)
Definition upper (s : str) : str := map upper_char s.
Definition lower (s : str) : str := map lower_char s.
Definition capitalize (s : str) : str :=
  match s with
  | [] => []
  | c :: s' => upper_char c :: lower s'
  end.

(** [s.lstrip()], [s.rstrip()], [s.strip()]. *)
Fixpoint lstrip (s : str) : str :=
  match s with
  | c :: s' => if isspace c then lstrip s' else s
  | [] => []
  end.
Definition rstrip (s : str) : str := rev (lstrip (rev s)).
Definition strip (s : str) : str := rstrip (lstrip s).

(** [s.rstrip(c)] for a one-character argument. *)
Fixpoint lstrip_char (c : ascii) (s : str) : str :=
  match s with
  | x :: s' => if decide (x = c) then lstrip_char c s' else s
  | [] => []
  end.
Definition rstrip_char (c : ascii) (s : str) : str :=
  rev (lstrip_char c (rev s)).

(** [s.split()]: the maximal runs of non-space characters.  [cur] is the
    word being read, kept in reverse. *)
Fixpoint split_aux (cur : str) (s : str) : list str :=
  match s with
  | [] => match cur with [] => [] | _ => [rev cur] end
  | c :: s' =>
      if isspace c
      then match cur with
           | [] => split_aux [] s'
           | _ => rev cur :: split_aux [] s'
           end
      else split_aux (c :: cur) s'
  end.
Definition split (s : str) : list str := split_aux [] s.

(** [sep.join(parts)]. *)
Fixpoint join_with (sep : str) (parts : list str) : str :=
  match parts with
  | [] => []
  | [p] => p
  | p :: rest => p ++ sep ++ join_with sep rest
  end.

(** [sub in s] for a one-character [sub]. *)
Definition contains_char (c : ascii) (s : str) : bool :=
  existsb (fun x => bool_decide (x = c)) s.

(** [s.startswith(t)]. *)
Fixpoint startswith (t s : str) : bool :=
  match t, s with
  | [], _ => true
  | _ :: _, [] => false
  | x :: t', y :: s' => bool_decide (x = y) && startswith t' s'
  end.

(** [t in s]. *)
Fixpoint str_in (t s : str) : bool :=
  startswith t s ||
  match s with
  | [] => false
  | _ :: s' => str_in t s'
  end.

(** [s.rfind(c)] for a one-character argument: the index of the last
    occurrence, [-1] when there is none. *)
Fixpoint find_last (c : ascii) (s : str) (i : nat) (acc : Z) : Z :=
  match s with
  | [] => acc
  | x :: s' =>
      find_last c s' (S i) (if decide (x = c) then Z.of_nat i else acc)
  end.
Definition rfind (c : ascii) (s : str) : Z := find_last c s 0 (-1)%Z.

(** Slices [s[:i]] and [s[i:]] for [0 <= i]. *)
Definition slice_to (i : Z) (s : str) : str := take (Z.to_nat i) s.
Definition slice_from (i : Z) (s : str) : str := drop (Z.to_nat i) s.

(** The order of [str] comparison ([<=]): lexicographic on code points. *)
Fixpoint str_leb (a b : str) : bool :=
  match a, b with
  | [], _ => true
  | _ :: _, [] => false
  | x :: a', y :: b' =>
      if code x <? code y then true
      else if code x =? code y then str_leb a' b'
      else false
  end.
Definition str_le (a b : str) : Prop := str_leb a b = true.

Global Instance str_le_dec : RelDecision str_le.
Proof. intros a b. unfold str_le. apply _. Defined.

(** [sorted(l)] on a list of strings. *)
Definition sorted (l : list str) : list str := merge_sort str_le l.

(* ===================================================================== *)
(** * posixpath *)
(* ===================================================================== *)

Definition sep : ascii := "/"%char.
Definition extsep : ascii := "."%char.

(** [os.path.basename(p)]:
    [i = p.rfind(sep) + 1; return p[i:]]. *)
Definition basename (p : str) : str :=
  let i := (rfind sep p + 1)%Z in
  slice_from i p.

(** [os.path.dirname(p)]:
    [i = p.rfind(sep) + 1; head = p[:i];
     if head and head != sep*len(head): head = head.rstrip(sep)]. *)
Definition dirname (p : str) : str :=
  let i := (rfind sep p + 1)%Z in
  let head := slice_to i p in
  if negb (bool_decide (head = [])) &&
     negb (bool_decide (head = replicate (length head) sep))
  then rstrip_char sep head
  else head.

(** [os.path.join(a, b)] with one component [b]. *)
Definition join (a b : str) : str :=
  if startswith [sep] b then b
  else if bool_decide (a = []) || bool_decide (last a = Some sep) then a ++ b
  else a ++ [sep] ++ b.

(** [genericpath._splitext(p, sep, None, extsep)], the body of
    [os.path.splitext]: the extension starts at the last dot of the last
    path component, unless only dots precede it there. *)
Fixpoint skip_leading_dots (p : str) (filenameIndex dotIndex : nat)
    (fuel : nat) : bool :=
  match fuel with
  | 0 => false
  | S fuel' =>
      if filenameIndex <? dotIndex then
        if negb (bool_decide (p !! filenameIndex = Some extsep)) then true
        else skip_leading_dots p (S filenameIndex) dotIndex fuel'
      else false
  end.

Definition splitext (p : str) : str * str :=
  let sepIndex := rfind sep p in
  let dotIndex := rfind extsep p in
  if (sepIndex <? dotIndex)%Z &&
     skip_leading_dots p (Z.to_nat (sepIndex + 1)) (Z.to_nat dotIndex)
       (length p)
  then (slice_to dotIndex p, slice_from dotIndex p)
  else (p, []).

(* ===================================================================== *)
(** * The planned changes and the collision detector *)
(* ===================================================================== *)

(** A planned change: [(full_path, old_name, new_name)]. *)
Definition change : Type := str * str * str.

Definition full_path_of (c : change) : str := c.1.1.
Definition old_name_of (c : change) : str := c.1.2.
Definition new_name_of (c : change) : str := c.2.

(** The path a change renames its file to:
    [os.path.join(os.path.dirname(full_path), new_name)]. *)
Definition target_path (c : change) : str :=
  join (dirname (full_path_of c)) (new_name_of c).

(** One round of the first loop of [detect_collisions]:
    [if key not in new_names: new_names[key] = []]
    [new_names[key].append(old_name)]. *)
Definition record_claim (new_names : gmap str (list str)) (c : change)
    : gmap str (list str) :=
  let '(full_path, old_name, new_name) := c in
  let dir_path := dirname full_path in
  let key := join dir_path new_name in
  let new_names :=
    match new_names !! key with
    | None => <[key := []]> new_names
    | Some _ => new_names
    end in
  alter (fun old_names => old_names ++ [old_name]) key new_names.

(** [detect_collisions(changes)].  The second loop copies into
    [collisions] the entries of [new_names] with more than one old name. *)
Definition detect_collisions (changes : list change) : gmap str (list str) :=
  let new_names := foldl record_claim ∅ changes in
  filter (fun kv : str * list str => 1 < length kv.2) new_names.

(* ===================================================================== *)
(** * The [re] module *)
(* ===================================================================== *)

(** The part of Python's regular expression engine that the renamer's
    presets use, at [flags = 0]: literals, escapes, [.], [^], [$], character
    sets, capturing groups and the repeats [*], [+], [?] (greedy and lazy).
    Matching is the backtracking search of the engine, written with
    continuations; [search] finds the leftmost match, [sub] replaces the
    non-overlapping matches from left to right. *)
Module Sre.

Inductive category : Type := CatDigit | CatSpace | CatWord.

Inductive set_item : Type :=
| SChar (c : ascii)
| SRange (lo hi : ascii)
| SCat (neg : bool) (k : category).

Inductive regex : Type :=
| Empty
| Lit (c : ascii)
| AnyChar
| InSet (neg : bool) (items : list set_item)
| Bol
| Eol
| Cat (r1 r2 : regex)
| Group (n : nat) (r : regex)
| Opt (greedy : bool) (r : regex)
| Star (greedy : bool) (r : regex).

Definition newline : ascii := "010"%char.
Definition backslash : ascii := "\"%char.

Definition in_category (k : category) (c : ascii) : bool :=
  match k with
  | CatDigit => is_digit c
  | CatSpace => isspace c
  | CatWord => is_alnum c || bool_decide (c = "_"%char)
  end.

Definition item_matches (c : ascii) (it : set_item) : bool :=
  match it with
  | SChar x => bool_decide (c = x)
  | SRange lo hi => (code lo <=? code c) && (code c <=? code hi)
  | SCat neg k => xorb neg (in_category k c)
  end.

Definition in_set (neg : bool) (items : list set_item) (c : ascii) : bool :=
  xorb neg (existsb (item_matches c) items).

(** ** Parsing a pattern *)

Inductive esc : Type := EscLit (c : ascii) | EscCat (neg : bool) (k : category).

(** The meaning of [\c].  Letters and digits other than the ones listed
    (word boundaries, back references, octal and hexadecimal escapes) are
    outside the fragment. *)
Definition escape_code (in_class : bool) (c : ascii) : option esc :=
  match c with
  | "d"%char => Some (EscCat false CatDigit)
  | "D"%char => Some (EscCat true CatDigit)
  | "s"%char => Some (EscCat false CatSpace)
  | "S"%char => Some (EscCat true CatSpace)
  | "w"%char => Some (EscCat false CatWord)
  | "W"%char => Some (EscCat true CatWord)
  | "a"%char => Some (EscLit "007"%char)
  | "b"%char => if in_class then Some (EscLit "008"%char) else None
  | "f"%char => Some (EscLit "012"%char)
  | "n"%char => Some (EscLit "010"%char)
  | "r"%char => Some (EscLit "013"%char)
  | "t"%char => Some (EscLit "009"%char)
  | "v"%char => Some (EscLit "011"%char)
  | _ => if is_alnum c then None else Some (EscLit c)
  end.

Definition is_repeat_char (c : ascii) : bool :=
  bool_decide (c = "*"%char) || bool_decide (c = "+"%char) ||
  bool_decide (c = "?"%char) || bool_decide (c = "{"%char).

(** One member of a character set, after an optional escape. *)
Definition parse_set_atom (s : str) : option (esc * str) :=
  match s with
  | [] => None
  | c :: s' =>
      if decide (c = backslash) then
        match s' with
        | [] => None
        | e :: s'' => code1 ← escape_code true e; Some (code1, s'')
        end
      else Some (EscLit c, s')
  end.

Definition esc_item (e : esc) : set_item :=
  match e with
  | EscLit c => SChar c
  | EscCat neg k => SCat neg k
  end.

(** The members of a set up to the closing bracket.  [nonempty] tells
    whether a member has been read: a bracket that comes first is a
    member. *)
Fixpoint parse_set (fuel : nat) (nonempty : bool) (s : str)
    : option (list set_item * str) :=
  match fuel with
  | 0 => None
  | S fuel' =>
      match s with
      | [] => None
      | c :: s' =>
          if bool_decide (c = "]"%char) && nonempty then Some ([], s')
          else
            '(code1, s1) ← parse_set_atom s;
            match s1 with
            | "-"%char :: "]"%char :: s2 =>
                Some ([esc_item code1; SChar "-"%char], s2)
            | "-"%char :: s2 =>
                '(code2, s3) ← parse_set_atom s2;
                match code1, code2 with
                | EscLit lo, EscLit hi =>
                    if code hi <? code lo then None
                    else
                      '(items, s4) ← parse_set fuel' true s3;
                      Some (SRange lo hi :: items, s4)
                | _, _ => None
                end
            | _ =>
                '(items, s4) ← parse_set fuel' true s1;
                Some (esc_item code1 :: items, s4)
            end
      end
  end.

(** A repeat after an item: [*], [+], [?], each with an optional [?] that
    makes it lazy.  A second repeat, a possessive [+] and [{] are outside
    the fragment. *)
Definition make_repeat (q : ascii) (greedy : bool) (item : regex)
    : option regex :=
  match q with
  | "*"%char => Some (Star greedy item)
  | "+"%char => Some (Cat item (Star greedy item))
  | "?"%char => Some (Opt greedy item)
  | _ => None
  end.

Definition apply_repeat (item : regex) (s : str) : option (regex * str) :=
  match s with
  | q :: s' =>
      if is_repeat_char q then
        match item with
        | Bol | Eol => None
        | _ =>
            let '(greedy, s'') :=
              match s' with
              | "?"%char :: s'' => (false, s'')
              | _ => (true, s')
              end in
            if match s'' with c :: _ => is_repeat_char c | [] => false end
            then None
            else item' ← make_repeat q greedy item; Some (item', s'')
        end
      else Some (item, s)
  | [] => Some (item, s)
  end.

(** A sequence of items, up to the end of the pattern or to the closing
    parenthesis of the group being read.  [ngroups] counts the groups
    opened so far. *)
Fixpoint parse_seq (fuel : nat) (in_group : bool) (ngroups : nat) (s : str)
    : option (regex * nat * str) :=
  match fuel with
  | 0 => None
  | S fuel' =>
      match s with
      | [] => if in_group then None else Some (Empty, ngroups, [])
      | c :: s' =>
          if decide (c = ")"%char) then
            if in_group then Some (Empty, ngroups, s') else None
          else
            '(item, ngroups1, s1) ←
              (if decide (c = backslash) then
                 match s' with
                 | [] => None
                 | e :: s'' =>
                     code1 ← escape_code false e;
                     Some (match code1 with
                           | EscLit x => Lit x
                           | EscCat neg k => InSet false [SCat neg k]
                           end, ngroups, s'')
                 end
               else if decide (c = "."%char) then Some (AnyChar, ngroups, s')
               else if decide (c = "^"%char) then Some (Bol, ngroups, s')
               else if decide (c = "$"%char) then Some (Eol, ngroups, s')
               else if decide (c = "["%char) then
                 let '(neg, s'') :=
                   match s' with
                   | "^"%char :: s'' => (true, s'')
                   | _ => (false, s')
                   end in
                 '(items, s3) ← parse_set fuel' false s'';
                 Some (InSet neg items, ngroups, s3)
               else if decide (c = "("%char) then
                 match s' with
                 | "?"%char :: _ => None
                 | _ =>
                     let n := S ngroups in
                     '(body, ngroups2, s3) ← parse_seq fuel' true n s';
                     Some (Group n body, ngroups2, s3)
                 end
               else if is_repeat_char c || bool_decide (c = "|"%char) then None
               else Some (Lit c, ngroups, s'));
            '(item', s2) ← apply_repeat item s1;
            '(rest, ngroups3, s3) ← parse_seq fuel' in_group ngroups1 s2;
            Some (Cat item' rest, ngroups3, s3)
      end
  end.

(** [re.compile(pattern)]: the parsed pattern and its number of groups. *)
Definition parse (pattern : str) : option (regex * nat) :=
  '(r, ngroups, _) ← parse_seq (S (length pattern)) false 0 pattern;
  Some (r, ngroups).

(** ** Matching *)

(** The text captured by each group, the latest capture first. *)
Definition captures : Type := list (nat * str).

Fixpoint capture (n : nat) (cs : captures) : option str :=
  match cs with
  | [] => None
  | (m, x) :: cs' => if decide (m = n) then Some x else capture n cs'
  end.

(** [$]: at the end, or before a newline that ends the string. *)
Definition at_end (s : str) : bool :=
  match s with
  | [] => true
  | [c] => bool_decide (c = newline)
  | _ => false
  end.

Definition orelse {A} (x y : option A) : option A :=
  match x with
  | Some _ => x
  | None => y
  end.

(** [match_re r pos s cs k]: match [r] at position [pos], where [s] is the
    rest of the string from [pos] on, then go on with [k]; the alternatives
    are tried in the engine's order and the first that lets [k] succeed
    wins.  A repeat stops when an iteration consumes nothing. *)
Fixpoint match_re {A} (r : regex) (pos : nat) (s : str) (cs : captures)
    (k : nat -> str -> captures -> option A) : option A :=
  match r with
  | Empty => k pos s cs
  | Lit c =>
      match s with
      | x :: s' => if decide (x = c) then k (S pos) s' cs else None
      | [] => None
      end
  | AnyChar =>
      match s with
      | x :: s' => if decide (x = newline) then None else k (S pos) s' cs
      | [] => None
      end
  | InSet neg items =>
      match s with
      | x :: s' => if in_set neg items x then k (S pos) s' cs else None
      | [] => None
      end
  | Bol => if pos =? 0 then k pos s cs else None
  | Eol => if at_end s then k pos s cs else None
  | Cat r1 r2 =>
      match_re r1 pos s cs (fun pos' s' cs' => match_re r2 pos' s' cs' k)
  | Group n r1 =>
      match_re r1 pos s cs
        (fun pos' s' cs' => k pos' s' ((n, take (pos' - pos) s) :: cs'))
  | Opt greedy r1 =>
      if greedy then orelse (match_re r1 pos s cs k) (k pos s cs)
      else orelse (k pos s cs) (match_re r1 pos s cs k)
  | Star greedy r1 =>
      (fix loop (fuel : nat) (pos : nat) (s : str) (cs : captures)
         : option A :=
         match fuel with
         | 0 => k pos s cs
         | S fuel' =>
             let more :=
               match_re r1 pos s cs
                 (fun pos' s' cs' =>
                    if pos <? pos' then loop fuel' pos' s' cs' else None) in
             if greedy then orelse more (k pos s cs)
             else orelse (k pos s cs) more
         end) (S (length s)) pos s cs
  end.

(** A match of the whole pattern that starts at [pos]: its end and its
    captures.  With [must_advance] an empty match is refused. *)
Definition match_at (r : regex) (pos : nat) (s : str) (must_advance : bool)
    : option (nat * captures) :=
  match_re r pos s []
    (fun pos' _ cs =>
       if must_advance && (pos' =? pos) then None else Some (pos', cs)).

(** The leftmost match at or after [pos]: start, end and captures. *)
Fixpoint search_from (r : regex) (pos : nat) (s : str)
    : option (nat * nat * captures) :=
  match match_at r pos s false with
  | Some (e, cs) => Some (pos, e, cs)
  | None =>
      match s with
      | [] => None
      | _ :: s' => search_from r (S pos) s'
      end
  end.

(** ** Replacement templates *)

Inductive titem : Type := TLit (s : str) | TGroup (n : nat).

Definition digit_val (c : ascii) : nat := code c - 48.
Definition is_octdigit (c : ascii) : bool := (48 <=? code c) && (code c <=? 55).

Fixpoint decimal (acc : nat) (s : str) : nat :=
  match s with
  | [] => acc
  | c :: s' => decimal (10 * acc + digit_val c) s'
  end.

(** The name between [\g<] and [>]. *)
Fixpoint until_gt (s : str) : option (str * str) :=
  match s with
  | [] => None
  | c :: s' =>
      if decide (c = ">"%char) then Some ([], s')
      else '(name, rest) ← until_gt s'; Some (c :: name, rest)
  end.

(** [parse_template]: literals and group references.  [groups] is the
    number of groups of the pattern; a reference beyond it is an error, and
    so is a name, as the fragment has no named group. *)
Fixpoint parse_template (fuel : nat) (groups : nat) (s : str)
    : option (list titem) :=
  match fuel with
  | 0 => None
  | S fuel' =>
      match s with
      | [] => Some []
      | c :: s' =>
          if decide (c = backslash) then
            match s' with
            | [] => None
            | "g"%char :: s'' =>
                match s'' with
                | "<"%char :: s3 =>
                    '(name, s4) ← until_gt s3;
                    if bool_decide (name = []) || negb (forallb is_digit name)
                    then None
                    else
                      let index := decimal 0 name in
                      if groups <? index then None
                      else
                        rest ← parse_template fuel' groups s4;
                        Some (TGroup index :: rest)
                | _ => None
                end
            | "0"%char :: s'' =>
                let '(v, s3) :=
                  match s'' with
                  | d1 :: d2 :: s3 =>
                      if is_octdigit d1 && is_octdigit d2
                      then (8 * digit_val d1 + digit_val d2, s3)
                      else if is_octdigit d1 then (digit_val d1, d2 :: s3)
                      else (0, s'')
                  | [d1] =>
                      if is_octdigit d1 then (digit_val d1, []) else (0, s'')
                  | [] => (0, s'')
                  end in
                rest ← parse_template fuel' groups s3;
                Some (TLit [ascii_of_nat v] :: rest)
            | d :: s'' =>
                if is_digit d then
                  match s'' with
                  | d2 :: s3 =>
                      if is_digit d2 then
                        match s3 with
                        | d3 :: s4 =>
                            if is_octdigit d && is_octdigit d2 && is_octdigit d3
                            then
                              let v := 64 * digit_val d + 8 * digit_val d2
                                       + digit_val d3 in
                              if 255 <? v then None
                              else
                                rest ← parse_template fuel' groups s4;
                                Some (TLit [ascii_of_nat v] :: rest)
                            else
                              let index := 10 * digit_val d + digit_val d2 in
                              if groups <? index then None
                              else
                                rest ← parse_template fuel' groups s3;
                                Some (TGroup index :: rest)
                        | [] =>
                            let index := 10 * digit_val d + digit_val d2 in
                            if groups <? index then None
                            else Some [TGroup index]
                        end
                      else
                        if groups <? digit_val d then None
                        else
                          rest ← parse_template fuel' groups s'';
                          Some (TGroup (digit_val d) :: rest)
                  | [] =>
                      if groups <? digit_val d then None
                      else Some [TGroup (digit_val d)]
                  end
                else
                  match escape_code true d with
                  | Some (EscLit x) =>
                      if is_alpha d || bool_decide (d = backslash) then
                        rest ← parse_template fuel' groups s'';
                        Some (TLit [x] :: rest)
                      else
                        rest ← parse_template fuel' groups s'';
                        Some (TLit [backslash; d] :: rest)
                  | _ => None
                  end
            end
          else
            rest ← parse_template fuel' groups s';
            Some (TLit [c] :: rest)
      end
  end.

(** The text a template stands for at one match.  Group 0 is the whole
    match; a group that took no part in the match gives the empty string. *)
Definition expand (t : list titem) (whole : str) (cs : captures) : str :=
  concat (map (fun it =>
                 match it with
                 | TLit s => s
                 | TGroup 0 => whole
                 | TGroup n => default [] (capture n cs)
                 end) t).

(** ** [sub] *)

(** One pass over the string.  [skip] counts the characters still covered
    by the match found last.  At a position outside a match the pattern is
    tried; an empty match is followed by a second try at the same position
    that must advance. *)
Fixpoint sub_scan (r : regex) (t : list titem) (pos : nat) (skip : nat)
    (s : str) : str :=
  match skip with
  | S skip' =>
      match s with
      | [] => []
      | _ :: s' => sub_scan r t (S pos) skip' s'
      end
  | 0 =>
      let step (e : nat) (cs : captures) : str * nat :=
        (expand t (take (e - pos) s) cs, e - pos) in
      let '(out, covered) :=
        match match_at r pos s false with
        | None => ([], 0)
        | Some (e, cs) =>
            let '(out1, n1) := step e cs in
            if n1 =? 0 then
              match match_at r pos s true with
              | None => (out1, 0)
              | Some (e2, cs2) =>
                  let '(out2, n2) := step e2 cs2 in (out1 ++ out2, n2)
              end
            else (out1, n1)
        end in
      match s with
      | [] => out
      | c :: s' =>
          match covered with
          | 0 => out ++ c :: sub_scan r t (S pos) 0 s'
          | S n => out ++ sub_scan r t (S pos) n s'
          end
      end
  end.

End Sre.

(** [re.search(pattern, string)] (whether a match exists) and
    [re.sub(pattern, repl, string)] on the fragment; [None] when the pattern
    or the template is outside it or in error. *)
Definition sre_search (pattern s : str) : option bool :=
  '(r, _) ← Sre.parse pattern;
  Some (bool_decide (is_Some (Sre.search_from r 0 s))).

Definition sre_sub (pattern repl s : str) : option str :=
  '(r, groups) ← Sre.parse pattern;
  t ← Sre.parse_template (S (length repl)) groups repl;
  Some (Sre.sub_scan r t 0 0 s).

(** [re.escape(pattern)]: a backslash before each special character. *)
Definition special_chars : str :=
  "()[]{}?*+-|^$\.&~# " ++
  ["009"%char; "010"%char; "013"%char; "011"%char; "012"%char].

Definition re_escape (pattern : str) : str :=
  flat_map (fun c => if bool_decide (c ∈ special_chars)
                     then [Sre.backslash; c] else [c]) pattern.

(** The engine outside the fragment above (other syntax, other flags) is a
    parameter: what [re.search], [re.sub] and [re.compile] do there. *)
Class Re : Type := {
  ext_search : str -> str -> Z -> option bool;
  ext_sub : str -> str -> str -> Z -> option str;
  ext_compile : str -> bool
}.

Section re_functions.
Context `{Re}.

(** [bool(re.search(pattern, string, flags))]. *)
Definition re_search (pattern s : str) (flags : Z) : option bool :=
  if decide (flags = 0%Z) then
    match Sre.parse pattern with
    | Some _ => sre_search pattern s
    | None => ext_search pattern s flags
    end
  else ext_search pattern s flags.

(** [re.sub(pattern, repl, string, flags=flags)]. *)
Definition re_sub (pattern repl s : str) (flags : Z) : option str :=
  if decide (flags = 0%Z) then
    match Sre.parse pattern with
    | Some _ => sre_sub pattern repl s
    | None => ext_sub pattern repl s flags
    end
  else ext_sub pattern repl s flags.

(** Whether [re.compile(pattern)] returns. *)
Definition re_compile (pattern : str) : bool :=
  match Sre.parse pattern with
  | Some _ => true
  | None => ext_compile pattern
  end.
End re_functions.

(** An engine that knows the fragment only. *)
Definition fragment_only : Re :=
  {| ext_search := fun _ _ _ => None;
     ext_sub := fun _ _ _ _ => None;
     ext_compile := fun _ => false |}.

(* ===================================================================== *)
(** * The operating system *)
(* ===================================================================== *)

(** An entry of [rename_log]. *)
Record log_entry : Type := LogEntry {
  old_name : str;
  new_name : str;
  timestamp : str
}.

(** The calls the renamer makes, over a state [world] of the machine.
    [os_rename] and [write_json] ([open(path, 'w')] then [json.dump]) give
    the next state, or [None] when they raise. *)
Class OS (world : Type) : Type := {
  os_path_isdir : world -> str -> bool;
  os_path_isfile : world -> str -> bool;
  os_listdir : world -> str -> option (list str);
  os_rename : world -> str -> str -> option world;
  write_json : world -> str -> list log_entry -> option world;
  now_isoformat : world -> str;
  now_strftime : world -> str
}.

(* ===================================================================== *)
(** * RegexFileRenamerGUI *)
(* ===================================================================== *)

Definition dquote : ascii := "034"%char.

(** [ILLEGAL_CHARS_WIN]: the set of the characters less-than,
    greater-than, colon, double quote, slash, backslash, bar, question mark
    and star, written as a character set with the backslash escaped. *)
Definition ILLEGAL_CHARS_WIN : str := "[<>:" ++ [dquote] ++ "/\\|?*]".

(** The characters of that set. *)
Definition illegal_chars : str := "<>:" ++ [dquote] ++ "/\|?*".

Inductive button_state : Type := normal | disabled.

(** The lines [log_output] writes, by the call that writes them; the
    text of an exception is left out. *)
Inductive line : Type :=
| RuleLine
| NoFilesInFolder | ChooseOtherFolder
| FoundFiles (n : nat)
| SkippingIllegal (old_name : str)
| NoSpacesInNames | NothingToReplace
| NoFileMatches | TryAdjusting
| SameNameWarning | RenamingStopped
| WouldAllBecome (target : str) | CollidingName (old_name : str) | BlankLine
| PleaseAdjust
| PreviewHeader (n : nat)
| PlanLine (old_name new_name : str)
| RenamingHeader
| RenamedLine (old_name new_name : str)
| FailedLine (old_name : str)
| AllRenamed | SomeNotRenamed
| UpdatedCount (n : nat) | UnchangedCount (n : nat)
| LogSaved (log_file : str) | LogNotSaved.

(** The message boxes. *)
Inductive dialog : Type :=
| ErrorInvalidDirectory
| ErrorRegex
| WarningNoChanges
| ErrorCollisions
| AskConfirmRename (n : nat)
| InfoRenamingComplete
| InfoRenamingFinished.

(** The fields of the object that the logic reads and writes. *)
Record gui : Type := Gui {
  dir_var : str;
  pattern_var : str;
  replacement_var : str;
  replace_with_var : str;
  rename_log : list log_entry;
  current_changes : list change;
  current_collisions : gmap str (list str);
  rename_button : button_state;
  output_text : list line;
  dialogs : list dialog
}.

Definition set_rename_log (v : list log_entry) (g : gui) : gui :=
  Gui (dir_var g) (pattern_var g) (replacement_var g) (replace_with_var g)
      v (current_changes g) (current_collisions g) (rename_button g)
      (output_text g) (dialogs g).
Definition set_current_changes (v : list change) (g : gui) : gui :=
  Gui (dir_var g) (pattern_var g) (replacement_var g) (replace_with_var g)
      (rename_log g) v (current_collisions g) (rename_button g)
      (output_text g) (dialogs g).
Definition set_current_collisions (v : gmap str (list str)) (g : gui) : gui :=
  Gui (dir_var g) (pattern_var g) (replacement_var g) (replace_with_var g)
      (rename_log g) (current_changes g) v (rename_button g)
      (output_text g) (dialogs g).
Definition set_rename_button (v : button_state) (g : gui) : gui :=
  Gui (dir_var g) (pattern_var g) (replacement_var g) (replace_with_var g)
      (rename_log g) (current_changes g) (current_collisions g) v
      (output_text g) (dialogs g).
Definition set_output_text (v : list line) (g : gui) : gui :=
  Gui (dir_var g) (pattern_var g) (replacement_var g) (replace_with_var g)
      (rename_log g) (current_changes g) (current_collisions g)
      (rename_button g) v (dialogs g).
Definition set_dialogs (v : list dialog) (g : gui) : gui :=
  Gui (dir_var g) (pattern_var g) (replacement_var g) (replace_with_var g)
      (rename_log g) (current_changes g) (current_collisions g)
      (rename_button g) (output_text g) v.

(** [self.log_output(text, tag)], [self.clear_output()] and a message
    box. *)
Definition log_output (l : line) (g : gui) : gui :=
  set_output_text (output_text g ++ [l]) g.
Definition log_lines (ls : list line) (g : gui) : gui :=
  set_output_text (output_text g ++ ls) g.
Definition clear_output (g : gui) : gui := set_output_text [] g.
Definition show_dialog (d : dialog) (g : gui) : gui :=
  set_dialogs (dialogs g ++ [d]) g.

(** The object after [__init__]; the radio buttons start on the first
    preset. *)
Definition initial : gui :=
  Gui [] "Replace Spaces with Underscores" [] [] [] [] ∅ disabled [] [].

(** [self.patterns]: the ["pattern"] entry of each preset, where it has
    one. *)
Definition patterns : list (str * option str) :=
  [ ("Replace Spaces with Underscores" : str, Some (" " : str));
    ("Replace Spaces with Hyphens" : str, Some (" " : str));
    ("Remove Numbers" : str, Some ("\d+" : str));
    ("Remove Special Characters" : str, Some ("[^a-zA-Z0-9._\-\s]" : str));
    ("Extract Numbers Only" : str, Some ("[^\d]" : str));
    ("Add Prefix" : str, Some ("^" : str));
    ("Add Suffix Before Extension" : str, Some ("(.*)(\.[\w]+)$" : str));
    ("Remove Extra Spaces" : str, Some ("\s+" : str));
    ("Convert to Lowercase" : str, Some ("(.*)" : str));
    ("Convert to Uppercase" : str, Some ("(.*)" : str));
    ("Camel Case" : str, Some ("(.*)" : str));
    ("Remove Text" : str, None);
    ("Replace Text" : str, None) ].

Fixpoint assoc {A} (key : str) (l : list (str * A)) : option A :=
  match l with
  | [] => None
  | (k, v) :: l' => if decide (k = key) then Some v else assoc key l'
  end.

(** [is_valid_filename(filename)]:
    [not re.search(self.ILLEGAL_CHARS_WIN, filename)]. *)
Definition is_valid_filename (filename : str) : bool :=
  match sre_search ILLEGAL_CHARS_WIN filename with
  | Some found => negb found
  | None => false
  end.

Definition set_dir_var (v : str) (g : gui) : gui :=
  Gui v (pattern_var g) (replacement_var g) (replace_with_var g)
      (rename_log g) (current_changes g) (current_collisions g)
      (rename_button g) (output_text g) (dialogs g).
Definition set_pattern_var (v : str) (g : gui) : gui :=
  Gui (dir_var g) v (replacement_var g) (replace_with_var g)
      (rename_log g) (current_changes g) (current_collisions g)
      (rename_button g) (output_text g) (dialogs g).
Definition set_replacement_var (v : str) (g : gui) : gui :=
  Gui (dir_var g) (pattern_var g) v (replace_with_var g)
      (rename_log g) (current_changes g) (current_collisions g)
      (rename_button g) (output_text g) (dialogs g).
Definition set_replace_with_var (v : str) (g : gui) : gui :=
  Gui (dir_var g) (pattern_var g) (replacement_var g) v
      (rename_log g) (current_changes g) (current_collisions g)
      (rename_button g) (output_text g) (dialogs g).

(** [invalidate_preview()]. *)
Definition invalidate_preview (g : gui) : gui :=
  set_current_collisions ∅
    (set_current_changes []
       (clear_output (set_rename_button disabled g))).

(** A radio button is chosen: the variable is set, then
    [on_pattern_selected()] runs; emptying an entry runs the trace of its
    variable. *)
Definition on_pattern_selected (g : gui) : gui :=
  let g := invalidate_preview g in
  let selected := pattern_var g in
  if bool_decide (selected = "Remove Text") ||
     bool_decide (selected = "Add Prefix") ||
     bool_decide (selected = "Add Suffix Before Extension")
  then invalidate_preview (set_replacement_var [] g)
  else if bool_decide (selected = "Replace Text")
  then invalidate_preview
         (set_replace_with_var []
            (invalidate_preview (set_replacement_var [] g)))
  else g.

(** ** The rule builder *)

Inductive transform_mode : Type := mode_upper | mode_lower | mode_camel.

(** What the first part of [preview_changes] leaves in [transform_mode],
    [pattern] and [replacement]. *)
Inductive rule : Type :=
| Transform (mode : transform_mode)
| Substitute (pattern replacement : str).

Definition build_rule (g : gui) (pattern_info : option str) : rule :=
  let selected_pattern := pattern_var g in
  if decide (selected_pattern = "Remove Text") then
    Substitute (re_escape (strip (replacement_var g))) []
  else if decide (selected_pattern = "Replace Text") then
    Substitute (re_escape (strip (replacement_var g)))
               (strip (replace_with_var g))
  else if decide (selected_pattern = "Add Prefix") then
    Substitute "^(.*)$" (strip (replacement_var g) ++ "\1")
  else if decide (selected_pattern = "Add Suffix Before Extension") then
    Substitute "^(.*?)(\.[\w]+)$"
               ("\1" ++ strip (replacement_var g) ++ "\2")
  else if decide (selected_pattern = "Replace Spaces with Underscores") then
    Substitute "\s+" "_"
  else if decide (selected_pattern = "Replace Spaces with Hyphens") then
    Substitute "\s+" "-"
  else if decide (selected_pattern = "Remove Numbers") then
    Substitute "\d+" []
  else if decide (selected_pattern = "Convert to Uppercase") then
    Transform mode_upper
  else if decide (selected_pattern = "Convert to Lowercase") then
    Transform mode_lower
  else if decide (selected_pattern = "Camel Case") then
    Transform mode_camel
  else
    Substitute (default [] pattern_info) [].

(** ** Case conversion *)

Definition transform_stem (mode : transform_mode) (name : str) : str :=
  match mode with
  | mode_upper => upper name
  | mode_lower => lower name
  | mode_camel => join_with " " (map capitalize (split name))
  end.

(** One round of the case conversion loop of [preview_changes]. *)
Definition case_change (mode : transform_mode) (changes : list change)
    (full_path : str) : list change :=
  let old_name := basename full_path in
  let '(name, ext) := splitext old_name in
  let new_stem := transform_stem mode name in
  let new_name := new_stem ++ ext in
  if negb (bool_decide (new_name = old_name))
  then changes ++ [(full_path, old_name, new_name)]
  else changes.

Definition case_changes (mode : transform_mode) (files : list str)
    : list change :=
  foldl (case_change mode) [] files.

(** ** The end of the preview *)

(** The lines written for the collisions.  (The dictionary is walked in
    the order of the map, not in the order of insertion.) *)
Definition collision_report (collisions : gmap str (list str)) : list line :=
  flat_map (fun kv : str * list str =>
              WouldAllBecome (basename kv.1) ::
              map CollidingName kv.2 ++ [BlankLine])
           (map_to_list collisions).

Definition plan_lines (changes : list change) : list line :=
  map (fun c : change => PlanLine (old_name_of c) (new_name_of c)) changes.

(** The sections NO CHANGES, COLLISION DETECTION and DISPLAY PREVIEW of
    [preview_changes]. *)
Definition finish_preview (g : gui) : gui :=
  if bool_decide (current_changes g = []) then
    set_rename_button disabled (log_lines [NoFileMatches; TryAdjusting] g)
  else
    let g := set_current_collisions (detect_collisions (current_changes g)) g in
    if negb (bool_decide (current_collisions g = ∅)) then
      set_rename_button disabled
        (log_lines ([SameNameWarning; RenamingStopped] ++
                    collision_report (current_collisions g) ++
                    [PleaseAdjust]) g)
    else
      set_rename_button normal
        (log_lines ([RuleLine; PreviewHeader (length (current_changes g));
                     RuleLine] ++ plan_lines (current_changes g)) g).

(** The calls made to the operating system, in order, each with whether it
    returned. *)
Inductive os_call : Type :=
| Rename (src dst : str) (ok : bool)
| WriteJson (log_file : str) (entries : list log_entry) (ok : bool).

Section renamer.
Context `{Re} {world : Type} `{OS world}.

(** [collect_files(dir_path, recursive)]. *)
Definition collect_files (w : world) (dir_path : str) (recursive : bool)
    : option (list str) :=
  names ← os_listdir w dir_path;
  let files :=
    foldl (fun files filename =>
             let full_path := join dir_path filename in
             if os_path_isfile w full_path then files ++ [full_path]
             else files) [] names in
  Some (sorted files).

(** The loop of [apply_regex], with the list [changes] built so far and
    the object (for the warnings).  An exception of the engine ends it. *)
Fixpoint apply_regex_loop (files : list str) (pattern replacement : str)
    (flags : Z) (changes : list change) (g : gui)
    : gui * option (list change) :=
  match files with
  | [] => (g, Some changes)
  | full_path :: files' =>
      let old_name := basename full_path in
      match re_search pattern old_name flags with
      | None => (g, None)
      | Some false =>
          apply_regex_loop files' pattern replacement flags changes g
      | Some true =>
          match re_sub pattern replacement old_name flags with
          | None => (g, None)
          | Some new_name =>
              if negb (is_valid_filename new_name) then
                apply_regex_loop files' pattern replacement flags changes
                  (log_output (SkippingIllegal old_name) g)
              else if bool_decide (new_name = old_name) then
                apply_regex_loop files' pattern replacement flags changes g
              else
                apply_regex_loop files' pattern replacement flags
                  (changes ++ [(full_path, old_name, new_name)]) g
          end
      end
  end.

(** [apply_regex(files, pattern, replacement, flags)]. *)
Definition apply_regex (files : list str) (pattern replacement : str)
    (flags : Z) (g : gui) : gui * option (list change) :=
  apply_regex_loop files pattern replacement flags [] g.

(** [preview_changes()].  An exception that leaves the method (a preset
    name that is no key, [os.listdir] or the engine raising) ends it with
    the object as it is then. *)
Definition preview_changes (w : world) (g : gui) : gui :=
  let g := clear_output g in
  let dir_path := strip (dir_var g) in
  if bool_decide (dir_path = []) || negb (os_path_isdir w dir_path) then
    show_dialog ErrorInvalidDirectory g
  else
    let selected_pattern := pattern_var g in
    match assoc selected_pattern patterns with
    | None => g
    | Some pattern_info =>
        let rule := build_rule g pattern_info in
        match collect_files w dir_path false with
        | None => g
        | Some files =>
            if bool_decide (files = []) then
              set_rename_button disabled
                (log_lines [NoFilesInFolder; ChooseOtherFolder] g)
            else
              let g := log_output (FoundFiles (length files)) g in
              match rule with
              | Transform mode =>
                  finish_preview
                    (set_current_changes (case_changes mode files) g)
              | Substitute pattern replacement =>
                  let flags := 0%Z in
                  if negb (re_compile pattern) then show_dialog ErrorRegex g
                  else
                    match apply_regex files pattern replacement flags g with
                    | (g, None) => g
                    | (g, Some changes) =>
                        let g := set_current_changes changes g in
                        if (bool_decide (selected_pattern =
                              "Replace Spaces with Underscores") ||
                            bool_decide (selected_pattern =
                              "Replace Spaces with Hyphens")) &&
                           negb (existsb
                                   (fun f => contains_char " "%char (basename f))
                                   files)
                        then
                          set_rename_button disabled
                            (log_lines [NoSpacesInNames; NothingToReplace] g)
                        else finish_preview g
                    end
              end
        end
    end.

(** The state of a run of the executor: the machine, the object, the two
    counters, [dir_path] as the loop leaves it, and the calls made. *)
Record run : Type := Run {
  run_world : world;
  run_gui : gui;
  success_count : nat;
  fail_count : nat;
  run_dir_path : str;
  run_calls : list os_call
}.

(** One round of the loop of [rename_files]. *)
Definition rename_one (r : run) (c : change) : run :=
  let '(full_path, old_name, new_name) := c in
  let dir_path := dirname full_path in
  let new_path := join dir_path new_name in
  match os_rename (run_world r) full_path new_path with
  | Some w' =>
      let g := log_output (RenamedLine old_name new_name) (run_gui r) in
      let g := set_rename_log
                 (rename_log g ++
                  [LogEntry old_name new_name (now_isoformat w')]) g in
      Run w' g (S (success_count r)) (fail_count r) dir_path
          (run_calls r ++ [Rename full_path new_path true])
  | None =>
      let g := log_output (FailedLine old_name) (run_gui r) in
      Run (run_world r) g (success_count r) (S (fail_count r)) dir_path
          (run_calls r ++ [Rename full_path new_path false])
  end.

(** [save_rollback_log(dir_path)]. *)
Definition save_rollback_log (dir_path : str) (r : run) : run :=
  let w := run_world r in
  let g := run_gui r in
  let log_file :=
    join dir_path (".rename_log_" ++ now_strftime w ++ ".json") in
  match write_json w log_file (rename_log g) with
  | Some w' =>
      Run w' (log_output (LogSaved log_file) g) (success_count r)
          (fail_count r) (run_dir_path r)
          (run_calls r ++ [WriteJson log_file (rename_log g) true])
  | None =>
      Run w (log_output LogNotSaved g) (success_count r)
          (fail_count r) (run_dir_path r)
          (run_calls r ++ [WriteJson log_file (rename_log g) false])
  end.

(** The loop of [rename_files]. *)
Definition rename_all (w : world) (g : gui) : run :=
  foldl rename_one (Run w g 0 0 [] []) (current_changes g).

(** The summary written after the loop. *)
Definition summarize (r : run) : run :=
  let g := run_gui r in
  let g :=
    if fail_count r =? 0 then log_output AllRenamed g
    else log_lines [SomeNotRenamed; UpdatedCount (success_count r);
                    UnchangedCount (fail_count r)] g in
  Run (run_world r) g (success_count r) (fail_count r) (run_dir_path r)
      (run_calls r).

(** The body of [rename_files] once the user has agreed, up to the
    rollback log. *)
Definition execute (w : world) (g : gui) : run :=
  let g := clear_output g in
  let g := log_lines [RuleLine; RenamingHeader; RuleLine] g in
  let r := rename_all w g in
  let r := summarize r in
  if 0 <? success_count r then save_rollback_log (run_dir_path r) r else r.

(** [rename_files()], with the answer [confirm] to the question it asks:
    the machine and the object afterwards, and the calls made. *)
Definition rename_files (confirm : bool) (w : world) (g : gui)
    : world * gui * list os_call :=
  if bool_decide (current_changes g = []) then
    (w, show_dialog WarningNoChanges g, [])
  else if negb (bool_decide (current_collisions g = ∅)) then
    (w, show_dialog ErrorCollisions g, [])
  else
    let g := show_dialog (AskConfirmRename (length (current_changes g))) g in
    if confirm then
      let r := execute w g in
      let g := run_gui r in
      let g := show_dialog (if fail_count r =? 0 then InfoRenamingComplete
                            else InfoRenamingFinished) g in
      let g := clear_output g in
      let g := set_current_changes [] g in
      let g := set_current_collisions ∅ g in
      let g := set_rename_button disabled g in
      (run_world r, g, run_calls r)
    else (w, g, []).

(** ** The window *)

(** What can happen to the window and to the machine under it.  A click
    on the rename button reaches [rename_files] only while the button is
    enabled; the machine may change at any time. *)
Inductive event : Type :=
| ClickPreview
| ClickRename (confirm : bool)
| ClickClear
| EditDirectory (v : str)
| EditReplacement (v : str)
| EditReplaceWith (v : str)
| SelectPattern (name : str)
| Outside (w' : world).

Definition step (e : event) (w : world) (g : gui)
    : world * gui * list os_call :=
  match e with
  | ClickPreview => (w, preview_changes w g, [])
  | ClickRename confirm =>
      match rename_button g with
      | normal => rename_files confirm w g
      | disabled => (w, g, [])
      end
  | ClickClear => (w, clear_output g, [])
  | EditDirectory v => (w, invalidate_preview (set_dir_var v g), [])
  | EditReplacement v => (w, invalidate_preview (set_replacement_var v g), [])
  | EditReplaceWith v => (w, invalidate_preview (set_replace_with_var v g), [])
  | SelectPattern name => (w, on_pattern_selected (set_pattern_var name g), [])
  | Outside w' => (w', g, [])
  end.

(** The states the window reaches from [initial]. *)
Inductive reachable : world -> gui -> Prop :=
| reachable_initial (w : world) : reachable w initial
| reachable_step (e : event) (w : world) (g : gui) :
    reachable w g -> reachable (step e w g).1.1 (step e w g).1.2.
End renamer.

(** The events of a session, one after the other: the final machine and
    object, and all the calls made. *)
Fixpoint run_events `{Re} {world : Type} `{OS world} (es : list event)
    (w : world) (g : gui) : world * gui * list os_call :=
  match es with
  | [] => (w, g, [])
  | e :: es' =>
      let '(w1, g1, calls1) := step e w g in
      let '(w2, g2, calls2) := run_events es' w1 g1 in
      (w2, g2, calls1 ++ calls2)
  end.

(** The renames among the calls: source, destination and outcome. *)
Definition renames (calls : list os_call) : list (str * str * bool) :=
  flat_map (fun c => match c with
                     | Rename src dst ok => [(src, dst, ok)]
                     | WriteJson _ _ _ => []
                     end) calls.

(** The writes of the rollback log among the calls. *)
Definition log_writes (calls : list os_call)
    : list (str * list log_entry * bool) :=
  flat_map (fun c => match c with
                     | Rename _ _ _ => []
                     | WriteJson log_file entries ok => [(log_file, entries, ok)]
                     end) calls.

(** Whether a line shows a plan. *)
Definition shows_plan (l : line) : bool :=
  match l with
  | PreviewHeader _ | PlanLine _ _ => true
  | _ => false
  end.

(* ===================================================================== *)
(** * Reference definitions *)
(* ===================================================================== *)

(** [s.replace(t, r)]: the occurrences of [t] in [s], taken from the left
    and without overlap, replaced by [r]; the empty [t] occurs before every
    character and at the end.  [skip] counts the characters of an
    occurrence still to be dropped. *)
Fixpoint str_replace_skip (t r : str) (skip : nat) (s : str) : str :=
  match skip with
  | S skip' =>
      match s with
      | [] => []
      | _ :: s' => str_replace_skip t r skip' s'
      end
  | 0 =>
      match s with
      | [] => if startswith t s then r else []
      | c :: s' =>
          if startswith t s then
            match length t with
            | 0 => r ++ c :: str_replace_skip t r 0 s'
            | S n => r ++ str_replace_skip t r n s'
            end
          else c :: str_replace_skip t r 0 s'
      end
  end.
Definition str_replace (t r s : str) : str := str_replace_skip t r 0 s.

(** A name cut at its last dot: the extension is the part from that dot
    on, and is empty when the name has no dot. *)
Definition split_last_dot (name : str) : str * str :=
  let i := rfind extsep name in
  if (i <? 0)%Z then (name, []) else (slice_to i name, slice_from i name).

(** No character of the name is one of the illegal ones. *)
Definition legal_name (name : str) : Prop :=
  Forall (fun c => c ∉ illegal_chars) name.

(* ===================================================================== *)
(** * A small machine *)
(* ===================================================================== *)

(** A file system with regular files and directories given by their paths,
    on which [rename] replaces an existing destination file, as POSIX does,
    and on which new files can be created or not (a full disk). *)
Module Toy.

Record machine : Type := Machine {
  files : list str;
  dirs : list str;
  can_create : bool
}.

Definition isdir (m : machine) (p : str) : bool := bool_decide (p ∈ dirs m).
Definition isfile (m : machine) (p : str) : bool := bool_decide (p ∈ files m).

Definition listdir (m : machine) (d : str) : option (list str) :=
  if isdir m d
  then Some (map basename
               (filter (fun p => dirname p = d) (files m ++ dirs m)))
  else None.

Definition rename (m : machine) (src dst : str) : option machine :=
  if isfile m src && negb (isdir m dst)
  then Some (Machine
               (map (fun p => if decide (p = src) then dst else p)
                  (filter (fun p => p ≠ dst) (files m)))
               (dirs m) (can_create m))
  else None.

Definition write (m : machine) (p : str) (entries : list log_entry)
    : option machine :=
  if can_create m && negb (isdir m p)
  then Some (Machine (p :: filter (fun q => q ≠ p) (files m)) (dirs m)
               (can_create m))
  else None.

Global Instance os : OS machine :=
  {| os_path_isdir := isdir;
     os_path_isfile := isfile;
     os_listdir := listdir;
     os_rename := rename;
     write_json := write;
     now_isoformat := fun _ => "2024-01-15T10:30:00" : str;
     now_strftime := fun _ => "20240115_103000" : str |}.

End Toy.


(* ===================================================================== *)
(** * Definitions for the statements *)
(* ===================================================================== *)

(** The old names of the changes that claim [key], in the order of the
    plan. *)
Definition claimants (key : str) (changes : list change) : list str :=
  old_name_of <$> filter (fun c => target_path c = key) changes.

Definition illegal_set : list Sre.set_item :=
  map Sre.SChar illegal_chars.

Global Instance legal_name_dec (name : str) : Decision (legal_name name).
Proof. unfold legal_name. apply _. Defined.

(** The warnings of [apply_regex] touch the output only. *)
Definition same_but_output (g g' : gui) : Prop :=
  dir_var g' = dir_var g /\ pattern_var g' = pattern_var g /\
  replacement_var g' = replacement_var g /\
  replace_with_var g' = replace_with_var g /\
  rename_log g' = rename_log g /\
  current_changes g' = current_changes g /\
  current_collisions g' = current_collisions g /\
  rename_button g' = rename_button g /\
  dialogs g' = dialogs g.

(** What one file adds to the plan, for an engine that answers. *)
Definition planned (matches : str -> bool) (subst : str -> str)
    (full_path : str) : Prop :=
  let old_name := basename full_path in
  matches old_name = true /\
  subst old_name ≠ old_name /\
  legal_name (subst old_name).

Global Instance planned_dec matches subst full_path :
  Decision (planned matches subst full_path).
Proof. unfold planned. apply _. Defined.

Definition plan_of (matches : str -> bool) (subst : str -> str)
    (files : list str) : list change :=
  map (fun full_path =>
         (full_path, basename full_path, subst (basename full_path)))
      (filter (planned matches subst) files).

(** The pattern made of the characters of [t], one literal each. *)
Definition literal (t : str) : Sre.regex :=
  foldr (fun c r => Sre.Cat (Sre.Lit c) r) Sre.Empty t.

(** What the parser needs to know of a character that [re.escape] leaves
    alone: it is no character with a meaning in a pattern. *)
Definition plain (c : ascii) : Prop :=
  c ≠ ")"%char /\ c ≠ Sre.backslash /\ c ≠ "."%char /\ c ≠ "^"%char /\
  c ≠ "$"%char /\ c ≠ "["%char /\ c ≠ "("%char /\ c ≠ "|"%char /\
  Sre.is_repeat_char c = false.

(** Whether a character other than a dot stands before index [i]. *)
Definition stem_before (i : nat) (name : str) : Prop :=
  exists k, k < i /\ name !! k ≠ Some extsep.

(** What the case conversion loop plans for one file. *)
Definition case_planned (mode : transform_mode) (c : change) : Prop :=
  old_name_of c = basename (full_path_of c) /\
  new_name_of c =
    transform_stem mode (splitext (old_name_of c)).1
    ++ (splitext (old_name_of c)).2 /\
  new_name_of c ≠ old_name_of c.

(** No line of the output shows a plan. *)
Definition no_plan_shown (g : gui) : Prop :=
  Forall (fun l => shows_plan l = false) (output_text g).

(** The rename button is enabled only over a stored plan that is not
    empty and whose collisions were computed and found empty. *)
Definition button_safe (g : gui) : Prop :=
  rename_button g = normal ->
  current_changes g ≠ [] /\
  current_collisions g = ∅ /\
  detect_collisions (current_changes g) = ∅.

(** The entries that the window reads to build a rule. *)
Definition same_entries (g g' : gui) : Prop :=
  dir_var g' = dir_var g /\ pattern_var g' = pattern_var g /\
  replacement_var g' = replacement_var g /\
  replace_with_var g' = replace_with_var g.

(** The call, the output line and the names logged for one change, by the
    outcome [ok] of its rename. *)
Definition attempt_call (c : change) (ok : bool) : os_call :=
  Rename (full_path_of c) (target_path c) ok.
Definition attempt_line (c : change) (ok : bool) : line :=
  if ok then RenamedLine (old_name_of c) (new_name_of c)
  else FailedLine (old_name_of c).
Definition entry_names (e : log_entry) : str * str := (old_name e, new_name e).
Definition change_names (c : change) : str * str :=
  (old_name_of c, new_name_of c).

(** The changes whose rename returned. *)
Fixpoint succeeded (changes : list change) (oks : list bool) : list change :=
  match changes, oks with
  | c :: changes', ok :: oks' =>
      if ok then c :: succeeded changes' oks' else succeeded changes' oks'
  | _, _ => []
  end.

Definition count (b : bool) (oks : list bool) : nat :=
  length (filter (fun x => x = b) oks).

(** The fields of the object that the executor's loop leaves alone. *)
Definition same_plan (g g' : gui) : Prop :=
  same_entries g g' /\
  current_changes g' = current_changes g /\
  current_collisions g' = current_collisions g /\
  rename_button g' = rename_button g /\
  dialogs g' = dialogs g.

(** The case conversion a preset name stands for. *)
Definition case_preset (selected_pattern : str) : option transform_mode :=
  if decide (selected_pattern = "Convert to Uppercase") then Some mode_upper
  else if decide (selected_pattern = "Convert to Lowercase") then Some mode_lower
  else if decide (selected_pattern = "Camel Case") then Some mode_camel
  else None.

(** The object when the question of [rename_files] has been asked. *)
Definition asked (g : gui) : gui :=
  show_dialog (AskConfirmRename (length (current_changes g))) g.

Section statements.
Context `{Re} {world : Type} `{OS world}.

(** What [apply_regex] has checked of a change it returns. *)
Definition checked (files : list str) (pattern replacement : str)
    (flags : Z) (c : change) : Prop :=
  full_path_of c ∈ files /\
  old_name_of c = basename (full_path_of c) /\
  re_search pattern (old_name_of c) flags = Some true /\
  re_sub pattern replacement (old_name_of c) flags
  = Some (new_name_of c) /\
  new_name_of c ≠ old_name_of c /\
  legal_name (new_name_of c).

(** [plan] is what a preview computes from the entries of [g] on the
    machine [w]. *)
Definition planned_by (w : world) (g : gui) (plan : list change) : Prop :=
  exists files pattern_info,
    collect_files w (strip (dir_var g)) false = Some files /\
    assoc (pattern_var g) patterns = Some pattern_info /\
    match build_rule g pattern_info with
    | Transform mode => plan = case_changes mode files
    | Substitute pattern replacement =>
        exists g0, (apply_regex files pattern replacement 0 g0).2 = Some plan
    end.

(** The three ways a preview ends. *)
Inductive preview_end (w : world) (g g' : gui) : Prop :=
| left_early :
    current_changes g' = current_changes g ->
    current_collisions g' = current_collisions g ->
    rename_button g' = rename_button g \/ rename_button g' = disabled ->
    no_plan_shown g' ->
    preview_end w g g'
| plan_refused :
    planned_by w g (current_changes g') ->
    rename_button g' = disabled ->
    no_plan_shown g' ->
    preview_end w g g'
| plan_shown :
    planned_by w g (current_changes g') ->
    current_changes g' ≠ [] ->
    current_collisions g' = detect_collisions (current_changes g') ->
    current_collisions g' = ∅ ->
    rename_button g' = normal ->
    preview_end w g g'.

(** The stored plan is empty or is what a preview computes from the
    entries as they are now. *)
Definition plan_current (g : gui) : Prop :=
  current_changes g = [] \/
  exists w0 : world, planned_by w0 g (current_changes g).

Definition window_inv (g : gui) : Prop := button_safe g /\ plan_current g.

(** What the loop has done when it ends: one rename tried per change, in
    the order of the plan, with outcomes [oks]. *)
Record loop_done (changes : list change) (r r' : @run world) (oks : list bool)
    : Prop := {
  done_length : length oks = length changes;
  done_calls :
    run_calls r' = run_calls r ++ zip_with attempt_call changes oks;
  done_lines :
    output_text (run_gui r')
    = output_text (run_gui r) ++ zip_with attempt_line changes oks;
  done_log :
    exists added,
      rename_log (run_gui r') = rename_log (run_gui r) ++ added /\
      entry_names <$> added = change_names <$> succeeded changes oks;
  done_success : success_count r' = success_count r + count true oks;
  done_fail : fail_count r' = fail_count r + count false oks;
  done_plan : same_plan (run_gui r) (run_gui r')
}.

(** What a run of the executor has done, with the outcomes [oks] of the
    renames. *)
Record executed (g : gui) (r : @run world) (oks : list bool) : Prop := {
  exec_length : length oks = length (current_changes g);
  exec_renames :
    renames (run_calls r)
    = zip_with (fun c ok => (full_path_of c, target_path c, ok))
        (current_changes g) oks;
  exec_success : success_count r = count true oks;
  exec_fail : fail_count r = count false oks;
  exec_lines :
    exists rest,
      output_text (run_gui r)
      = [RuleLine; RenamingHeader; RuleLine]
        ++ zip_with attempt_line (current_changes g) oks ++ rest;
  exec_log :
    exists added,
      rename_log (run_gui r) = rename_log g ++ added /\
      entry_names <$> added
      = change_names <$> succeeded (current_changes g) oks;
  exec_no_write :
    count true oks = 0 -> log_writes (run_calls r) = [];
  exec_write :
    0 < count true oks ->
    exists log_file ok,
      log_writes (run_calls r) = [(log_file, rename_log (run_gui r), ok)] /\
      ((forall w p l, is_Some (write_json w p l)) -> ok = true);
  exec_plan : same_plan g (run_gui r)
}.

(** A step after the loop: it may make calls and write lines, and leaves
    the counters, the log and the plan alone. *)
Definition later (r r' : @run world) (calls : list os_call) : Prop :=
  run_calls r' = run_calls r ++ calls /\
  success_count r' = success_count r /\
  fail_count r' = fail_count r /\
  rename_log (run_gui r') = rename_log (run_gui r) /\
  (exists rest,
     output_text (run_gui r') = output_text (run_gui r) ++ rest) /\
  same_plan (run_gui r) (run_gui r').

End statements.

(* ===================================================================== *)
(** * More of the window *)
(* ===================================================================== *)

(** [browse_directory()], with the answer of the directory dialog (the
    empty string when the user cancels).  Setting the variable runs its
    trace, [invalidate_preview]. *)
Definition browse_directory (dir_path : str) (g : gui) : gui :=
  if negb (bool_decide (dir_path = [])) then
    invalidate_preview (invalidate_preview (set_dir_var dir_path g))
  else g.

(** The events that change an entry of the window. *)
Definition is_edit {world : Type} (e : @event world) : bool :=
  match e with
  | EditDirectory _ | EditReplacement _ | EditReplaceWith _
  | SelectPattern _ => true
  | _ => false
  end.

(** What a method does to the object: the entries and the log stay, the
    plan, the collisions and the button are set or stay, the output is
    replaced and message boxes are shown. *)
Definition updated (changes : option (list change))
    (collisions : option (gmap str (list str)))
    (button : option button_state) (output : list line)
    (shown : list dialog) (g : gui) : gui :=
  Gui (dir_var g) (pattern_var g) (replacement_var g) (replace_with_var g)
      (rename_log g)
      (default (current_changes g) changes)
      (default (current_collisions g) collisions)
      (default (rename_button g) button)
      output (dialogs g ++ shown).

(* ===================================================================== *)
(** * What the presets compute *)
(* ===================================================================== *)

(** The length of the longest prefix of [s] whose characters satisfy
    [P]. *)
Fixpoint run_length (P : ascii -> bool) (s : str) : nat :=
  match s with
  | c :: s' => if P c then S (run_length P s') else 0
  | [] => 0
  end.

(** [s] with each maximal run of characters that satisfy [P] replaced by
    [rep]; [in_run] tells whether the character before belongs to such a
    run. *)
Fixpoint replace_runs (P : ascii -> bool) (rep : str) (in_run : bool)
    (s : str) : str :=
  match s with
  | [] => []
  | c :: s' =>
      if P c then
        (if in_run then [] else rep) ++ replace_runs P rep true s'
      else c :: replace_runs P rep false s'
  end.

(** The characters that the preset Remove Special Characters keeps:
    letters, digits, the dot, the underscore, the hyphen and white
    space. *)
Definition kept_char (c : ascii) : bool :=
  is_lower c ||
  (is_upper c ||
   (is_digit c ||
    (bool_decide (c = "."%char) ||
     (bool_decide (c = "_"%char) ||
      (bool_decide (c = "-"%char) || isspace c))))).

(** A word character: a letter, a digit or the underscore. *)
Definition is_word (c : ascii) : bool :=
  is_alnum c || bool_decide (c = "_"%char).

(** Whether [rest] is a dot followed by one or more word characters. *)
Definition is_extension (rest : str) : bool :=
  match rest with
  | c :: e =>
      bool_decide (c = extsep) && negb (bool_decide (e = [])) &&
      forallb is_word e
  | [] => false
  end.

(** Whether the part of the name from its last dot on is such an
    extension, and the name with [sfx] put before that dot. *)
Definition has_extension (name : str) : bool :=
  is_extension (split_last_dot name).2.
Definition insert_suffix (sfx name : str) : str :=
  (split_last_dot name).1 ++ sfx ++ (split_last_dot name).2.

(** The patterns of the presets as the parser gives them: a set, a set
    repeated once or more, the pattern of Add Prefix and the pattern of
    Add Suffix Before Extension. *)
Definition one_of (neg : bool) (items : list Sre.set_item) : Sre.regex :=
  Sre.Cat (Sre.InSet neg items) Sre.Empty.
Definition one_or_more (neg : bool) (items : list Sre.set_item) : Sre.regex :=
  Sre.Cat (Sre.Cat (Sre.InSet neg items)
                   (Sre.Star true (Sre.InSet neg items))) Sre.Empty.

Definition all_in_one_group : Sre.regex :=
  Sre.Cat Sre.Bol
    (Sre.Cat (Sre.Group 1 (Sre.Cat (Sre.Star true Sre.AnyChar) Sre.Empty))
       (Sre.Cat Sre.Eol Sre.Empty)).

Definition word_set : list Sre.set_item := [Sre.SCat false Sre.CatWord].

Definition extension_group : Sre.regex :=
  Sre.Cat
    (Sre.Group 2
       (Sre.Cat (Sre.Lit ".")
          (Sre.Cat (Sre.Cat (Sre.InSet false word_set)
                            (Sre.Star true (Sre.InSet false word_set)))
                   Sre.Empty)))
    (Sre.Cat Sre.Eol Sre.Empty).

Definition stem_and_extension : Sre.regex :=
  Sre.Cat Sre.Bol
    (Sre.Cat (Sre.Group 1 (Sre.Cat (Sre.Star false Sre.AnyChar) Sre.Empty))
       extension_group).

(* ===================================================================== *)
(** * Shapes of paths and of names *)
(* ===================================================================== *)

(** What [os.path.dirname] returns: nothing, separators only, or a path
    that does not end with a separator. *)
Definition dir_shape (d : str) : Prop :=
  d = [] \/ (d ≠ [] /\ d = replicate (length d) sep) \/
  exists t x, d = t ++ [x] /\ x ≠ sep.

(** Two strings with their dots and their separators at the same
    places. *)
Definition same_marks (p q : str) : Prop :=
  Forall2 (fun x y => (x = extsep <-> y = extsep) /\ (x = sep <-> y = sep))
    p q.

(* ===================================================================== *)
(** * Sessions on the small machine *)
(* ===================================================================== *)

(** Sessions on the small machine, with the engine of the fragment. *)
Module Sessions.

#[local] Existing Instance fragment_only.

Definition tab : ascii := "009"%char.

Definition session (es : list (@event Toy.machine)) (m : Toy.machine)
    : Toy.machine * gui * list os_call :=
  run_events es m initial.

(** Two names with spaces and one without, and a subdirectory. *)
Definition spaces : Toy.machine :=
  Toy.Machine ["d/c d.txt" : str; "d/a b.txt" : str; "d/e.txt" : str;
               "d/sub/x y.txt" : str]
              ["d" : str; "d/sub" : str] true.
(** The same after [d/c d.txt] was removed by someone else. *)
Definition spaces_later : Toy.machine :=
  Toy.Machine ["d/a b.txt" : str; "d/e.txt" : str; "d/sub/x y.txt" : str]
              ["d" : str; "d/sub" : str] true.
Definition spaces_previewed : Toy.machine * gui * list os_call :=
  session [EditDirectory "d"; ClickPreview; Outside spaces_later] spaces.


(** Two names that differ by their white space, none with a space. *)
Definition tabs : Toy.machine :=
  Toy.Machine [("d/a" : str) ++ [tab] ++ ("b.txt" : str);
               ("d/a" : str) ++ [tab; tab] ++ ("b.txt" : str)]
              ["d" : str] true.
Definition tabs_previewed : Toy.machine * gui * list os_call :=
  session [EditDirectory "d"; ClickPreview] tabs.


(** A name with a version in brackets. *)
Definition versions : Toy.machine :=
  Toy.Machine ["d/app[v1.0].zip" : str; "d/appv1x0.zip" : str]
              ["d" : str] true.
Definition versions_previewed : Toy.machine * gui * list os_call :=
  session [EditDirectory "d"; SelectPattern "Remove Text";
           EditReplacement " [v1.0] "; ClickPreview] versions.

(** A dot file, a name with a question mark and an archive. *)
Definition home : Toy.machine :=
  Toy.Machine ["d/.bashrc" : str; "d/what?.txt" : str;
               "d/archive.tar.gz" : str]
              ["d" : str] true.
Definition home_previewed : Toy.machine * gui * list os_call :=
  session [EditDirectory "d"; SelectPattern "Convert to Uppercase";
           ClickPreview] home.

(** Removing the numbers from four names: one has none, one becomes
    illegal. *)
Definition four_files : list str :=
  ["d/a1.txt" : str; "d/b.txt" : str; "d/c7:8.txt" : str; "d/9d.txt" : str].
Definition has_number (s : str) : bool :=
  bool_decide (sre_search "\d+" s = Some true).
Definition without_numbers (s : str) : str :=
  default s (sre_sub "\d+" [] s).

End Sessions.

(** The window after a preset was chosen, and after texts were typed. *)
Module Samples.

Definition chosen (name : str) : gui :=
  on_pattern_selected (set_pattern_var name initial).
Definition typed (name text : str) : gui :=
  invalidate_preview (set_replacement_var text (chosen name)).
Definition typed_both (name text with_text : str) : gui :=
  invalidate_preview (set_replace_with_var with_text (typed name text)).

End Samples.

(* ===================================================================== *)
(** * Library functions on examples *)
(* ===================================================================== *)

Example basename_ex : basename "dir/sub/a b.txt" = "a b.txt".
Proof. reflexivity. Qed.
Example dirname_ex : dirname "dir/sub/a b.txt" = "dir/sub".
Proof. reflexivity. Qed.
Example dirname_root_ex : dirname "/a.txt" = "/".
Proof. reflexivity. Qed.
Example join_ex : join "dir/sub" "x.txt" = "dir/sub/x.txt".
Proof. reflexivity. Qed.
Example splitext_ex : splitext "archive.tar.gz" = ("archive.tar" : str, ".gz" : str).
Proof. reflexivity. Qed.
Example splitext_dotfile_ex : splitext ".bashrc" = (".bashrc" : str, [] : str).
Proof. reflexivity. Qed.
Example split_ex : split "  my  file name " = ["my" : str; "file" : str; "name" : str].
Proof. reflexivity. Qed.

(* ===================================================================== *)
(** * The order on strings *)
(* ===================================================================== *)

Lemma str_leb_total (a b : str) : str_leb a b = true \/ str_leb b a = true.
Proof.
  revert b. induction a as [|x a IH]; intros [|y b]; simpl; auto.
  destruct (Nat.ltb_spec (code x) (code y)); auto.
  destruct (Nat.ltb_spec (code y) (code x)); auto.
  assert (E : code x = code y) by lia.
  rewrite E, Nat.eqb_refl. apply IH.
Qed.

Lemma str_leb_trans (a b c : str) :
  str_leb a b = true -> str_leb b c = true -> str_leb a c = true.
Proof.
  revert b c. induction a as [|x a IH]; intros [|y b] [|z c]; simpl; auto;
    try discriminate.
  destruct (Nat.ltb_spec (code x) (code y)), (Nat.ltb_spec (code y) (code z)),
    (Nat.ltb_spec (code x) (code z)); auto; try lia;
    destruct (Nat.eqb_spec (code x) (code y)),
      (Nat.eqb_spec (code y) (code z)),
      (Nat.eqb_spec (code x) (code z)); try discriminate; try lia; eauto.
Qed.

Global Instance str_le_total : Total str_le.
Proof. intros a b. apply str_leb_total. Qed.

Global Instance str_le_transitive : Transitive str_le.
Proof. intros a b c. apply str_leb_trans. Qed.

(* ===================================================================== *)
(** * The file collector *)
(* ===================================================================== *)

Section collector.
Context {world : Type} `{OS world}.

(** The loop of [collect_files] keeps, in order, the entries that are
    files. *)
Lemma collect_loop (w : world) (dir_path : str) (names : list str)
    (acc : list str) :
  foldl (fun files filename =>
           let full_path := join dir_path filename in
           if os_path_isfile w full_path then files ++ [full_path]
           else files) acc names
  = acc ++ filter (fun p => os_path_isfile w p = true)
             (map (join dir_path) names).
Proof.
  revert acc. induction names as [|n names IH]; intros acc; simpl.
  - by rewrite app_nil_r.
  - rewrite IH, filter_cons. destruct (os_path_isfile w (join dir_path n)) eqn:E.
    + rewrite decide_True by done. by rewrite <- app_assoc.
    + rewrite decide_False by congruence. done.
Qed.

(** C7.  For a directory that can be listed, [collect_files] returns the
    entries of that directory that are files, each once per entry and as
    the directory joined with the entry name (so nothing from below a
    subdirectory), in the order of their full paths; the flag [recursive]
    does not change the result. *)
Theorem collect_files_spec (w : world) (dir_path : str) (names : list str)
    (recursive : bool) :
  os_listdir w dir_path = Some names ->
  exists files,
    collect_files w dir_path recursive = Some files /\
    files ≡ₚ filter (fun p => os_path_isfile w p = true)
               (map (join dir_path) names) /\
    (forall p, p ∈ files <->
       exists name, name ∈ names /\ p = join dir_path name /\
                    os_path_isfile w p = true) /\
    StronglySorted str_le files /\
    collect_files w dir_path true = collect_files w dir_path false.
Proof.
  intros Hls. unfold collect_files. rewrite Hls. simpl.
  rewrite collect_loop. simpl.
  eexists. split; [reflexivity|]. split; [|split; [|split]].
  - apply merge_sort_Permutation.
  - intros p. unfold sorted. rewrite merge_sort_Permutation.
    rewrite list_elem_of_filter, list_elem_of_fmap.
    split.
    + intros [Hf (name & -> & Hn)]. eauto.
    + intros (name & Hn & -> & Hf). eauto.
  - apply StronglySorted_merge_sort; apply _.
  - reflexivity.
Qed.
End collector.

(* ===================================================================== *)
(** * The collision detector *)
(* ===================================================================== *)

Lemma record_claim_lookup (m : gmap str (list str)) (c : change) (key : str) :
  record_claim m c !! key =
    if decide (target_path c = key)
    then Some (default [] (m !! key) ++ [old_name_of c])
    else m !! key.
Proof.
  destruct c as [[full_path old] new]. unfold record_claim, target_path, full_path_of, new_name_of, old_name_of.
  simpl.
  set (k := join (dirname full_path) new).
  destruct (decide (k = key)) as [->|Hne].
  - destruct (m !! key) eqn:E; simpl.
    + rewrite lookup_alter_eq, E. done.
    + rewrite lookup_alter_eq, lookup_insert_eq. done.
  - rewrite lookup_alter_ne by done.
    destruct (m !! k); [done|]. by rewrite lookup_insert_ne.
Qed.

Lemma record_claims_lookup (changes : list change) (m : gmap str (list str))
    (key : str) :
  foldl record_claim m changes !! key =
    match claimants key changes with
    | [] => m !! key
    | l => Some (default [] (m !! key) ++ l)
    end.
Proof.
  revert m. induction changes as [|c changes IH]; intros m; [done|].
  simpl. rewrite IH, record_claim_lookup. unfold claimants.
  rewrite filter_cons. destruct (decide (target_path c = key)) as [E|E].
  - rewrite fmap_cons.
    destruct (old_name_of <$> filter _ changes) eqn:El; simpl; [done|].
    by rewrite <- app_assoc.
  - done.
Qed.

(** C2.  [detect_collisions] maps a path to a list exactly when two or more
    changes have that path as their target, and the list holds the old
    names of all those changes, in the order of the plan; a path that is
    the target of one change, or of none, is no key. *)
Theorem detect_collisions_spec (changes : list change) (key : str) :
  detect_collisions changes !! key =
    if decide (2 <= length (claimants key changes))
    then Some (claimants key changes)
    else None.
Proof.
  unfold detect_collisions. rewrite map_lookup_filter, record_claims_lookup.
  rewrite lookup_empty. simpl.
  destruct (claimants key changes) as [|a [|b l]]; simpl; done.
Qed.


(* ===================================================================== *)
(** * The illegal characters *)
(* ===================================================================== *)

Lemma parse_ILLEGAL_CHARS_WIN :
  Sre.parse ILLEGAL_CHARS_WIN
  = Some (Sre.Cat (Sre.InSet false illegal_set) Sre.Empty, 0).
Proof. vm_compute. reflexivity. Qed.

Lemma in_char_set (l : str) (c : ascii) :
  Sre.in_set false (map Sre.SChar l) c = bool_decide (c ∈ l).
Proof.
  unfold Sre.in_set. simpl xorb.
  induction l as [|x l IH]; [done|].
  cbn [map existsb Sre.item_matches]. rewrite IH.
  destruct (decide (c = x)) as [->|Hne].
  - rewrite (bool_decide_eq_true_2 (x = x)) by done.
    rewrite (bool_decide_eq_true_2 (x ∈ x :: l)) by left. done.
  - rewrite (bool_decide_eq_false_2 (c = x)) by done.
    apply bool_decide_ext. rewrite elem_of_cons. tauto.
Qed.

(** A search for a one-character set finds a match exactly when some
    character of the string is in the set. *)
Lemma search_set (neg : bool) (items : list Sre.set_item) (s : str) (pos : nat) :
  is_Some (Sre.search_from (Sre.Cat (Sre.InSet neg items) Sre.Empty) pos s)
  <-> Exists (fun c => Sre.in_set neg items c = true) s.
Proof.
  revert pos. induction s as [|c s IH]; intros pos; simpl.
  - unfold Sre.match_at; simpl. rewrite Exists_nil. split; [|done].
    by intros [? ?].
  - unfold Sre.match_at; simpl. rewrite Exists_cons.
    destruct (Sre.in_set neg items c) eqn:E; simpl.
    + split; [auto|]. by eexists.
    + rewrite IH. split; [auto|]. by intros [?|?].
Qed.

(** [is_valid_filename] accepts the names without an illegal character. *)
Lemma is_valid_filename_spec (name : str) :
  is_valid_filename name = true <-> legal_name name.
Proof.
  unfold is_valid_filename, sre_search, legal_name.
  rewrite parse_ILLEGAL_CHARS_WIN. simpl.
  rewrite negb_true_iff, bool_decide_eq_false, search_set.
  rewrite <- Forall_Exists_neg. apply Forall_iff. intros c.
  unfold illegal_set. rewrite in_char_set, bool_decide_eq_true. done.
Qed.

(* ===================================================================== *)
(** * The plan generator *)
(* ===================================================================== *)

Section plan_generator.
Context `{Re}.

Lemma same_but_output_refl g : same_but_output g g.
Proof. by repeat split. Qed.

Lemma same_but_output_trans g1 g2 g3 :
  same_but_output g1 g2 -> same_but_output g2 g3 -> same_but_output g1 g3.
Proof.
  unfold same_but_output. intros H1 H2.
  destruct_and!. repeat split; congruence.
Qed.

Lemma log_output_same l g : same_but_output g (log_output l g).
Proof. by repeat split. Qed.

Lemma apply_regex_loop_gui files pattern replacement flags changes g :
  same_but_output g
    (apply_regex_loop files pattern replacement flags changes g).1.
Proof.
  revert changes g. induction files as [|f files IH]; intros changes g; simpl.
  - apply same_but_output_refl.
  - destruct (re_search _ _ _) as [[|]|]; simpl;
      [|apply IH|apply same_but_output_refl].
    destruct (re_sub _ _ _ _) as [new|]; simpl;
      [|apply same_but_output_refl].
    destruct (is_valid_filename new); simpl.
    + destruct (bool_decide _); apply IH.
    + eapply same_but_output_trans; [|apply IH]. apply log_output_same.
Qed.

Lemma apply_regex_loop_spec files pattern replacement flags
    (matches : str -> bool) (subst : str -> str) changes g :
  (forall f, f ∈ files ->
     re_search pattern (basename f) flags = Some (matches (basename f))) ->
  (forall f, f ∈ files -> matches (basename f) = true ->
     re_sub pattern replacement (basename f) flags
     = Some (subst (basename f))) ->
  (apply_regex_loop files pattern replacement flags changes g).2
  = Some (changes ++ plan_of matches subst files).
Proof.
  revert changes g. induction files as [|f files IH]; intros changes g Hs Hr.
  - simpl. by rewrite app_nil_r.
  - simpl. rewrite (Hs f) by left.
    assert (Hs' : forall f', f' ∈ files ->
              re_search pattern (basename f') flags
              = Some (matches (basename f'))) by (intros; apply Hs; by right).
    assert (Hr' : forall f', f' ∈ files -> matches (basename f') = true ->
              re_sub pattern replacement (basename f') flags
              = Some (subst (basename f'))) by (intros; apply Hr; [by right|done]).
    unfold plan_of. rewrite filter_cons.
    destruct (matches (basename f)) eqn:Em.
    + rewrite (Hr f); [|left|done].
      destruct (is_valid_filename (subst (basename f))) eqn:Ev; simpl.
      * apply is_valid_filename_spec in Ev.
        destruct (decide (subst (basename f) = basename f)) as [Eq|Ne].
        -- rewrite bool_decide_eq_true_2 by done.
           rewrite decide_False by (unfold planned; tauto). by apply IH.
        -- rewrite bool_decide_eq_false_2 by done.
           rewrite decide_True by (unfold planned; tauto).
           rewrite IH by done. simpl. by rewrite <- app_assoc.
      * rewrite decide_False; [by apply IH|].
        unfold planned. intros (_ & _ & Hl).
        apply is_valid_filename_spec in Hl. congruence.
    + rewrite decide_False; [by apply IH|].
      unfold planned. intros (Hm & _). congruence.
Qed.

(** C3.  When the engine answers on the names of the files ([matches]
    tells whether the pattern is found in a name, [subst] is the
    substitution), [apply_regex] returns, in the order of the files, one
    triple (path, old name, new name) for each file whose name matches,
    whose new name differs from the old one and whose new name has no
    illegal character, and nothing else. *)
Theorem apply_regex_spec (files : list str) (pattern replacement : str)
    (flags : Z) (g : gui) (matches : str -> bool) (subst : str -> str) :
  (forall f, f ∈ files ->
     re_search pattern (basename f) flags = Some (matches (basename f))) ->
  (forall f, f ∈ files -> matches (basename f) = true ->
     re_sub pattern replacement (basename f) flags
     = Some (subst (basename f))) ->
  (apply_regex files pattern replacement flags g).2
  = Some (map (fun full_path =>
                 (full_path, basename full_path, subst (basename full_path)))
            (filter (fun full_path =>
                       matches (basename full_path) = true /\
                       subst (basename full_path) ≠ basename full_path /\
                       legal_name (subst (basename full_path)))
               files)).
Proof.
  intros Hs Hr. unfold apply_regex.
  by rewrite (apply_regex_loop_spec _ _ _ _ matches subst).
Qed.

Lemma checked_further f files pattern replacement flags c :
  checked files pattern replacement flags c ->
  checked (f :: files) pattern replacement flags c.
Proof.
  unfold checked. intros (?&?&?&?&?&?). repeat split; try done. by right.
Qed.

(** Every change that [apply_regex] returns comes from one of the files,
    was matched and substituted by the engine, differs from the old name
    and is legal. *)
Lemma apply_regex_loop_sound files pattern replacement flags changes g plan :
  (apply_regex_loop files pattern replacement flags changes g).2 = Some plan ->
  exists added,
    plan = changes ++ added /\
    Forall (checked files pattern replacement flags) added.
Proof.
  revert changes g plan.
  induction files as [|f files IH]; intros changes g plan; simpl.
  - intros [= <-]. exists []. by rewrite app_nil_r.
  - assert (Hnext : forall changes0 g0,
              (apply_regex_loop files pattern replacement flags changes0 g0).2
              = Some plan ->
              exists added,
                plan = changes0 ++ added /\
                Forall (checked (f :: files) pattern replacement flags) added).
    { intros changes0 g0 Hp. destruct (IH _ _ _ Hp) as (added & -> & Hall).
      exists added. split; [done|].
      eapply Forall_impl; [exact Hall|]. intros c. apply checked_further. }
    destruct (re_search _ _ _) as [[|]|] eqn:Es; simpl; [| |done].
    + destruct (re_sub _ _ _ _) as [new|] eqn:Er; simpl; [|done].
      destruct (is_valid_filename new) eqn:Ev; simpl.
      * destruct (bool_decide (new = basename f)) eqn:Eb.
        -- apply Hnext.
        -- intros Hp. destruct (Hnext _ _ Hp) as (added & -> & Hall).
           exists ((f, basename f, new) :: added).
           split; [by rewrite <- app_assoc|].
           constructor; [|done].
           apply bool_decide_eq_false in Eb.
           apply is_valid_filename_spec in Ev.
           unfold checked. simpl. repeat split; try done. left.
      * apply Hnext.
    + apply Hnext.
Qed.
End plan_generator.


(* ===================================================================== *)
(** * Escaped text is matched literally *)
(* ===================================================================== *)

Lemma escape_code_special (c : ascii) :
  c ∈ special_chars -> Sre.escape_code false c = Some (Sre.EscLit c).
Proof.
  unfold special_chars. simpl.
  intros Hc. repeat (apply elem_of_cons in Hc as [->|Hc]; [reflexivity|]).
  by apply elem_of_nil in Hc.
Qed.

Lemma not_special_plain (c : ascii) : c ∉ special_chars -> plain c.
Proof.
  intros Hc.
  assert (Hne : forall x, bool_decide (x ∈ special_chars) = true -> c ≠ x).
  { intros x Hx ->. by apply bool_decide_eq_true in Hx. }
  unfold plain, Sre.is_repeat_char.
  repeat split; try (apply Hne; reflexivity).
  rewrite !bool_decide_eq_false_2; [done|apply Hne; reflexivity..].
Qed.

(** An escaped text does not start with a repeat. *)
Lemma escape_head_no_repeat (t : str) :
  match re_escape t with
  | c :: _ => Sre.is_repeat_char c
  | [] => false
  end = false.
Proof.
  destruct t as [|c t]; [done|]. unfold re_escape. simpl.
  destruct (bool_decide (c ∈ special_chars)) eqn:E; simpl.
  - done.
  - apply bool_decide_eq_false in E. by apply not_special_plain in E as (?&?&?&?&?&?&?&?&?).
Qed.

Lemma apply_repeat_none (item : Sre.regex) (s : str) :
  match s with c :: _ => Sre.is_repeat_char c | [] => false end = false ->
  Sre.apply_repeat item s = Some (item, s).
Proof.
  destruct s as [|c s]; [done|]. simpl. by intros ->.
Qed.

Lemma re_escape_cons (c : ascii) (t : str) :
  re_escape (c :: t) =
  (if bool_decide (c ∈ special_chars) then [Sre.backslash; c] else [c])
  ++ re_escape t.
Proof. reflexivity. Qed.

Lemma parse_seq_escape (t : str) (fuel ngroups : nat) :
  length (re_escape t) < fuel ->
  Sre.parse_seq fuel false ngroups (re_escape t)
  = Some (literal t, ngroups, []).
Proof.
  revert fuel. induction t as [|c t IH]; intros fuel Hfuel.
  - destruct fuel; [simpl in Hfuel; lia|]. reflexivity.
  - rewrite re_escape_cons in *.
    destruct fuel as [|fuel]; [lia|].
    destruct (bool_decide (c ∈ special_chars)) eqn:E.
    + apply bool_decide_eq_true in E.
      cbn [app Sre.parse_seq].
      rewrite decide_False by done. rewrite decide_True by done.
      rewrite (escape_code_special c E). cbn [mbind option_bind].
      rewrite apply_repeat_none by apply escape_head_no_repeat.
      cbn [mbind option_bind].
      rewrite IH by (simpl in Hfuel; lia). reflexivity.
    + apply bool_decide_eq_false in E.
      destruct (not_special_plain c E) as (H1&H2&H3&H4&H5&H6&H7&H8&H9).
      cbn [app Sre.parse_seq].
      rewrite !decide_False by done. rewrite H9.
      rewrite (bool_decide_eq_false_2 (c = "|"%char)) by done.
      cbn [orb mbind option_bind].
      rewrite apply_repeat_none by apply escape_head_no_repeat.
      cbn [mbind option_bind].
      rewrite IH by (simpl in Hfuel; lia). reflexivity.
Qed.

(** [re.escape] gives a pattern that compiles to the literal text. *)
Lemma parse_escape (t : str) :
  Sre.parse (re_escape t) = Some (literal t, 0).
Proof.
  unfold Sre.parse. rewrite parse_seq_escape by lia. reflexivity.
Qed.

Lemma startswith_take (t s : str) :
  startswith t s = true -> take (length t) s = t.
Proof.
  revert s. induction t as [|x t IH]; intros [|y s]; simpl; try done.
  intros [Hxy Ht]%andb_true_iff. apply bool_decide_eq_true in Hxy as ->.
  by rewrite IH.
Qed.

Lemma startswith_length (t s : str) :
  startswith t s = true -> length t <= length s.
Proof.
  revert s. induction t as [|x t IH]; intros [|y s]; simpl; try done; try lia.
  intros [_ Ht]%andb_true_iff. apply IH in Ht. lia.
Qed.

(** Matching a literal text is testing a prefix. *)
Lemma match_literal {A} (t s : str) (pos : nat) (cs : Sre.captures)
    (k : nat -> str -> Sre.captures -> option A) :
  Sre.match_re (literal t) pos s cs k =
    if startswith t s then k (pos + length t) (drop (length t) s) cs
    else None.
Proof.
  revert s pos. induction t as [|x t IH]; intros s pos.
  - simpl. by rewrite Nat.add_0_r.
  - cbn [literal foldr Sre.match_re]. destruct s as [|y s]; [done|].
    cbn [startswith]. destruct (decide (y = x)) as [->|Hne].
    + rewrite bool_decide_eq_true_2 by done. cbn [andb].
      fold (literal t). rewrite IH. simpl.
      by replace (pos + S (length t)) with (S (pos + length t)) by lia.
    + rewrite bool_decide_eq_false_2 by congruence. done.
Qed.

Lemma match_at_literal (t s : str) (pos : nat) (must_advance : bool) :
  Sre.match_at (literal t) pos s must_advance =
    if startswith t s && negb (must_advance && bool_decide (t = []))
    then Some (pos + length t, [])
    else None.
Proof.
  unfold Sre.match_at. rewrite match_literal.
  destruct (startswith t s); [|done]. simpl.
  destruct must_advance; simpl; [|done].
  destruct t as [|x t]; simpl.
  - by rewrite Nat.add_0_r, Nat.eqb_refl.
  - destruct (Nat.eqb_spec (pos + S (length t)) pos); [lia|done].
Qed.

(** A search for a literal text finds it exactly when the string contains
    it. *)
Lemma search_literal (t s : str) (pos : nat) :
  bool_decide (is_Some (Sre.search_from (literal t) pos s)) = str_in t s.
Proof.
  revert pos. induction s as [|c s IH]; intros pos;
    cbn [Sre.search_from str_in]; rewrite match_at_literal;
    cbn [andb negb]; rewrite andb_true_r;
    destruct (startswith t _); simpl; done.
Qed.

Lemma sre_search_escape (t s : str) :
  sre_search (re_escape t) s = Some (str_in t s).
Proof.
  unfold sre_search. rewrite parse_escape. simpl. by rewrite search_literal.
Qed.

(** A substitution for a literal text is [str.replace], with what the
    template stands for at a match of that text. *)
Lemma sub_scan_literal (t : str) (tpl : list Sre.titem) (s : str)
    (pos skip : nat) :
  Sre.sub_scan (literal t) tpl pos skip s
  = str_replace_skip t (Sre.expand tpl t []) skip s.
Proof.
  revert pos skip. induction s as [|c s IH]; intros pos skip.
  - destruct skip; [|done]. cbn [Sre.sub_scan str_replace_skip].
    rewrite !match_at_literal. cbn [andb negb]. rewrite andb_true_r.
    destruct t as [|x t]; [|done]. cbn [startswith length bool_decide].
    replace (pos + 0 - pos) with 0 by lia. done.
  - destruct skip as [|skip]; [|simpl; apply IH].
    cbn [Sre.sub_scan str_replace_skip]. rewrite !match_at_literal.
    cbn [andb negb]. rewrite andb_true_r.
    destruct (startswith t (c :: s)) eqn:Est; cbn [andb].
    + replace (pos + length t - pos) with (length t) by lia.
      rewrite (startswith_take _ _ Est).
      destruct t as [|x t].
      * simpl. by rewrite IH.
      * simpl. rewrite IH. done.
    + simpl. by rewrite IH.
Qed.

(** A template without a backslash stands for itself. *)
Lemma parse_template_plain (r : str) (fuel groups : nat) :
  Sre.backslash ∉ r -> length r < fuel ->
  Sre.parse_template fuel groups r = Some (map (fun c => Sre.TLit [c]) r).
Proof.
  revert fuel. induction r as [|c r IH]; intros fuel Hr Hfuel.
  - destruct fuel; [simpl in Hfuel; lia|done].
  - destruct fuel as [|fuel]; [lia|]. cbn [Sre.parse_template].
    rewrite decide_False by (intros ->; apply Hr; left).
    rewrite IH; [done| |simpl in Hfuel; lia].
    intros Hin. apply Hr. by right.
Qed.

Lemma expand_plain (r whole : str) (cs : Sre.captures) :
  Sre.expand (map (fun c => Sre.TLit [c]) r) whole cs = r.
Proof.
  unfold Sre.expand. rewrite map_map. simpl.
  induction r as [|c r IH]; simpl; [done|]. by rewrite IH.
Qed.

Lemma sre_sub_escape (t repl s : str) :
  sre_sub (re_escape t) repl s =
    tpl ← Sre.parse_template (S (length repl)) 0 repl;
    Some (str_replace t (Sre.expand tpl t []) s).
Proof.
  unfold sre_sub. rewrite parse_escape. cbn [mbind option_bind].
  destruct (Sre.parse_template (S (length repl)) 0 repl) as [tpl|];
    cbn [mbind option_bind]; [|done].
  by rewrite sub_scan_literal.
Qed.

Lemma sre_sub_escape_plain (t repl s : str) :
  Sre.backslash ∉ repl ->
  sre_sub (re_escape t) repl s = Some (str_replace t repl s).
Proof.
  intros Hr. rewrite sre_sub_escape, parse_template_plain by (done || lia).
  simpl. by rewrite expand_plain.
Qed.


(* ===================================================================== *)
(** * Paths *)
(* ===================================================================== *)

(** [rfind]: no occurrence and [-1], or the index of an occurrence that no
    other follows. *)
Lemma find_last_spec (c : ascii) (s : str) (i : nat) (acc : Z) :
  (find_last c s i acc = acc /\ c ∉ s) \/
  (exists k, find_last c s i acc = Z.of_nat (i + k) /\
             s !! k = Some c /\ c ∉ drop (S k) s).
Proof.
  revert i acc. induction s as [|x s IH]; intros i acc; simpl.
  - left. split; [done|]. by intros ?%elem_of_nil.
  - destruct (IH (S i) (if decide (x = c) then Z.of_nat i else acc))
      as [[-> Hnot]|(k & -> & Hk & Hnot)].
    + destruct (decide (x = c)) as [->|Hne].
      * right. exists 0. rewrite Nat.add_0_r. by rewrite drop_0.
      * left. split; [done|]. rewrite not_elem_of_cons. split; [congruence|done].
    + right. exists (S k). split; [f_equal; lia|done].
Qed.

Lemma rfind_spec (c : ascii) (s : str) :
  (rfind c s = (-1)%Z /\ c ∉ s) \/
  (exists k, rfind c s = Z.of_nat k /\ s !! k = Some c /\ c ∉ drop (S k) s).
Proof. apply (find_last_spec c s 0). Qed.

(** A base name has no separator. *)
Lemma basename_no_sep (p : str) : sep ∉ basename p.
Proof.
  unfold basename, slice_from.
  destruct (rfind_spec sep p) as [[-> Hnot]|(k & -> & _ & Hnot)].
  - by rewrite drop_0.
  - by replace (Z.to_nat (Z.of_nat k + 1)) with (S k) by lia.
Qed.

Lemma rfind_absent (c : ascii) (s : str) : c ∉ s -> rfind c s = (-1)%Z.
Proof.
  intros Hnot. destruct (rfind_spec c s) as [[-> _]|(k & _ & Hk & _)]; [done|].
  exfalso. apply Hnot. by eapply list_elem_of_lookup_2.
Qed.

(** [splitext] cuts the name in two. *)
Lemma splitext_app (name : str) :
  (splitext name).1 ++ (splitext name).2 = name.
Proof.
  unfold splitext, slice_to, slice_from.
  destruct (_ && _); simpl; [apply take_drop|apply app_nil_r].
Qed.

(** The loop that skips the leading dots answers whether a character
    other than a dot stands in the range it walks. *)
Lemma skip_leading_dots_spec (p : str) (i j fuel : nat) :
  j - i <= fuel ->
  skip_leading_dots p i j fuel = true <->
  exists k, i <= k < j /\ p !! k ≠ Some extsep.
Proof.
  revert i. induction fuel as [|fuel IH]; intros i Hfuel; simpl.
  - split; [done|]. intros (k & Hk & _). lia.
  - destruct (Nat.ltb_spec i j) as [Hlt|Hge].
    + destruct (decide (p !! i = Some extsep)) as [E|E].
      * rewrite bool_decide_eq_true_2 by done. simpl.
        rewrite IH by lia. split.
        -- intros (k & Hk & Hne). exists k. split; [lia|done].
        -- intros (k & Hk & Hne). exists k. split; [|done].
           destruct (decide (k = i)) as [->|]; [done|lia].
      * rewrite bool_decide_eq_false_2 by done. simpl.
        split; [|done]. intros _. exists i. split; [lia|done].
    + split; [done|]. intros (k & Hk & _). lia.
Qed.

(** On a base name, [splitext] cuts at the last dot when a character other
    than a dot stands before that dot, and gives an empty extension
    otherwise (no dot, or dots only before the last one). *)
Lemma splitext_basename (name : str) :
  sep ∉ name ->
  (exists i, rfind extsep name = Z.of_nat i /\ stem_before i name /\
             splitext name = split_last_dot name) \/
  ((rfind extsep name = (-1)%Z \/
    exists i, rfind extsep name = Z.of_nat i /\ ~ stem_before i name) /\
   splitext name = (name, [])).
Proof.
  intros Hsep. unfold splitext, split_last_dot.
  rewrite (rfind_absent sep name Hsep).
  destruct (rfind_spec extsep name) as [[-> Hnot]|(i & -> & Hi & Hnot)].
  - right. split; [by left|done].
  - assert (Hlen : i < length name) by (by eapply lookup_lt_Some).
    replace (-1 <? Z.of_nat i)%Z with true by (symmetry; apply Z.ltb_lt; lia).
    replace (Z.of_nat i <? 0)%Z with false by (symmetry; apply Z.ltb_ge; lia).
    simpl. rewrite Nat2Z.id. change (Z.to_nat (-1 + 1)) with 0.
    destruct (skip_leading_dots name 0 i (length name)) eqn:E.
    + left. exists i. split; [done|]. split; [|done].
      apply skip_leading_dots_spec in E as (k & Hk & Hne); [|lia].
      exists k. split; [lia|done].
    + right. split; [|done]. right. exists i. split; [done|].
      intros (k & Hk & Hne).
      assert (skip_leading_dots name 0 i (length name) = true) as E'.
      { apply skip_leading_dots_spec; [lia|]. exists k. split; [lia|done]. }
      congruence.
Qed.

(* ===================================================================== *)
(** * Case conversion *)
(* ===================================================================== *)

Lemma case_change_sound (mode : transform_mode) (changes : list change)
    (full_path : str) :
  Forall (case_planned mode) changes ->
  Forall (case_planned mode) (case_change mode changes full_path).
Proof.
  intros Hall. unfold case_change.
  destruct (splitext (basename full_path)) as [name ext] eqn:E.
  destruct (decide (transform_stem mode name ++ ext = basename full_path)).
  - by rewrite bool_decide_eq_true_2.
  - rewrite bool_decide_eq_false_2 by done. simpl.
    apply Forall_app. split; [done|]. constructor; [|done].
    unfold case_planned, old_name_of, new_name_of, full_path_of. simpl.
    by rewrite E.
Qed.

Lemma case_changes_sound (mode : transform_mode) (files : list str) :
  Forall (case_planned mode) (case_changes mode files).
Proof.
  unfold case_changes.
  assert (Hgen : forall acc, Forall (case_planned mode) acc ->
            Forall (case_planned mode) (foldl (case_change mode) acc files)).
  { induction files as [|f files IH]; intros acc Hacc; simpl; [done|].
    apply IH. by apply case_change_sound. }
  by apply Hgen.
Qed.


Section preview.
Context `{Re} {world : Type} `{OS world}.

Lemma build_rule_entries g g' info :
  same_entries g g' -> build_rule g' info = build_rule g info.
Proof.
  intros (_ & Hp & Hr & Hw). unfold build_rule. by rewrite Hp, Hr, Hw.
Qed.

Lemma planned_by_entries w g g' plan :
  same_entries g g' -> planned_by w g plan -> planned_by w g' plan.
Proof.
  intros Hs (files & info & Hf & Ha & Hr).
  exists files, info. rewrite (build_rule_entries g g' info Hs).
  destruct Hs as (-> & -> & _). done.
Qed.

Lemma apply_regex_loop_output files pattern replacement flags changes g :
  no_plan_shown g ->
  no_plan_shown (apply_regex_loop files pattern replacement flags changes g).1.
Proof.
  revert changes g. induction files as [|f files IH]; intros changes g Hg;
    simpl; [done|].
  destruct (re_search _ _ _) as [[|]|]; simpl; [|by apply IH|done].
  destruct (re_sub _ _ _ _) as [new|]; simpl; [|done].
  destruct (is_valid_filename new); simpl.
  - destruct (bool_decide _); by apply IH.
  - apply IH. unfold no_plan_shown, log_output. simpl.
    apply Forall_app. split; [done|]. by constructor.
Qed.

Lemma collision_report_no_plan m :
  Forall (fun l => shows_plan l = false) (collision_report m).
Proof.
  unfold collision_report. apply Forall_flat_map, Forall_forall.
  intros [k v] _. simpl. constructor; [done|].
  apply Forall_app. split; [|by constructor].
  apply Forall_fmap, Forall_forall. by intros.
Qed.

Lemma finish_preview_end w g0 g :
  same_entries g0 g ->
  planned_by w g0 (current_changes g) ->
  no_plan_shown g ->
  preview_end w g0 (finish_preview g).
Proof.
  intros Hs Hp Hout. unfold finish_preview.
  destruct (decide (current_changes g = [])) as [E|E].
  - rewrite bool_decide_eq_true_2 by done.
    apply plan_refused; simpl; [done|done|].
    apply Forall_app. split; [done|]. by repeat constructor.
  - rewrite bool_decide_eq_false_2 by done. simpl.
    destruct (decide (detect_collisions (current_changes g) = ∅)) as [Ec|Ec].
    + rewrite bool_decide_eq_true_2 by done. simpl.
      by apply plan_shown.
    + rewrite bool_decide_eq_false_2 by done. simpl.
      apply plan_refused; simpl; [done|done|].
      apply Forall_app. split; [done|].
      repeat constructor. apply Forall_app. split; [|by repeat constructor].
      apply collision_report_no_plan.
Qed.

Lemma preview_changes_entries w g : same_entries g (preview_changes w g).
Proof.
  unfold preview_changes.
  destruct (_ || _); [done|].
  destruct (assoc _ _) as [info|]; [|done].
  destruct (collect_files _ _ _) as [files|]; [|done].
  destruct (bool_decide (files = [])); [done|].
  set (g1 := log_output _ _).
  assert (Hfin : forall g2, same_entries g g2 ->
            same_entries g (finish_preview g2)).
  { intros g2 Hg2. unfold finish_preview.
    repeat (destruct (bool_decide _); simpl); done. }
  destruct (build_rule _ _) as [mode|pattern replacement].
  - by apply Hfin.
  - simpl. destruct (re_compile pattern); simpl; [|done].
    pose proof (apply_regex_loop_gui files pattern replacement 0%Z [] g1) as Hg.
    unfold apply_regex.
    destruct (apply_regex_loop _ _ _ _ _ _) as [g2 [changes|]]; simpl in *.
    + assert (same_entries g g2) as Hg2.
      { destruct Hg as (?&?&?&?&_). by repeat split. }
      destruct (_ && _); [done|]. by apply Hfin.
    + destruct Hg as (?&?&?&?&_). by repeat split.
Qed.

Lemma preview_changes_end w g : preview_end w g (preview_changes w g).
Proof.
  unfold preview_changes.
  destruct (_ || _); [by apply left_early; auto; constructor|].
  destruct (assoc _ _) as [info|] eqn:Ea;
    [|by apply left_early; auto; constructor].
  destruct (collect_files _ _ _) as [files|] eqn:Ef;
    [|by apply left_early; auto; constructor].
  destruct (bool_decide (files = []));
    [by apply left_early; auto; repeat constructor|].
  set (g1 := log_output _ _).
  assert (Hout1 : no_plan_shown g1) by (by repeat constructor).
  change (build_rule (clear_output g) info) with (build_rule g info).
  destruct (build_rule g info) as [mode|pattern replacement] eqn:Er.
  - apply finish_preview_end; [done| |done].
    exists files, info. by rewrite Er.
  - simpl. destruct (re_compile pattern); simpl;
      [|by apply left_early; auto].
    pose proof (apply_regex_loop_gui files pattern replacement 0%Z [] g1) as Hg.
    pose proof (apply_regex_loop_output files pattern replacement 0%Z [] g1
                  Hout1) as Ho.
    assert (Hpl : forall plan,
              (apply_regex files pattern replacement 0 g1).2 = Some plan ->
              planned_by w g plan).
    { intros plan Hplan. exists files, info. rewrite Er. eauto. }
    unfold apply_regex in *.
    destruct (apply_regex_loop _ _ _ _ _ _) as [g2 [changes|]]; simpl in *.
    + destruct Hg as (?&?&?&?&?&?&?&?&?).
      destruct (_ && _).
      * apply plan_refused; simpl; [by apply Hpl|done|].
        apply Forall_app. split; [done|]. by repeat constructor.
      * apply finish_preview_end; [by repeat split|by apply Hpl|done].
    + destruct Hg as (?&?&?&?&?&?&?&?&?). by apply left_early; auto.
Qed.
End preview.


Section executor.
Context {world : Type} `{OS world}.

Lemma same_plan_refl g : same_plan g g.
Proof. by repeat split. Qed.

Lemma same_plan_trans g1 g2 g3 :
  same_plan g1 g2 -> same_plan g2 g3 -> same_plan g1 g3.
Proof.
  intros ((?&?&?&?)&?&?&?&?) ((?&?&?&?)&?&?&?&?).
  repeat split; congruence.
Qed.

Lemma succeeded_app cs1 cs2 oks1 oks2 :
  length oks1 = length cs1 ->
  succeeded (cs1 ++ cs2) (oks1 ++ oks2)
  = succeeded cs1 oks1 ++ succeeded cs2 oks2.
Proof.
  revert oks1. induction cs1 as [|c cs1 IH]; intros [|ok oks1] Hlen;
    simpl in *; try done.
  destruct ok; simpl; rewrite IH by lia; done.
Qed.

Lemma count_app b oks1 oks2 :
  count b (oks1 ++ oks2) = count b oks1 + count b oks2.
Proof. unfold count. by rewrite filter_app, length_app. Qed.

Lemma loop_done_app cs1 cs2 (r r1 r2 : @run world) oks1 oks2 :
  loop_done cs1 r r1 oks1 -> loop_done cs2 r1 r2 oks2 ->
  loop_done (cs1 ++ cs2) r r2 (oks1 ++ oks2).
Proof.
  intros [L1 C1 O1 (a1 & G1 & N1) S1 F1 P1] [L2 C2 O2 (a2 & G2 & N2) S2 F2 P2].
  split.
  - rewrite !length_app. lia.
  - rewrite C2, C1, <- app_assoc, zip_with_app by done. done.
  - rewrite O2, O1, <- app_assoc, zip_with_app by done. done.
  - exists (a1 ++ a2). rewrite G2, G1, <- app_assoc. split; [done|].
    rewrite fmap_app, N1, N2, succeeded_app, fmap_app by done. done.
  - rewrite S2, S1, count_app. lia.
  - rewrite F2, F1, count_app. lia.
  - by eapply same_plan_trans.
Qed.

Lemma rename_one_done (c : change) (r : @run world) :
  exists ok, loop_done [c] r (rename_one r c) [ok].
Proof.
  destruct c as [[full_path old] new]. unfold rename_one.
  destruct (os_rename _ _ _) as [w'|].
  - exists true. split; simpl; try done.
    + by eexists.
    + unfold count. simpl. lia.
  - exists false. split; simpl; try done.
    + exists []. by rewrite app_nil_r.
    + unfold count. simpl. lia.
Qed.

Lemma rename_loop_done (changes : list change) (r : @run world) :
  exists oks, loop_done changes r (foldl rename_one r changes) oks.
Proof.
  revert r. induction changes as [|c changes IH]; intros r.
  - exists []. split; simpl; rewrite ?app_nil_r, ?Nat.add_0_r; try done.
    exists []. by rewrite app_nil_r.
  - destruct (rename_one_done c r) as [ok H1].
    destruct (IH (rename_one r c)) as [oks H2].
    exists ([ok] ++ oks). change (c :: changes) with ([c] ++ changes).
    by eapply loop_done_app.
Qed.


Lemma renames_attempts (changes : list change) (oks : list bool) :
  renames (zip_with attempt_call changes oks)
  = zip_with (fun c ok => (full_path_of c, target_path c, ok)) changes oks.
Proof.
  revert oks. induction changes as [|c changes IH]; intros [|ok oks];
    try done.
  cbn [zip_with]. change (renames (?a :: ?l)) with (renames [a] ++ renames l).
  rewrite IH. done.
Qed.

Lemma log_writes_attempts (changes : list change) (oks : list bool) :
  log_writes (zip_with attempt_call changes oks) = [].
Proof.
  revert oks. induction changes as [|c changes IH]; intros [|ok oks];
    try done.
  cbn [zip_with].
  change (log_writes (?a :: ?l)) with (log_writes [a] ++ log_writes l).
  rewrite IH. done.
Qed.

Lemma renames_app (a b : list os_call) :
  renames (a ++ b) = renames a ++ renames b.
Proof. unfold renames. apply flat_map_app. Qed.

Lemma log_writes_app (a b : list os_call) :
  log_writes (a ++ b) = log_writes a ++ log_writes b.
Proof. unfold log_writes. apply flat_map_app. Qed.
End executor.


Ltac name_clash :=
  match goal with
  | H1 : ?x = list_ascii_of_string _, H2 : ?x = list_ascii_of_string _ |- _ =>
      rewrite H1 in H2; vm_compute in H2; discriminate H2
  end.

Lemma build_rule_case (g : gui) (info : option str) :
  match case_preset (pattern_var g) with
  | Some mode => build_rule g info = Transform mode
  | None => exists pattern replacement,
              build_rule g info = Substitute pattern replacement
  end.
Proof.
  unfold case_preset, build_rule.
  repeat match goal with
         | |- context [decide (pattern_var g = ?x)] =>
             destruct (decide (pattern_var g = x)); try name_clash
         end; eauto.
Qed.

Lemma build_rule_remove_text (g : gui) (info : option str) :
  pattern_var g = "Remove Text" ->
  build_rule g info = Substitute (re_escape (strip (replacement_var g))) [].
Proof. intros E. unfold build_rule. by rewrite decide_True. Qed.

Lemma build_rule_replace_text (g : gui) (info : option str) :
  pattern_var g = "Replace Text" ->
  build_rule g info = Substitute (re_escape (strip (replacement_var g)))
                                 (strip (replace_with_var g)).
Proof.
  intros E. unfold build_rule.
  destruct (decide (pattern_var g = "Remove Text")); [name_clash|].
  by rewrite decide_True.
Qed.

Section window.
Context `{Re} {world : Type} `{OS world}.

Lemma invalidated_inv g :
  current_changes g = [] -> rename_button g = disabled -> window_inv g.
Proof. intros Hc Hb. split; [by intros ?; congruence|by left]. Qed.

Lemma preview_changes_inv w g :
  window_inv g -> window_inv (preview_changes w g).
Proof.
  intros [Hsafe Hplan].
  pose proof (preview_changes_entries w g) as Hent.
  destruct (preview_changes_end w g) as [Hc Hk Hb Ho|Hp Hb Ho|Hp Hne Hk He Hb].
  - split.
    + intros Hn. rewrite Hc, Hk. apply Hsafe.
      destruct Hb as [<-|Hb]; [done|congruence].
    + destruct Hplan as [E|[w0 Hw0]]; [left; congruence|].
      right. exists w0. rewrite Hc. by eapply planned_by_entries.
  - split; [intros ?; congruence|].
    right. exists w. by eapply planned_by_entries.
  - split.
    + intros _. split; [done|]. split; [done|congruence].
    + right. exists w. by eapply planned_by_entries.
Qed.

Lemma rename_files_inv confirm w g :
  window_inv g -> window_inv (rename_files confirm w g).1.2.
Proof.
  intros [Hsafe Hplan]. unfold rename_files.
  destruct (bool_decide (current_changes g = [])); [done|].
  destruct (negb _); [done|].
  destruct confirm; [|done].
  by apply invalidated_inv.
Qed.

Lemma on_pattern_selected_inv g : window_inv (on_pattern_selected g).
Proof.
  unfold on_pattern_selected.
  destruct (_ || _); [by apply invalidated_inv|].
  destruct (bool_decide _); by apply invalidated_inv.
Qed.

Lemma step_inv e w g : window_inv g -> window_inv (step e w g).1.2.
Proof.
  intros Hinv. destruct e; simpl; try (by apply invalidated_inv).
  - by apply preview_changes_inv.
  - destruct (rename_button g); [by apply rename_files_inv|done].
  - done.
  - apply on_pattern_selected_inv.
  - done.
Qed.

Lemma reachable_inv w g : reachable w g -> window_inv g.
Proof.
  induction 1 as [w|e w g _ IH].
  - by apply invalidated_inv.
  - by apply step_inv.
Qed.

Lemma reachable_run_events es w g :
  reachable w g ->
  reachable (run_events es w g).1.1 (run_events es w g).1.2.
Proof.
  revert w g. induction es as [|e es IH]; intros w g Hr; simpl; [done|].
  pose proof (reachable_step e w g Hr) as Hs.
  destruct (step e w g) as [[w1 g1] c1]. simpl in Hs.
  specialize (IH w1 g1 Hs).
  destruct (run_events es w1 g1) as [[w2 g2] c2]. done.
Qed.
End window.


Section executor_claims.
Context {world : Type} `{OS world}.

Lemma summarize_later (r : @run world) : later r (summarize r) [].
Proof.
  unfold later, summarize. simpl. rewrite app_nil_r.
  destruct (fail_count r =? 0); simpl; repeat split; by eexists.
Qed.

Lemma save_rollback_log_later (dir_path : str) (r : @run world) :
  exists log_file ok,
    later r (save_rollback_log dir_path r)
      [WriteJson log_file (rename_log (run_gui r)) ok] /\
    ((forall w p l, is_Some (write_json w p l)) -> ok = true).
Proof.
  unfold save_rollback_log.
  destruct (write_json _ _ _) as [w'|] eqn:Ew.
  - eexists _, true. split; [|done].
    unfold later. simpl. repeat split. by eexists.
  - eexists _, false. split.
    + unfold later. simpl. repeat split. by eexists.
    + intros Hall. specialize (Hall (run_world r)
        (join dir_path
           (".rename_log_" ++ now_strftime (run_world r) ++ ".json"))
        (rename_log (run_gui r))).
      rewrite Ew in Hall. by destruct Hall.
Qed.

Lemma execute_executed (w : world) (g : gui) :
  exists oks, executed g (execute w g) oks.
Proof.
  unfold execute, rename_all.
  set (g1 := log_lines _ (clear_output g)).
  destruct (rename_loop_done (current_changes g1) (Run w g1 0 0 [] []))
    as [oks [Hlen Hcalls Hlines (added & Hlog & Hnames) Hs Hf Hp]].
  set (r1 := foldl rename_one _ _) in *.
  change (current_changes g1) with (current_changes g) in *.
  simpl in Hcalls, Hlines, Hlog, Hs, Hf.
  assert (Hp1 : same_plan g (run_gui r1)).
  { eapply same_plan_trans; [|exact Hp]. by repeat split. }
  destruct (summarize_later r1) as (Sc & Ss & Sf & Sl & (rest1 & So) & Sp).
  rewrite app_nil_r in Sc.
  exists oks. rewrite Ss, Hs. cbn [Nat.add].
  destruct (Nat.ltb_spec 0 (count true oks)) as [Hpos|Hzero].
  - destruct (save_rollback_log_later (run_dir_path (summarize r1))
                (summarize r1))
      as (log_file & ok & (Wc & Ws & Wf & Wl & (rest2 & Wo) & Wp) & Hok).
    split.
    + done.
    + rewrite Wc, Sc, Hcalls, renames_app, renames_attempts.
      apply app_nil_r.
    + by rewrite Ws, Ss.
    + by rewrite Wf, Sf.
    + exists (rest1 ++ rest2).
      by rewrite Wo, So, Hlines, <- !app_assoc.
    + exists added. by rewrite Wl, Sl.
    + lia.
    + intros _. exists log_file, ok. split; [|done].
      by rewrite Wc, Sc, Hcalls, log_writes_app, log_writes_attempts, Wl.
    + eapply same_plan_trans; [|exact Wp].
      eapply same_plan_trans; [exact Hp1|exact Sp].
  - split.
    + done.
    + by rewrite Sc, Hcalls, renames_attempts.
    + by rewrite Ss.
    + by rewrite Sf.
    + exists rest1. by rewrite So, Hlines.
    + exists added. by rewrite Sl.
    + intros _. by rewrite Sc, Hcalls, log_writes_attempts.
    + lia.
    + eapply same_plan_trans; [exact Hp1|exact Sp].
Qed.
End executor_claims.


Section claims.
Context `{Re} {world : Type} `{OS world}.

Lemma rename_files_confirmed (w : world) (g : gui) :
  current_changes g ≠ [] -> current_collisions g = ∅ ->
  let r := execute w (asked g) in
  (rename_files true w g).1.1 = run_world r /\
  (rename_files true w g).2 = run_calls r /\
  rename_log (rename_files true w g).1.2 = rename_log (run_gui r) /\
  current_changes (rename_files true w g).1.2 = [] /\
  current_collisions (rename_files true w g).1.2 = ∅ /\
  rename_button (rename_files true w g).1.2 = disabled.
Proof.
  intros Hc Hk. unfold rename_files.
  rewrite bool_decide_eq_false_2 by done.
  rewrite bool_decide_eq_true_2 by done. simpl. done.
Qed.




Lemma step_without_plan (e : event) (w : world) (g : gui) :
  e ≠ ClickPreview -> current_changes g = [] ->
  (step e w g).2 = [] /\ current_changes (step e w g).1.2 = [].
Proof.
  intros He Hc. destruct e; simpl; try done.
  - destruct (rename_button g); [|done].
    unfold rename_files. rewrite bool_decide_eq_true_2 by done. done.
  - unfold on_pattern_selected. simpl.
    destruct (_ || _); [done|]. by destruct (bool_decide _).
Qed.

Lemma run_without_plan (es : list event) (w : world) (g : gui) :
  ClickPreview ∉ es -> current_changes g = [] ->
  (run_events es w g).2 = [].
Proof.
  revert w g. induction es as [|e es IH]; intros w g Hes Hc; simpl; [done|].
  apply not_elem_of_cons in Hes as [He Hes].
  destruct (step_without_plan e w g) as [Hcalls Hc']; [done..|].
  destruct (step e w g) as [[w1 g1] c1]. simpl in *. subst c1.
  specialize (IH w1 g1 Hes Hc').
  destruct (run_events es w1 g1) as [[w2 g2] c2]. simpl in *. by subst.
Qed.

(** C10.  When an executed plan is through, the stored plan and the
    stored collisions are empty and the rename button is disabled; and
    whatever happens to the window afterwards, no call to the operating
    system is made until a preview is asked for again. *)
Theorem executed_plan_is_dropped (w : world) (g : gui) :
  current_changes g ≠ [] -> current_collisions g = ∅ ->
  let g' := (rename_files true w g).1.2 in
  current_changes g' = [] /\
  current_collisions g' = ∅ /\
  rename_button g' = disabled /\
  forall (es : list event) (w' : world),
    ClickPreview ∉ es -> (run_events es w' g').2 = [].
Proof.
  intros Hc Hk.
  destruct (rename_files_confirmed w g Hc Hk) as (_ & _ & _ & H1 & H2 & H3).
  simpl. repeat split; try done.
  intros es w' Hes. by apply run_without_plan.
Qed.



Lemma re_search_escape (t s : str) :
  re_search (re_escape t) s 0 = Some (str_in t s).
Proof.
  unfold re_search. rewrite decide_True by done.
  rewrite parse_escape. apply sre_search_escape.
Qed.

Lemma re_sub_escape (t repl s : str) :
  re_sub (re_escape t) repl s 0 = sre_sub (re_escape t) repl s.
Proof.
  unfold re_sub. rewrite decide_True by done. by rewrite parse_escape.
Qed.

(** Under a preset that substitutes, every stored change comes from the
    engine and has passed the checks of [apply_regex]. *)
Lemma stored_substitution (w : world) (g : gui) (pattern replacement : str) :
  reachable w g ->
  (forall info, build_rule g info = Substitute pattern replacement) ->
  forall c, c ∈ current_changes g ->
    old_name_of c = basename (full_path_of c) /\
    re_search pattern (old_name_of c) 0 = Some true /\
    re_sub pattern replacement (old_name_of c) 0 = Some (new_name_of c) /\
    new_name_of c ≠ old_name_of c /\
    legal_name (new_name_of c).
Proof.
  intros Hr Hrule c Hc. destruct (reachable_inv w g Hr) as [_ Hplan].
  destruct Hplan as [E|(w0 & files & info & _ & _ & Hp)].
  { rewrite E in Hc. by apply elem_of_nil in Hc. }
  rewrite Hrule in Hp. destruct Hp as [g0 Hp].
  apply apply_regex_loop_sound in Hp as (added & Hadd & Hall).
  simpl in Hadd. rewrite Hadd in Hc.
  rewrite Forall_forall in Hall. destruct (Hall c Hc) as (_&?&?&?&?&?).
  done.
Qed.

(** C8.  The pattern built from the text to find matches that text
    literally: a search with the escaped text succeeds exactly on the
    strings that contain the text.  In every state the window reaches
    under Remove Text, each planned old name contains the stripped text
    and the new name is the old one with the occurrences of the text
    removed; under Replace Text the new name is the old one with the
    occurrences replaced by what the replacement template stands for,
    which is the stripped replacement itself when it has no backslash. *)
Theorem escaped_text_is_literal (w : world) (g : gui) :
  reachable w g ->
  let t := strip (replacement_var g) in
  let r := strip (replace_with_var g) in
  (forall text s, re_search (re_escape text) s 0 = Some (str_in text s)) /\
  (pattern_var g = "Remove Text" ->
   forall c, c ∈ current_changes g ->
     str_in t (old_name_of c) = true /\
     new_name_of c = str_replace t [] (old_name_of c)) /\
  (pattern_var g = "Replace Text" ->
   forall c, c ∈ current_changes g ->
     str_in t (old_name_of c) = true /\
     exists tpl,
       Sre.parse_template (S (length r)) 0 r = Some tpl /\
       new_name_of c = str_replace t (Sre.expand tpl t []) (old_name_of c) /\
       (Sre.backslash ∉ r -> Sre.expand tpl t [] = r)).
Proof.
  intros Hr. simpl. split; [apply re_search_escape|]. split.
  - intros Hpat c Hc.
    destruct (stored_substitution w g _ _ Hr
                (fun info => build_rule_remove_text g info Hpat) c Hc)
      as (_ & Hs & Hsub & _).
    rewrite re_search_escape in Hs.
    rewrite re_sub_escape, sre_sub_escape_plain in Hsub
      by (by intros ?%elem_of_nil).
    split; congruence.
  - intros Hpat c Hc.
    destruct (stored_substitution w g _ _ Hr
                (fun info => build_rule_replace_text g info Hpat) c Hc)
      as (_ & Hs & Hsub & _).
    rewrite re_search_escape in Hs. split; [congruence|].
    rewrite re_sub_escape, sre_sub_escape in Hsub.
    destruct (Sre.parse_template _ 0 (strip (replace_with_var g)))
      as [tpl|] eqn:Et; [|done].
    exists tpl. simpl in Hsub. split; [done|]. split; [congruence|].
    intros Hb. rewrite parse_template_plain in Et by (done || lia).
    injection Et as <-. apply expand_plain.
Qed.

(** Under the presets that substitute, every stored new name is legal. *)
Lemma substitution_presets_are_checked (w : world) (g : gui) :
  reachable w g -> case_preset (pattern_var g) = None ->
  forall c, c ∈ current_changes g -> legal_name (new_name_of c).
Proof.
  intros Hr Hcase c Hc. destruct (reachable_inv w g Hr) as [_ Hplan].
  destruct Hplan as [E|(w0 & files & info & _ & _ & Hp)].
  { rewrite E in Hc. by apply elem_of_nil in Hc. }
  pose proof (build_rule_case g info) as Hrule. rewrite Hcase in Hrule.
  destruct Hrule as (pattern & replacement & Hrule).
  rewrite Hrule in Hp. destruct Hp as [g0 Hp].
  apply apply_regex_loop_sound in Hp as (added & Hadd & Hall).
  simpl in Hadd. rewrite Hadd in Hc.
  rewrite Forall_forall in Hall. by destruct (Hall c Hc) as (_&_&_&_&_&?).
Qed.

(** C9, as the code has it.  In every state the window reaches under a
    case conversion preset, each planned change renames the base name of
    its file to the converted stem followed by the extension as it was,
    where stem and extension are the two parts [os.path.splitext] cuts
    the name into: the extension starts at the last dot when a character
    other than a dot stands before that dot, and is empty otherwise. *)
Theorem case_conversion_keeps_extension (w : world) (g : gui)
    (mode : transform_mode) :
  reachable w g -> case_preset (pattern_var g) = Some mode ->
  forall c, c ∈ current_changes g ->
    let name := old_name_of c in
    name = basename (full_path_of c) /\
    new_name_of c
    = transform_stem mode (splitext name).1 ++ (splitext name).2 /\
    (splitext name).1 ++ (splitext name).2 = name /\
    ((exists i, rfind extsep name = Z.of_nat i /\ stem_before i name /\
                splitext name = split_last_dot name) \/
     ((rfind extsep name = (-1)%Z \/
       exists i, rfind extsep name = Z.of_nat i /\ ~ stem_before i name) /\
      splitext name = (name, []))).
Proof.
  intros Hr Hcase c Hc. destruct (reachable_inv w g Hr) as [_ Hplan].
  destruct Hplan as [E|(w0 & files & info & _ & _ & Hp)].
  { rewrite E in Hc. by apply elem_of_nil in Hc. }
  pose proof (build_rule_case g info) as Hrule. rewrite Hcase in Hrule.
  rewrite Hrule in Hp.
  pose proof (case_changes_sound mode files) as Hall.
  rewrite <- Hp, Forall_forall in Hall.
  destruct (Hall c Hc) as (Hold & Hnew & _).
  simpl. split; [done|]. split; [done|]. split; [apply splitext_app|].
  apply splitext_basename. rewrite Hold. apply basename_no_sep.
Qed.
End claims.


(* ===================================================================== *)
(** * Repeats of one-character items *)
(* ===================================================================== *)

(** The repeat of a set on a string that is not empty: one more character
    of the set and the repeat again, or the rest of the pattern, in the
    order of the repeat. *)
Lemma star_set_cons {A} (greedy neg : bool) (items : list Sre.set_item)
    (x : ascii) (s : str) (pos : nat) (cs : Sre.captures)
    (k : nat -> str -> Sre.captures -> option A) :
  Sre.match_re (Sre.Star greedy (Sre.InSet neg items)) pos (x :: s) cs k =
    let more :=
      if Sre.in_set neg items x
      then Sre.match_re (Sre.Star greedy (Sre.InSet neg items)) (S pos) s cs k
      else None in
    if greedy then Sre.orelse more (k pos (x :: s) cs)
    else Sre.orelse (k pos (x :: s) cs) more.
Proof.
  cbn [Sre.match_re length].
  destruct (Sre.in_set neg items x); [|done].
  replace (pos <? S pos) with true by (symmetry; apply Nat.ltb_lt; lia).
  done.
Qed.

Lemma star_set_nil {A} (greedy neg : bool) (items : list Sre.set_item)
    (pos : nat) (cs : Sre.captures)
    (k : nat -> str -> Sre.captures -> option A) :
  Sre.match_re (Sre.Star greedy (Sre.InSet neg items)) pos [] cs k
  = k pos [] cs.
Proof. cbn. destruct greedy; by destruct (k pos [] cs). Qed.

Lemma star_any_cons {A} (greedy : bool) (x : ascii) (s : str) (pos : nat)
    (cs : Sre.captures) (k : nat -> str -> Sre.captures -> option A) :
  Sre.match_re (Sre.Star greedy Sre.AnyChar) pos (x :: s) cs k =
    let more :=
      if decide (x = Sre.newline) then None
      else Sre.match_re (Sre.Star greedy Sre.AnyChar) (S pos) s cs k in
    if greedy then Sre.orelse more (k pos (x :: s) cs)
    else Sre.orelse (k pos (x :: s) cs) more.
Proof.
  cbn [Sre.match_re length].
  destruct (decide (x = Sre.newline)); [done|].
  replace (pos <? S pos) with true by (symmetry; apply Nat.ltb_lt; lia).
  done.
Qed.

Lemma star_any_nil {A} (greedy : bool) (pos : nat) (cs : Sre.captures)
    (k : nat -> str -> Sre.captures -> option A) :
  Sre.match_re (Sre.Star greedy Sre.AnyChar) pos [] cs k = k pos [] cs.
Proof. cbn. destruct greedy; by destruct (k pos [] cs). Qed.

(** A greedy repeat of a set goes to the end of the run when the rest of
    the pattern matches there. *)
Lemma star_set_max {A} (neg : bool) (items : list Sre.set_item) (s : str)
    (pos : nat) (cs : Sre.captures)
    (k : nat -> str -> Sre.captures -> option A) (v : A) :
  let n := run_length (Sre.in_set neg items) s in
  k (pos + n) (drop n s) cs = Some v ->
  Sre.match_re (Sre.Star true (Sre.InSet neg items)) pos s cs k = Some v.
Proof.
  revert pos. induction s as [|x s IH]; intros pos; cbn zeta.
  - rewrite star_set_nil. simpl. by rewrite Nat.add_0_r.
  - rewrite star_set_cons. cbn [run_length]. cbn zeta.
    destruct (Sre.in_set neg items x).
    + intros Hk. rewrite (IH (S pos)); [done|].
      cbn zeta. by replace (S pos + run_length (Sre.in_set neg items) s)
        with (pos + S (run_length (Sre.in_set neg items) s)) by lia.
    + simpl. by rewrite Nat.add_0_r.
Qed.

Lemma match_at_one_or_more (neg : bool) (items : list Sre.set_item) (s : str)
    (pos : nat) (must_advance : bool) :
  Sre.match_at (one_or_more neg items) pos s must_advance =
    match run_length (Sre.in_set neg items) s with
    | 0 => None
    | S n => Some (pos + S n, [])
    end.
Proof.
  unfold Sre.match_at, one_or_more. cbn [Sre.match_re].
  destruct s as [|x s]; [done|]. cbn [run_length].
  destruct (Sre.in_set neg items x); [|done].
  apply star_set_max. cbn zeta. cbn [Sre.match_re].
  replace (S pos + run_length (Sre.in_set neg items) s =? pos) with false
    by (symmetry; apply Nat.eqb_neq; lia).
  rewrite andb_false_r. do 2 f_equal. lia.
Qed.

Lemma match_at_one_of (neg : bool) (items : list Sre.set_item) (s : str)
    (pos : nat) (must_advance : bool) :
  Sre.match_at (one_of neg items) pos s must_advance =
    match s with
    | c :: _ => if Sre.in_set neg items c then Some (S pos, []) else None
    | [] => None
    end.
Proof.
  unfold Sre.match_at, one_of. cbn [Sre.match_re].
  destruct s as [|x s]; [done|].
  destruct (Sre.in_set neg items x); [|done].
  replace (S pos =? pos) with false by (symmetry; apply Nat.eqb_neq; lia).
  by rewrite andb_false_r.
Qed.

(** A search for [[...]+] succeeds exactly when a character of the string
    is in the set. *)
Lemma search_one_or_more (neg : bool) (items : list Sre.set_item) (s : str)
    (pos : nat) :
  bool_decide (is_Some (Sre.search_from (one_or_more neg items) pos s))
  = existsb (Sre.in_set neg items) s.
Proof.
  revert pos. induction s as [|c s IH]; intros pos;
    cbn [Sre.search_from]; rewrite match_at_one_or_more; cbn [run_length existsb].
  - apply bool_decide_eq_false_2. by intros [? ?].
  - destruct (Sre.in_set neg items c); cbn [orb]; [|apply IH].
    apply bool_decide_eq_true_2. by eexists.
Qed.

Lemma search_one_of (neg : bool) (items : list Sre.set_item) (s : str)
    (pos : nat) :
  bool_decide (is_Some (Sre.search_from (one_of neg items) pos s))
  = existsb (Sre.in_set neg items) s.
Proof.
  revert pos. induction s as [|c s IH]; intros pos;
    cbn [Sre.search_from]; rewrite match_at_one_of; cbn [existsb].
  - apply bool_decide_eq_false_2. by intros [? ?].
  - destruct (Sre.in_set neg items c); cbn [orb]; [|apply IH].
    apply bool_decide_eq_true_2. by eexists.
Qed.

(** A substitution for [[...]+] replaces each run of characters of the
    set; [skip] is what is left of the run being replaced. *)
Lemma sub_scan_one_or_more (neg : bool) (items : list Sre.set_item)
    (rep : str) (s : str) :
  let P := Sre.in_set neg items in
  let r := one_or_more neg items in
  let t := map (fun c => Sre.TLit [c]) rep in
  (forall pos, Sre.sub_scan r t pos (run_length P s) s = replace_runs P rep true s) /\
  (forall pos, Sre.sub_scan r t pos 0 s = replace_runs P rep false s).
Proof.
  cbn zeta. induction s as [|c s [IH1 IH2]].
  - split; intros pos; cbn [run_length Sre.sub_scan replace_runs];
      by rewrite match_at_one_or_more.
  - assert (H2 : forall pos,
              Sre.sub_scan (one_or_more neg items)
                (map (fun c => Sre.TLit [c]) rep) pos 0 (c :: s)
              = replace_runs (Sre.in_set neg items) rep false (c :: s)).
    { intros pos. cbn [Sre.sub_scan replace_runs].
      rewrite !match_at_one_or_more. cbn [run_length].
      destruct (Sre.in_set neg items c).
      - rewrite expand_plain.
        replace (pos + S (run_length (Sre.in_set neg items) s) - pos)
          with (S (run_length (Sre.in_set neg items) s)) by lia.
        cbn [Nat.eqb]. by rewrite IH1.
      - cbn [app]. by rewrite IH2. }
    split; [|exact H2]. intros pos. cbn [run_length].
    destruct (Sre.in_set neg items c) eqn:E.
    + cbn [Sre.sub_scan replace_runs]. rewrite E. cbn [app]. apply IH1.
    + rewrite H2. cbn [replace_runs]. by rewrite E.
Qed.

Lemma replace_runs_nil (P : ascii -> bool) (in_run : bool) (s : str) :
  replace_runs P [] in_run s = filter (fun c => P c = false) s.
Proof.
  revert in_run. induction s as [|c s IH]; intros in_run; [done|].
  cbn [replace_runs]. rewrite filter_cons.
  destruct (P c) eqn:E.
  - rewrite decide_False by done. destruct in_run; apply IH.
  - rewrite decide_True by done. by rewrite IH.
Qed.

(** A substitution of nothing for [[...]] deletes the characters of the
    set. *)
Lemma sub_scan_one_of (neg : bool) (items : list Sre.set_item) (s : str)
    (pos : nat) :
  Sre.sub_scan (one_of neg items) [] pos 0 s
  = filter (fun c => Sre.in_set neg items c = false) s.
Proof.
  revert pos. induction s as [|c s IH]; intros pos;
    cbn [Sre.sub_scan]; rewrite !match_at_one_of; [done|].
  rewrite filter_cons. destruct (Sre.in_set neg items c) eqn:E.
  - rewrite decide_False by done.
    replace (S pos - pos) with 1 by lia. cbn. apply IH.
  - rewrite decide_True by done. cbn. by rewrite IH.
Qed.

(* ===================================================================== *)
(** * The presets made of a set *)
(* ===================================================================== *)

Lemma existsb_eq {A} (P Q : A -> bool) (l : list A) :
  (forall x, P x = Q x) -> existsb P l = existsb Q l.
Proof. intros E. induction l as [|x l IH]; simpl; [done|]. by rewrite E, IH. Qed.

Lemma replace_runs_eq (P Q : ascii -> bool) (rep : str) (in_run : bool)
    (s : str) :
  (forall c, P c = Q c) ->
  replace_runs P rep in_run s = replace_runs Q rep in_run s.
Proof.
  intros E. revert in_run. induction s as [|c s IH]; intros in_run; [done|].
  simpl. by rewrite E, !IH.
Qed.

Lemma in_set_digit (c : ascii) :
  Sre.in_set false [Sre.SCat false Sre.CatDigit] c = is_digit c.
Proof. unfold Sre.in_set. simpl. by rewrite orb_false_r. Qed.

Lemma in_set_space (c : ascii) :
  Sre.in_set false [Sre.SCat false Sre.CatSpace] c = isspace c.
Proof. unfold Sre.in_set. simpl. by rewrite orb_false_r. Qed.

Lemma in_set_not_digit (c : ascii) :
  Sre.in_set true [Sre.SCat false Sre.CatDigit] c = negb (is_digit c).
Proof. unfold Sre.in_set. simpl. by rewrite orb_false_r. Qed.

Lemma in_set_not_kept (c : ascii) :
  Sre.in_set true
    [Sre.SRange "a" "z"; Sre.SRange "A" "Z"; Sre.SRange "0" "9";
     Sre.SChar "."; Sre.SChar "_"; Sre.SChar "-"; Sre.SCat false Sre.CatSpace] c
  = negb (kept_char c).
Proof.
  unfold Sre.in_set, kept_char. cbn [existsb Sre.item_matches xorb].
  cbn [Sre.in_category xorb]. rewrite orb_false_r. reflexivity.
Qed.

Lemma parse_digits :
  Sre.parse "\d+" = Some (one_or_more false [Sre.SCat false Sre.CatDigit], 0).
Proof. vm_compute. reflexivity. Qed.

Lemma parse_spaces :
  Sre.parse "\s+" = Some (one_or_more false [Sre.SCat false Sre.CatSpace], 0).
Proof. vm_compute. reflexivity. Qed.

Lemma parse_not_digit :
  Sre.parse "[^\d]" = Some (one_of true [Sre.SCat false Sre.CatDigit], 0).
Proof. vm_compute. reflexivity. Qed.

Lemma parse_not_kept :
  Sre.parse "[^a-zA-Z0-9._\-\s]"
  = Some (one_of true
            [Sre.SRange "a" "z"; Sre.SRange "A" "Z"; Sre.SRange "0" "9";
             Sre.SChar "."; Sre.SChar "_"; Sre.SChar "-";
             Sre.SCat false Sre.CatSpace], 0).
Proof. vm_compute. reflexivity. Qed.

(** The rule of a preset, read off the chain of tests of
    [preview_changes]. *)
Ltac preset_rule :=
  unfold build_rule;
  repeat (match goal with
          | |- context [decide (pattern_var ?g = ?x)] =>
              destruct (decide (pattern_var g = x))
          end; [first [name_clash | reflexivity]|]);
  try reflexivity.

Lemma build_rule_remove_numbers (g : gui) (info : option str) :
  pattern_var g = "Remove Numbers" ->
  build_rule g info = Substitute "\d+" [].
Proof. intros E. preset_rule. congruence. Qed.

Lemma build_rule_replace_spaces (g : gui) (info : option str) :
  pattern_var g = "Replace Spaces with Underscores" \/
  pattern_var g = "Replace Spaces with Hyphens" ->
  build_rule g info =
    Substitute "\s+"
      (if decide (pattern_var g = "Replace Spaces with Underscores")
       then "_" else "-").
Proof.
  intros [E|E].
  - rewrite decide_True by done. preset_rule. congruence.
  - rewrite decide_False by (intros E'; name_clash). preset_rule. congruence.
Qed.

Lemma build_rule_add_prefix (g : gui) (info : option str) :
  pattern_var g = "Add Prefix" ->
  build_rule g info
  = Substitute "^(.*)$" (strip (replacement_var g) ++ "\1").
Proof. intros E. preset_rule. congruence. Qed.

Lemma build_rule_add_suffix (g : gui) (info : option str) :
  pattern_var g = "Add Suffix Before Extension" ->
  build_rule g info
  = Substitute "^(.*?)(\.[\w]+)$"
      ("\1" ++ strip (replacement_var g) ++ "\2").
Proof. intros E. preset_rule. congruence. Qed.

(** The presets without a branch of their own take their pattern from
    [self.patterns] and replace by nothing. *)
Ltac preset_rule_from_patterns E Ha :=
  rewrite E in Ha; vm_compute in Ha; injection Ha as <-; preset_rule.

Lemma build_rule_remove_special (g : gui) (info : option str) :
  pattern_var g = "Remove Special Characters" ->
  assoc (pattern_var g) patterns = Some info ->
  build_rule g info = Substitute "[^a-zA-Z0-9._\-\s]" [].
Proof. intros E Ha. preset_rule_from_patterns E Ha. Qed.

Lemma build_rule_extract_numbers (g : gui) (info : option str) :
  pattern_var g = "Extract Numbers Only" ->
  assoc (pattern_var g) patterns = Some info ->
  build_rule g info = Substitute "[^\d]" [].
Proof. intros E Ha. preset_rule_from_patterns E Ha. Qed.

Lemma build_rule_remove_extra_spaces (g : gui) (info : option str) :
  pattern_var g = "Remove Extra Spaces" ->
  assoc (pattern_var g) patterns = Some info ->
  build_rule g info = Substitute "\s+" [].
Proof. intros E Ha. preset_rule_from_patterns E Ha. Qed.

Section set_presets.
Context `{Re}.

Lemma re_compile_parsed (pattern : str) (r : Sre.regex) (n : nat) :
  Sre.parse pattern = Some (r, n) -> re_compile pattern = true.
Proof. intros E. unfold re_compile. by rewrite E. Qed.

Lemma re_search_parsed (pattern : str) (r : Sre.regex) (n : nat) (s : str) :
  Sre.parse pattern = Some (r, n) ->
  re_search pattern s 0
  = Some (bool_decide (is_Some (Sre.search_from r 0 s))).
Proof.
  intros E. unfold re_search, sre_search. rewrite decide_True by done.
  by rewrite E.
Qed.

Lemma re_sub_parsed (pattern : str) (r : Sre.regex) (n : nat)
    (repl s : str) :
  Sre.parse pattern = Some (r, n) ->
  re_sub pattern repl s 0
  = tpl ← Sre.parse_template (S (length repl)) n repl;
    Some (Sre.sub_scan r tpl 0 0 s).
Proof.
  intros E. unfold re_sub, sre_sub. rewrite decide_True by done.
  by rewrite E.
Qed.

Lemma re_sub_parsed_plain (pattern : str) (r : Sre.regex) (n : nat)
    (repl s : str) :
  Sre.parse pattern = Some (r, n) -> Sre.backslash ∉ repl ->
  re_sub pattern repl s 0
  = Some (Sre.sub_scan r (map (fun c => Sre.TLit [c]) repl) 0 0 s).
Proof.
  intros E Hr. rewrite (re_sub_parsed _ _ _ _ _ E).
  by rewrite parse_template_plain by (done || lia).
Qed.

(** The plan of [apply_regex] for a pattern and a replacement on which
    the engine computes [matches] and [subst]. *)
Lemma apply_regex_plan (files : list str) (pattern replacement : str)
    (matches : str -> bool) (subst : str -> str) (g0 : gui) :
  (forall name, re_search pattern name 0 = Some (matches name)) ->
  (forall name, re_sub pattern replacement name 0 = Some (subst name)) ->
  (apply_regex files pattern replacement 0 g0).2
  = Some (plan_of matches subst files).
Proof.
  intros Hs Hr. unfold apply_regex.
  rewrite (apply_regex_loop_spec _ _ _ _ matches subst); [done|by intros|by intros].
Qed.

Lemma not_backslash_nil : Sre.backslash ∉ ([] : str).
Proof. by intros ?%elem_of_nil. Qed.

(** X1.  Under Remove Numbers the rule has a pattern that compiles, and
    [apply_regex] plans, in the order of the files, exactly the files
    whose name has a digit and stays legal without its digits; the new
    name is the old one with every digit deleted. *)
Theorem remove_numbers_deletes_digits (g : gui) (info : option str)
    (files : list str) (g0 : gui) :
  pattern_var g = "Remove Numbers" ->
  build_rule g info = Substitute "\d+" [] /\
  re_compile "\d+" = true /\
  (apply_regex files "\d+" [] 0 g0).2
  = Some (plan_of (existsb is_digit)
            (filter (fun c => is_digit c = false)) files).
Proof.
  intros E. split; [by apply build_rule_remove_numbers|].
  split; [by eapply re_compile_parsed, parse_digits|].
  apply apply_regex_plan; intros name.
  - rewrite (re_search_parsed _ _ _ _ parse_digits), search_one_or_more.
    f_equal. apply existsb_eq, in_set_digit.
  - rewrite (re_sub_parsed_plain _ _ _ _ _ parse_digits) by apply not_backslash_nil.
    f_equal.
    destruct (sub_scan_one_or_more false [Sre.SCat false Sre.CatDigit] [] name)
      as [_ ->].
    rewrite replace_runs_nil. apply list_filter_iff. intros c.
    by rewrite in_set_digit.
Qed.

(** X2.  Under Replace Spaces with Underscores and Replace Spaces with
    Hyphens, [apply_regex] plans the files whose name has a white space
    character (a space, a tab and the like), and the new name is the old
    one with each run of white space replaced by one underscore or one
    hyphen. *)
Theorem replace_spaces_replaces_runs (g : gui) (info : option str)
    (files : list str) (g0 : gui) :
  pattern_var g = "Replace Spaces with Underscores" \/
  pattern_var g = "Replace Spaces with Hyphens" ->
  let mark : str :=
    if decide (pattern_var g = "Replace Spaces with Underscores")
    then "_" else "-" in
  build_rule g info = Substitute "\s+" mark /\
  re_compile "\s+" = true /\
  (apply_regex files "\s+" mark 0 g0).2
  = Some (plan_of (existsb isspace) (replace_runs isspace mark false) files).
Proof.
  intros E. cbn zeta. split; [by apply build_rule_replace_spaces|].
  split; [by eapply re_compile_parsed, parse_spaces|].
  apply apply_regex_plan; intros name.
  - rewrite (re_search_parsed _ _ _ _ parse_spaces), search_one_or_more.
    f_equal. apply existsb_eq, in_set_space.
  - rewrite (re_sub_parsed_plain _ _ _ _ _ parse_spaces).
    + f_equal.
      destruct (sub_scan_one_or_more false [Sre.SCat false Sre.CatSpace]
                  (if decide (pattern_var g = "Replace Spaces with Underscores")
                   then "_" else "-") name) as [_ ->].
      apply replace_runs_eq, in_set_space.
    + destruct (decide _); intros Hin;
        repeat (apply elem_of_cons in Hin as [Hin|Hin]; [discriminate|]);
        by apply elem_of_nil in Hin.
Qed.

(** X3.  Under Remove Extra Spaces the pattern comes from
    [self.patterns] and the replacement is empty: the new name is the old
    one with all its white space deleted; no single space is left where a
    run was. *)
Theorem remove_extra_spaces_deletes_white_space (g : gui) (info : option str)
    (files : list str) (g0 : gui) :
  pattern_var g = "Remove Extra Spaces" ->
  assoc (pattern_var g) patterns = Some info ->
  build_rule g info = Substitute "\s+" [] /\
  re_compile "\s+" = true /\
  (apply_regex files "\s+" [] 0 g0).2
  = Some (plan_of (existsb isspace)
            (filter (fun c => isspace c = false)) files).
Proof.
  intros E Ha. split; [by apply build_rule_remove_extra_spaces|].
  split; [by eapply re_compile_parsed, parse_spaces|].
  apply apply_regex_plan; intros name.
  - rewrite (re_search_parsed _ _ _ _ parse_spaces), search_one_or_more.
    f_equal. apply existsb_eq, in_set_space.
  - rewrite (re_sub_parsed_plain _ _ _ _ _ parse_spaces) by apply not_backslash_nil.
    f_equal.
    destruct (sub_scan_one_or_more false [Sre.SCat false Sre.CatSpace] [] name)
      as [_ ->].
    rewrite replace_runs_nil. apply list_filter_iff. intros c.
    by rewrite in_set_space.
Qed.

(** X5.  Under Extract Numbers Only the new name is made of the digits
    of the old one, in their order: every other character is deleted, the
    dot of the extension too. *)
Theorem extract_numbers_keeps_digits (g : gui) (info : option str)
    (files : list str) (g0 : gui) :
  pattern_var g = "Extract Numbers Only" ->
  assoc (pattern_var g) patterns = Some info ->
  build_rule g info = Substitute "[^\d]" [] /\
  re_compile "[^\d]" = true /\
  (apply_regex files "[^\d]" [] 0 g0).2
  = Some (plan_of (existsb (fun c => negb (is_digit c)))
            (filter (fun c => is_digit c = true)) files).
Proof.
  intros E Ha. split; [by apply build_rule_extract_numbers|].
  split; [by eapply re_compile_parsed, parse_not_digit|].
  apply apply_regex_plan; intros name.
  - rewrite (re_search_parsed _ _ _ _ parse_not_digit), search_one_of.
    f_equal. apply existsb_eq, in_set_not_digit.
  - rewrite (re_sub_parsed_plain _ _ _ _ _ parse_not_digit) by apply not_backslash_nil.
    f_equal. cbn [map]. rewrite sub_scan_one_of.
    apply list_filter_iff. intros c. rewrite in_set_not_digit.
    by destruct (is_digit c).
Qed.

(** X4.  Under Remove Special Characters the new name keeps the letters,
    the digits, the dots, the underscores, the hyphens and the white space
    of the old one, in their order, and nothing else; the files planned
    are those with another character in their name. *)
Theorem remove_special_keeps_plain_characters (g : gui) (info : option str)
    (files : list str) (g0 : gui) :
  pattern_var g = "Remove Special Characters" ->
  assoc (pattern_var g) patterns = Some info ->
  build_rule g info = Substitute "[^a-zA-Z0-9._\-\s]" [] /\
  re_compile "[^a-zA-Z0-9._\-\s]" = true /\
  (apply_regex files "[^a-zA-Z0-9._\-\s]" [] 0 g0).2
  = Some (plan_of (existsb (fun c => negb (kept_char c)))
            (filter (fun c => kept_char c = true)) files).
Proof.
  intros E Ha. split; [by apply build_rule_remove_special|].
  split; [by eapply re_compile_parsed, parse_not_kept|].
  apply apply_regex_plan; intros name.
  - rewrite (re_search_parsed _ _ _ _ parse_not_kept), search_one_of.
    f_equal. apply existsb_eq, in_set_not_kept.
  - rewrite (re_sub_parsed_plain _ _ _ _ _ parse_not_kept) by apply not_backslash_nil.
    f_equal. cbn [map]. rewrite sub_scan_one_of.
    apply list_filter_iff. intros c. rewrite in_set_not_kept.
    by destruct (kept_char c).
Qed.
End set_presets.

(* ===================================================================== *)
(** * The preset Add Prefix *)
(* ===================================================================== *)

Lemma orelse_none_r {A} (x : option A) : Sre.orelse x None = x.
Proof. by destruct x. Qed.

(** A greedy repeat of [.] on a string without a newline goes to the end
    of the string, when the rest of the pattern matches nowhere before. *)
Lemma star_any_last {A} (s : str) (pos : nat) (cs : Sre.captures)
    (k : nat -> str -> Sre.captures -> option A) :
  Sre.newline ∉ s ->
  (forall j, j < length s -> k (pos + j) (drop j s) cs = None) ->
  Sre.match_re (Sre.Star true Sre.AnyChar) pos s cs k
  = k (pos + length s) [] cs.
Proof.
  revert pos. induction s as [|x s IH]; intros pos Hnl Hk.
  - rewrite star_any_nil. simpl. by rewrite Nat.add_0_r.
  - apply not_elem_of_cons in Hnl as [Hx Hnl].
    rewrite star_any_cons. cbn zeta. rewrite decide_False by done.
    assert (H0 : k pos (x :: s) cs = None).
    { specialize (Hk 0). rewrite Nat.add_0_r in Hk. apply Hk. simpl. lia. }
    rewrite H0, orelse_none_r, IH; [|done|].
    + simpl. f_equal. lia.
    + intros j Hj. replace (S pos + j) with (pos + S j) by lia.
      apply (Hk (S j)). simpl. lia.
Qed.

(** The equations of the matcher. *)
Lemma match_cat {A} (r1 r2 : Sre.regex) (pos : nat) (s : str)
    (cs : Sre.captures) (k : nat -> str -> Sre.captures -> option A) :
  Sre.match_re (Sre.Cat r1 r2) pos s cs k
  = Sre.match_re r1 pos s cs
      (fun pos' s' cs' => Sre.match_re r2 pos' s' cs' k).
Proof. reflexivity. Qed.

Lemma match_group {A} (n : nat) (r : Sre.regex) (pos : nat) (s : str)
    (cs : Sre.captures) (k : nat -> str -> Sre.captures -> option A) :
  Sre.match_re (Sre.Group n r) pos s cs k
  = Sre.match_re r pos s cs
      (fun pos' s' cs' => k pos' s' ((n, take (pos' - pos) s) :: cs')).
Proof. reflexivity. Qed.

Lemma match_bol {A} (pos : nat) (s : str)
    (cs : Sre.captures) (k : nat -> str -> Sre.captures -> option A) :
  Sre.match_re Sre.Bol pos s cs k = if pos =? 0 then k pos s cs else None.
Proof. reflexivity. Qed.

(** A pattern that starts with [^] matches at the start only. *)
Lemma match_at_bol (r : Sre.regex) (pos : nat) (s : str) (b : bool) :
  0 < pos -> Sre.match_at (Sre.Cat Sre.Bol r) pos s b = None.
Proof.
  intros Hpos. unfold Sre.match_at. cbn [Sre.match_re].
  by replace (pos =? 0) with false by (symmetry; apply Nat.eqb_neq; lia).
Qed.

Lemma sub_scan_bol (r : Sre.regex) (t : list Sre.titem) (s : str)
    (pos skip : nat) :
  0 < pos -> Sre.sub_scan (Sre.Cat Sre.Bol r) t pos skip s = drop skip s.
Proof.
  revert pos skip. induction s as [|c s IH]; intros pos skip Hpos.
  - destruct skip; cbn [Sre.sub_scan]; [|done].
    by rewrite match_at_bol.
  - destruct skip as [|skip]; cbn [Sre.sub_scan].
    + rewrite match_at_bol by done. cbn. rewrite IH by lia. done.
    + rewrite IH by lia. done.
Qed.

Lemma at_end_no_newline (s : str) :
  Sre.newline ∉ s -> Sre.at_end s = bool_decide (s = []).
Proof.
  destruct s as [|c [|d s]]; try done.
  intros Hnl. apply not_elem_of_cons in Hnl as [Hc _]. simpl.
  by rewrite bool_decide_eq_false_2.
Qed.

Lemma not_elem_of_drop {A} (x : A) (l : list A) (n : nat) :
  x ∉ l -> x ∉ drop n l.
Proof.
  intros Hl Hd. apply Hl. rewrite <- (take_drop n l).
  apply elem_of_app. by right.
Qed.

Lemma parse_all_in_one_group :
  Sre.parse "^(.*)$" = Some (all_in_one_group, 1).
Proof. vm_compute. reflexivity. Qed.

(** On a string without a newline, the pattern of Add Prefix matches the
    whole string at the start, with the string as its group. *)
Lemma match_at_all (s : str) (must_advance : bool) :
  Sre.newline ∉ s ->
  Sre.match_at all_in_one_group 0 s must_advance =
    if must_advance && bool_decide (s = []) then None
    else Some (length s, [(1, s)]).
Proof.
  intros Hnl. unfold Sre.match_at, all_in_one_group.
  rewrite match_cat, match_bol. cbn [Nat.eqb].
  rewrite match_cat, match_group, match_cat.
  rewrite star_any_last; [| done |].
  - cbn [Sre.match_re Sre.at_end Nat.add]. rewrite Nat.sub_0_r, firstn_all.
    destruct s as [|c s]; [by destruct must_advance|].
    rewrite (bool_decide_eq_false_2 (c :: s = [])) by done.
    cbn [length Nat.eqb]. by rewrite andb_false_r.
  - intros j Hj. cbn [Sre.match_re Nat.add].
    rewrite at_end_no_newline by (by apply not_elem_of_drop).
    rewrite bool_decide_eq_false_2; [done|].
    intros E. apply (f_equal length) in E. rewrite length_drop in E.
    simpl in E. lia.
Qed.

(** A template made of a text without a backslash and what follows it. *)
Lemma parse_template_plain_app (p rest : str) (fuel groups : nat) :
  Sre.backslash ∉ p ->
  Sre.parse_template (length p + fuel) groups (p ++ rest)
  = tl ← Sre.parse_template fuel groups rest;
    Some (map (fun c => Sre.TLit [c]) p ++ tl).
Proof.
  induction p as [|c p IH]; intros Hp.
  - simpl. by destruct (Sre.parse_template fuel groups rest).
  - apply not_elem_of_cons in Hp as [Hc Hp].
    cbn [length Nat.add app Sre.parse_template].
    rewrite decide_False by done. rewrite IH by done.
    by destruct (Sre.parse_template fuel groups rest).
Qed.

Lemma expand_app (a b : list Sre.titem) (whole : str) (cs : Sre.captures) :
  Sre.expand (a ++ b) whole cs = Sre.expand a whole cs ++ Sre.expand b whole cs.
Proof. unfold Sre.expand. by rewrite map_app, concat_app. Qed.

Lemma sub_scan_skip_all (r : Sre.regex) (t : list Sre.titem) (s : str)
    (pos : nat) :
  Sre.sub_scan (Sre.Cat Sre.Bol r) t (S pos) (length s) s = [].
Proof. rewrite sub_scan_bol by lia. apply drop_all. Qed.

Section prefix_preset.
Context `{Re}.

Lemma apply_regex_plan_on (files : list str) (pattern replacement : str)
    (matches : str -> bool) (subst : str -> str) (g0 : gui) :
  (forall f, f ∈ files ->
     re_search pattern (basename f) 0 = Some (matches (basename f))) ->
  (forall f, f ∈ files -> matches (basename f) = true ->
     re_sub pattern replacement (basename f) 0 = Some (subst (basename f))) ->
  (apply_regex files pattern replacement 0 g0).2
  = Some (plan_of matches subst files).
Proof.
  intros Hs Hr. unfold apply_regex.
  by rewrite (apply_regex_loop_spec _ _ _ _ matches subst).
Qed.

Lemma search_all (s : str) :
  Sre.newline ∉ s ->
  bool_decide (is_Some (Sre.search_from all_in_one_group 0 s)) = true.
Proof.
  intros Hnl. apply bool_decide_eq_true_2.
  destruct s as [|c s]; cbn [Sre.search_from]; rewrite match_at_all by done;
    by eexists.
Qed.

Lemma sub_scan_all (p s : str) :
  Sre.newline ∉ s ->
  Sre.sub_scan all_in_one_group
    (map (fun c => Sre.TLit [c]) p ++ [Sre.TGroup 1]) 0 0 s
  = p ++ s.
Proof.
  intros Hnl. destruct s as [|c s]; cbn [Sre.sub_scan].
  - rewrite !match_at_all by done. cbn.
    by rewrite expand_app, expand_plain.
  - rewrite !match_at_all by done. cbn [andb length Nat.sub Nat.eqb].
    rewrite expand_app, expand_plain.
    unfold all_in_one_group. rewrite sub_scan_skip_all.
    unfold Sre.expand. cbn [map concat Sre.capture default].
    rewrite decide_True by done. cbn [default]. by rewrite !app_nil_r.
Qed.

(** X6.  Under Add Prefix, for a prefix without a backslash and files
    whose names have no newline, every file matches and its new name is
    the stripped prefix followed by the old name. *)
Theorem add_prefix_prepends (g : gui) (info : option str)
    (files : list str) (g0 : gui) :
  let prefix := strip (replacement_var g) in
  pattern_var g = "Add Prefix" ->
  Sre.backslash ∉ prefix ->
  Forall (fun f => Sre.newline ∉ basename f) files ->
  build_rule g info = Substitute "^(.*)$" (prefix ++ "\1") /\
  re_compile "^(.*)$" = true /\
  (apply_regex files "^(.*)$" (prefix ++ "\1") 0 g0).2
  = Some (plan_of (fun _ => true) (fun name => prefix ++ name) files).
Proof.
  cbn zeta. intros E Hp Hfiles. split; [by apply build_rule_add_prefix|].
  split; [by eapply re_compile_parsed, parse_all_in_one_group|].
  rewrite Forall_forall in Hfiles.
  apply apply_regex_plan_on; intros f Hf.
  - rewrite (re_search_parsed _ _ _ _ parse_all_in_one_group).
    by rewrite search_all by auto.
  - intros _. rewrite (re_sub_parsed _ _ _ _ _ parse_all_in_one_group).
    replace (S (length (strip (replacement_var g) ++ "\1")))
      with (length (strip (replacement_var g)) + 3)
      by (rewrite length_app; simpl; lia).
    rewrite parse_template_plain_app by done.
    change (Sre.parse_template 3 1 "\1") with (Some [Sre.TGroup 1]).
    cbn [mbind option_bind]. by rewrite sub_scan_all by auto.
Qed.
End prefix_preset.

(* ===================================================================== *)
(** * The preset Add Suffix Before Extension *)
(* ===================================================================== *)

Lemma parse_stem_and_extension :
  Sre.parse "^(.*?)(\.[\w]+)$" = Some (stem_and_extension, 2).
Proof. vm_compute. reflexivity. Qed.

Lemma in_set_word (c : ascii) : Sre.in_set false word_set c = is_word c.
Proof. unfold Sre.in_set, word_set. simpl. by rewrite orb_false_r. Qed.

Lemma forallb_eq {A} (P Q : A -> bool) (l : list A) :
  (forall x, P x = Q x) -> forallb P l = forallb Q l.
Proof. intros E. induction l as [|x l IH]; simpl; [done|]. by rewrite E, IH. Qed.

Lemma run_length_le (P : ascii -> bool) (s : str) : run_length P s <= length s.
Proof. induction s as [|c s IH]; simpl; [lia|]. destruct (P c); simpl; lia. Qed.

Lemma run_length_all (P : ascii -> bool) (s : str) :
  bool_decide (drop (run_length P s) s = []) = forallb P s.
Proof.
  induction s as [|c s IH]; [done|]. simpl.
  destruct (P c); simpl; done.
Qed.

Lemma run_length_eq (P Q : ascii -> bool) (s : str) :
  (forall c, P c = Q c) -> run_length P s = run_length Q s.
Proof. intros E. induction s as [|c s IH]; simpl; [done|]. by rewrite E, IH. Qed.

(** A greedy repeat of a set: the rest of the pattern at the end of the
    run, when it matches nowhere before. *)
Lemma star_set_last {A} (neg : bool) (items : list Sre.set_item) (s : str)
    (pos : nat) (cs : Sre.captures)
    (k : nat -> str -> Sre.captures -> option A) :
  let n := run_length (Sre.in_set neg items) s in
  (forall j, j < n -> k (pos + j) (drop j s) cs = None) ->
  Sre.match_re (Sre.Star true (Sre.InSet neg items)) pos s cs k
  = k (pos + n) (drop n s) cs.
Proof.
  cbn zeta. revert pos. induction s as [|x s IH]; intros pos Hk.
  - rewrite star_set_nil. simpl. by rewrite Nat.add_0_r.
  - rewrite star_set_cons. cbn zeta. cbn [run_length] in *.
    destruct (Sre.in_set neg items x).
    + assert (H0 : k pos (x :: s) cs = None).
      { specialize (Hk 0). rewrite Nat.add_0_r in Hk. apply Hk. lia. }
      rewrite H0, orelse_none_r, IH.
      * simpl. f_equal. lia.
      * intros j Hj. replace (S pos + j) with (pos + S j) by lia.
        apply (Hk (S j)). lia.
    + simpl. by rewrite Nat.add_0_r.
Qed.

(** A lazy repeat of [.] stops at the first point where the rest of the
    pattern matches. *)
Lemma star_any_lazy_at {A} (s : str) (pos : nat) (cs : Sre.captures)
    (k : nat -> str -> Sre.captures -> option A) (j : nat) (v : A) :
  j <= length s -> Sre.newline ∉ take j s ->
  (forall i, i < j -> k (pos + i) (drop i s) cs = None) ->
  k (pos + j) (drop j s) cs = Some v ->
  Sre.match_re (Sre.Star false Sre.AnyChar) pos s cs k = Some v.
Proof.
  revert s pos. induction j as [|j IH]; intros s pos Hj Hnl Hnone Hk.
  - rewrite Nat.add_0_r, drop_0 in Hk.
    destruct s as [|x s]; [by rewrite star_any_nil|].
    rewrite star_any_cons. cbn zeta. by rewrite Hk.
  - destruct s as [|x s]; [simpl in Hj; lia|].
    simpl in Hnl. apply not_elem_of_cons in Hnl as [Hx Hnl].
    rewrite star_any_cons. cbn zeta.
    assert (H0 : k pos (x :: s) cs = None).
    { specialize (Hnone 0). rewrite Nat.add_0_r in Hnone. apply Hnone. lia. }
    rewrite H0, decide_False by done. cbn [Sre.orelse].
    apply IH; [simpl in Hj; lia|done| |].
    + intros i Hi. replace (S pos + i) with (pos + S i) by lia.
      apply (Hnone (S i)). lia.
    + by replace (S pos + j) with (pos + S j) by lia.
Qed.

Lemma star_any_lazy_none {A} (s : str) (pos : nat) (cs : Sre.captures)
    (k : nat -> str -> Sre.captures -> option A) :
  (forall i, i <= length s -> k (pos + i) (drop i s) cs = None) ->
  Sre.match_re (Sre.Star false Sre.AnyChar) pos s cs k = None.
Proof.
  revert pos. induction s as [|x s IH]; intros pos Hk.
  - rewrite star_any_nil. specialize (Hk 0). rewrite Nat.add_0_r in Hk.
    apply Hk. simpl. lia.
  - rewrite star_any_cons. cbn zeta.
    assert (H0 : k pos (x :: s) cs = None).
    { specialize (Hk 0). rewrite Nat.add_0_r in Hk. apply Hk. simpl. lia. }
    rewrite H0. cbn [Sre.orelse].
    destruct (decide (x = Sre.newline)); [done|].
    apply IH. intros i Hi. replace (S pos + i) with (pos + S i) by lia.
    apply (Hk (S i)). simpl. lia.
Qed.

Lemma drop_not_nil {A} (l : list A) (j : nat) : j < length l -> drop j l ≠ [].
Proof.
  intros Hj E. apply (f_equal length) in E. rewrite length_drop in E.
  simpl in E. lia.
Qed.

Lemma match_lit_cons {A} (c x : ascii) (pos : nat) (s : str)
    (cs : Sre.captures) (k : nat -> str -> Sre.captures -> option A) :
  Sre.match_re (Sre.Lit c) pos (x :: s) cs k
  = if decide (x = c) then k (S pos) s cs else None.
Proof. reflexivity. Qed.

Lemma match_set_cons {A} (neg : bool) (items : list Sre.set_item) (x : ascii)
    (pos : nat) (s : str) (cs : Sre.captures)
    (k : nat -> str -> Sre.captures -> option A) :
  Sre.match_re (Sre.InSet neg items) pos (x :: s) cs k
  = if Sre.in_set neg items x then k (S pos) s cs else None.
Proof. reflexivity. Qed.

(** The second group and the end of the pattern of Add Suffix match a dot
    and word characters up to the end of the string. *)
Lemma match_extension {A} (rest : str) (pos : nat) (cs : Sre.captures)
    (kf : nat -> str -> Sre.captures -> option A) :
  Sre.newline ∉ rest ->
  Sre.match_re extension_group pos rest cs kf
  = if is_extension rest
    then kf (pos + length rest) [] ((2, rest) :: cs)
    else None.
Proof.
  intros Hnl. unfold extension_group.
  rewrite match_cat, match_group, match_cat.
  destruct rest as [|x e]; [done|]. rewrite match_lit_cons.
  cbn [is_extension].
  apply not_elem_of_cons in Hnl as [_ Hnl].
  destruct (decide (x = "."%char)) as [->|Hx];
    [|by rewrite (bool_decide_eq_false_2 (x = extsep))].
  rewrite (bool_decide_eq_true_2 ("."%char = extsep)) by done. cbn [andb].
  cbn beta. rewrite !match_cat.
  destruct e as [|w e]; [done|]. rewrite match_set_cons.
  rewrite (bool_decide_eq_false_2 (w :: e = [])) by done. cbn [negb andb forallb].
  rewrite in_set_word. destruct (is_word w); [|done]. cbn [andb].
  apply not_elem_of_cons in Hnl as [_ Hnl].
  rewrite star_set_last.
  - cbn [Sre.match_re]. rewrite at_end_no_newline by (by apply not_elem_of_drop).
    rewrite run_length_all.
    rewrite (forallb_eq _ is_word) by apply in_set_word.
    destruct (forallb is_word e) eqn:Eall; [|done].
    assert (Hrun : run_length (Sre.in_set false word_set) e = length e).
    { pose proof (run_length_all (Sre.in_set false word_set) e) as Hr.
      rewrite (forallb_eq _ is_word) in Hr by apply in_set_word.
      rewrite Eall in Hr. apply bool_decide_eq_true in Hr.
      apply drop_nil_inv in Hr.
      pose proof (run_length_le (Sre.in_set false word_set) e). lia. }
    rewrite Hrun, drop_all, take_ge by (cbn [length]; lia).
    f_equal. cbn [length]. lia.
  - cbn zeta. intros j Hj. cbn [Sre.match_re].
    rewrite at_end_no_newline by (by apply not_elem_of_drop).
    rewrite bool_decide_eq_false_2; [done|].
    apply drop_not_nil. pose proof (run_length_le (Sre.in_set false word_set) e). lia.
Qed.

Lemma is_word_not_dot (c : ascii) : is_word c = true -> c ≠ extsep.
Proof. by intros Hw ->. Qed.

Lemma is_extension_inv (rest : str) :
  is_extension rest = true ->
  exists e, rest = extsep :: e /\ e ≠ [] /\ extsep ∉ e.
Proof.
  destruct rest as [|c e]; [done|]. cbn [is_extension].
  intros [[Hc He]%andb_true_iff Hw]%andb_true_iff.
  apply bool_decide_eq_true in Hc as ->.
  apply negb_true_iff, bool_decide_eq_false in He.
  exists e. split; [done|]. split; [done|].
  intros Hin. rewrite forallb_forall in Hw.
  apply list_elem_of_In, Hw in Hin. by apply is_word_not_dot in Hin.
Qed.

(** An extension found at index [j] is the part from the last dot on. *)
Lemma is_extension_last_dot (s : str) (j : nat) :
  is_extension (drop j s) = true ->
  j < length s /\ split_last_dot s = (take j s, drop j s).
Proof.
  intros Hext. destruct (is_extension_inv _ Hext) as (e & Hd & _ & Hdot).
  assert (Hj : s !! j = Some extsep).
  { rewrite <- (Nat.add_0_r j), <- lookup_drop, Hd. done. }
  assert (Hlen : j < length s) by (by eapply lookup_lt_Some).
  split; [done|].
  assert (He : drop (S j) s = e).
  { replace (S j) with (j + 1) by lia. by rewrite <- drop_drop, Hd. }
  unfold split_last_dot.
  destruct (rfind_spec extsep s) as [[_ Hnot]|(k & -> & Hk & Hnot)].
  { exfalso. apply Hnot. by eapply list_elem_of_lookup_2. }
  assert (k = j) as ->.
  { destruct (Nat.lt_trichotomy k j) as [Hlt|[Heq|Hgt]]; [|done|].
    - exfalso. apply Hnot. apply list_elem_of_lookup. exists (j - S k).
      rewrite lookup_drop. by replace (S k + (j - S k)) with j by lia.
    - exfalso. apply Hdot. rewrite <- He. apply list_elem_of_lookup.
      exists (k - S j). rewrite lookup_drop.
      by replace (S j + (k - S j)) with k by lia. }
  replace (Z.of_nat j <? 0)%Z with false by (symmetry; apply Z.ltb_ge; lia).
  unfold slice_to, slice_from. by rewrite Nat2Z.id.
Qed.

Lemma has_extension_inv (s : str) :
  has_extension s = true ->
  exists j, j < length s /\ is_extension (drop j s) = true /\
            split_last_dot s = (take j s, drop j s).
Proof.
  unfold has_extension, split_last_dot.
  destruct (rfind extsep s <? 0)%Z; [done|].
  unfold slice_to, slice_from. cbn [snd]. intros Hext.
  exists (Z.to_nat (rfind extsep s)). split; [|done].
  by apply is_extension_last_dot.
Qed.

(** On a string without a newline, the pattern of Add Suffix matches the
    whole string at the start when the part from the last dot on is an
    extension; the groups are the parts before and from that dot. *)
Lemma match_at_stem_and_extension (s : str) (must_advance : bool) :
  Sre.newline ∉ s ->
  Sre.match_at stem_and_extension 0 s must_advance =
    if has_extension s
    then Some (length s,
               [(2, (split_last_dot s).2); (1, (split_last_dot s).1)])
    else None.
Proof.
  intros Hnl. unfold Sre.match_at, stem_and_extension.
  rewrite match_cat, match_bol. cbn [Nat.eqb].
  rewrite match_cat, match_group, match_cat.
  destruct (has_extension s) eqn:Ehas.
  - destruct (has_extension_inv s Ehas) as (j & Hj & Hext & Hsplit).
    apply (star_any_lazy_at s 0 _ _ j); [lia| | |].
    + intros Hin. apply Hnl. rewrite <- (take_drop j s).
      apply elem_of_app. by left.
    + intros i Hi. cbn [Sre.match_re Nat.add].
      rewrite match_extension by (by apply not_elem_of_drop).
      destruct (is_extension (drop i s)) eqn:Ei; [|done].
      apply is_extension_last_dot in Ei as [Hil Ei].
      rewrite Hsplit in Ei. injection Ei as Ei _.
      apply (f_equal length) in Ei. rewrite !length_take in Ei. lia.
    + cbn [Sre.match_re Nat.add].
      rewrite match_extension by (by apply not_elem_of_drop).
      rewrite Hext, Hsplit, length_drop, Nat.sub_0_r. cbn [fst snd].
      replace (j + (length s - j)) with (length s) by lia.
      replace (length s =? 0) with false
        by (symmetry; apply Nat.eqb_neq; lia).
      by rewrite andb_false_r.
  - apply star_any_lazy_none. intros i Hi. cbn [Sre.match_re Nat.add].
    rewrite match_extension by (by apply not_elem_of_drop).
    destruct (is_extension (drop i s)) eqn:Ei; [|done].
    apply is_extension_last_dot in Ei as Ei'. destruct Ei' as [_ Ei'].
    unfold has_extension in Ehas. rewrite Ei' in Ehas. cbn [snd] in Ehas.
    congruence.
Qed.

Lemma search_from_bol (r : Sre.regex) (s : str) (pos : nat) :
  0 < pos -> Sre.search_from (Sre.Cat Sre.Bol r) pos s = None.
Proof.
  revert pos. induction s as [|c s IH]; intros pos Hpos;
    cbn [Sre.search_from]; rewrite match_at_bol by done; [done|].
  apply IH. lia.
Qed.

Lemma search_stem_and_extension (s : str) :
  Sre.newline ∉ s ->
  bool_decide (is_Some (Sre.search_from stem_and_extension 0 s))
  = has_extension s.
Proof.
  intros Hnl.
  destruct s as [|c s]; cbn [Sre.search_from];
    rewrite match_at_stem_and_extension by done;
    destruct (has_extension _); try (by apply bool_decide_eq_true_2; eexists).
  - apply bool_decide_eq_false_2. by intros [? ?].
  - unfold stem_and_extension. rewrite search_from_bol by lia.
    apply bool_decide_eq_false_2. by intros [? ?].
Qed.

Lemma sub_scan_stem_and_extension (sfx s : str) :
  Sre.newline ∉ s -> has_extension s = true ->
  Sre.sub_scan stem_and_extension
    (Sre.TGroup 1 :: map (fun c => Sre.TLit [c]) sfx ++ [Sre.TGroup 2]) 0 0 s
  = insert_suffix sfx s.
Proof.
  intros Hnl Hext. destruct s as [|c s]; [done|]. cbn [Sre.sub_scan].
  rewrite !match_at_stem_and_extension, Hext by done.
  cbn [length Nat.sub Nat.eqb].
  unfold stem_and_extension. rewrite sub_scan_skip_all, app_nil_r.
  change (Sre.TGroup 1 :: ?l) with ([Sre.TGroup 1] ++ l).
  rewrite !expand_app, expand_plain.
  unfold Sre.expand, insert_suffix. cbn [map concat Sre.capture].
  rewrite decide_False by done. rewrite !decide_True by done.
  cbn [default]. by rewrite !app_nil_r.
Qed.

(** The template of Add Suffix, for a suffix that has no backslash and
    does not start with a digit. *)
Lemma parse_suffix_template (sfx : str) :
  Sre.backslash ∉ sfx ->
  match sfx with c :: _ => is_digit c = false | [] => True end ->
  Sre.parse_template (S (length ("\1" ++ sfx ++ "\2"))) 2
    ("\1" ++ sfx ++ "\2")
  = Some (Sre.TGroup 1 :: map (fun c => Sre.TLit [c]) sfx ++ [Sre.TGroup 2]).
Proof.
  intros Hb Hd.
  assert (Hrest : Sre.parse_template (length sfx + 4) 2 (sfx ++ "\2")
                  = Some (map (fun c => Sre.TLit [c]) sfx ++ [Sre.TGroup 2])).
  { by rewrite parse_template_plain_app. }
  replace (S (length ("\1" ++ sfx ++ "\2"))) with (S (length sfx + 4))
    by (rewrite !length_app; simpl; lia).
  change ("\1" ++ sfx ++ "\2")
    with (Sre.backslash :: "1"%char :: (sfx ++ "\2")).
  cbn [Sre.parse_template]. rewrite decide_True by done.
  destruct sfx as [|c sfx].
  - done.
  - cbn [app]. cbn [app] in Hrest. rewrite Hd. cbn [is_digit andb].
    change (is_digit "1") with true. cbn [andb].
    change (2 <? Sre.digit_val "1") with false. cbn iota.
    rewrite Hrest. done.
Qed.

Section suffix_preset.
Context `{Re}.

(** X7.  Under Add Suffix Before Extension, for a suffix without a
    backslash that does not start with a digit and files whose names have
    no newline: the files planned are those whose name ends with a dot and
    one or more word characters, and the stripped suffix is put before
    that last dot. *)
Theorem add_suffix_goes_before_the_extension (g : gui) (info : option str)
    (files : list str) (g0 : gui) :
  let sfx := strip (replacement_var g) in
  pattern_var g = "Add Suffix Before Extension" ->
  Sre.backslash ∉ sfx ->
  match sfx with c :: _ => is_digit c = false | [] => True end ->
  Forall (fun f => Sre.newline ∉ basename f) files ->
  build_rule g info = Substitute "^(.*?)(\.[\w]+)$" ("\1" ++ sfx ++ "\2") /\
  re_compile "^(.*?)(\.[\w]+)$" = true /\
  (apply_regex files "^(.*?)(\.[\w]+)$" ("\1" ++ sfx ++ "\2") 0 g0).2
  = Some (plan_of has_extension (insert_suffix sfx) files).
Proof.
  cbn zeta. intros E Hb Hd Hfiles. split; [by apply build_rule_add_suffix|].
  split; [by eapply re_compile_parsed, parse_stem_and_extension|].
  rewrite Forall_forall in Hfiles.
  apply apply_regex_plan_on; intros f Hf.
  - rewrite (re_search_parsed _ _ _ _ parse_stem_and_extension).
    by rewrite search_stem_and_extension by auto.
  - intros Hext. rewrite (re_sub_parsed _ _ _ _ _ parse_stem_and_extension).
    rewrite parse_suffix_template by done.
    cbn [mbind option_bind]. by rewrite sub_scan_stem_and_extension by auto.
Qed.
End suffix_preset.

(* ===================================================================== *)
(** * Templates in error *)
(* ===================================================================== *)

(** The template of Add Suffix when the suffix starts with a digit: the
    digit is read as the second digit of the group number. *)
Lemma parse_suffix_template_digit (d : ascii) (rest : str) :
  is_digit d = true ->
  match rest with
  | x :: _ => (Sre.is_octdigit d && Sre.is_octdigit x) = false
  | [] => True
  end ->
  Sre.parse_template (S (length ("\1" ++ (d :: rest) ++ "\2"))) 2
    ("\1" ++ (d :: rest) ++ "\2")
  = None.
Proof.
  intros Hd Hrest.
  assert (Hindex : (2 <? 10 * Sre.digit_val "1" + Sre.digit_val d) = true).
  { apply Nat.ltb_lt. change (Sre.digit_val "1") with 1. lia. }
  replace (S (length ("\1" ++ (d :: rest) ++ "\2")))
    with (S (S (length rest + 4)))
    by (rewrite !length_app; simpl; rewrite ?length_app; simpl; lia).
  change ("\1" ++ (d :: rest) ++ "\2")
    with (Sre.backslash :: "1"%char :: d :: (rest ++ "\2")).
  cbn [Sre.parse_template]. rewrite decide_True by done.
  change (is_digit "1") with true. cbn iota. rewrite Hd.
  destruct rest as [|x rest].
  - cbn [app]. change (list_ascii_of_string "\2") with [Sre.backslash; "2"%char].
    cbn iota. change (Sre.is_octdigit Sre.backslash) with false.
    rewrite andb_false_r. by rewrite Hindex.
  - cbn [app]. change (Sre.is_octdigit "1") with true. cbn [andb].
    rewrite Hrest. by rewrite Hindex.
Qed.

Section template_errors.
Context `{Re}.

(** When the engine raises on the substitution, [apply_regex] raises at
    the first file whose name matches. *)
Lemma apply_regex_loop_raises (files : list str) (pattern replacement : str)
    (changes : list change) (g0 : gui) :
  (forall name, is_Some (re_search pattern name 0)) ->
  (forall name, re_sub pattern replacement name 0 = None) ->
  Exists (fun f => re_search pattern (basename f) 0 = Some true) files ->
  (apply_regex_loop files pattern replacement 0 changes g0).2 = None.
Proof.
  intros Hs Hr Hex. revert changes g0.
  induction files as [|f files IH]; intros changes g0;
    [by apply Exists_nil in Hex|].
  cbn [apply_regex_loop].
  destruct (re_search pattern (basename f) 0) as [[|]|] eqn:Es.
  - by rewrite Hr.
  - apply IH. apply Exists_cons in Hex as [Hex|Hex]; [congruence|done].
  - done.
Qed.

(** X8.  Under Add Suffix Before Extension a suffix that starts with a
    digit joins the group number in the template: the reference is to a
    group that the pattern does not have (unless the three digits read as
    an octal code), the substitution raises at the first name with an
    extension, and nothing catches it, the pattern itself having
    compiled. *)
Theorem add_suffix_with_leading_digit_raises (g : gui) (info : option str)
    (files : list str) (g0 : gui) (d : ascii) (rest : str) :
  let sfx := strip (replacement_var g) in
  pattern_var g = "Add Suffix Before Extension" ->
  sfx = d :: rest ->
  is_digit d = true ->
  match rest with
  | x :: _ => (Sre.is_octdigit d && Sre.is_octdigit x) = false
  | [] => True
  end ->
  Exists (fun f => (Sre.newline ∉ basename f) /\
                   has_extension (basename f) = true) files ->
  build_rule g info = Substitute "^(.*?)(\.[\w]+)$" ("\1" ++ sfx ++ "\2") /\
  re_compile "^(.*?)(\.[\w]+)$" = true /\
  (apply_regex files "^(.*?)(\.[\w]+)$" ("\1" ++ sfx ++ "\2") 0 g0).2
  = None.
Proof.
  cbn zeta. intros E Hsfx Hd Hrest Hex.
  split; [by apply build_rule_add_suffix|].
  split; [by eapply re_compile_parsed, parse_stem_and_extension|].
  apply apply_regex_loop_raises.
  - intros name.
    by rewrite (re_search_parsed _ _ _ _ parse_stem_and_extension).
  - intros name.
    rewrite (re_sub_parsed _ _ _ _ _ parse_stem_and_extension), Hsfx.
    by rewrite parse_suffix_template_digit.
  - eapply Exists_impl; [exact Hex|]. intros f [Hnl Hext]. cbn beta.
    rewrite (re_search_parsed _ _ _ _ parse_stem_and_extension).
    by rewrite search_stem_and_extension, Hext.
Qed.

(** X9.  Under Replace Text a replacement that ends with a backslash is a
    template in error: the substitution raises at the first name that
    contains the text to find, and nothing catches it, the pattern itself
    having compiled. *)
Theorem replace_text_with_trailing_backslash_raises (g : gui)
    (info : option str) (files : list str) (g0 : gui) (pre : str) :
  let pattern := re_escape (strip (replacement_var g)) in
  let replacement := strip (replace_with_var g) in
  pattern_var g = "Replace Text" ->
  replacement = pre ++ [Sre.backslash] ->
  Sre.backslash ∉ pre ->
  Exists (fun f => str_in (strip (replacement_var g)) (basename f) = true)
    files ->
  build_rule g info = Substitute pattern replacement /\
  re_compile pattern = true /\
  (apply_regex files pattern replacement 0 g0).2 = None.
Proof.
  cbn zeta. intros E Hrep Hpre Hex.
  split; [by apply build_rule_replace_text|].
  split; [by eapply re_compile_parsed, parse_escape|].
  apply apply_regex_loop_raises.
  - intros name. by rewrite re_search_escape.
  - intros name. rewrite re_sub_escape, sre_sub_escape, Hrep.
    replace (S (length (pre ++ [Sre.backslash]))) with (length pre + 2)
      by (rewrite length_app; simpl; lia).
    by rewrite parse_template_plain_app.
  - eapply Exists_impl; [exact Hex|]. intros f Hin. cbn beta.
    by rewrite re_search_escape, Hin.
Qed.
End template_errors.

(* ===================================================================== *)
(** * Blank entries and names without a match *)
(* ===================================================================== *)

Lemma lstrip_blank (s : str) : forallb isspace s = true -> lstrip s = [].
Proof.
  induction s as [|c s IH]; [done|]. simpl.
  intros [Hc Hs]%andb_true_iff. rewrite Hc. by apply IH.
Qed.

(** A text of white space only is stripped to nothing. *)
Lemma strip_blank (s : str) : forallb isspace s = true -> strip s = [].
Proof. intros Hs. unfold strip. by rewrite lstrip_blank. Qed.

Lemma str_replace_skip_nothing (s : str) : str_replace_skip [] [] 0 s = s.
Proof. induction s as [|c s IH]; [done|]. simpl. by rewrite IH. Qed.

Lemma plan_of_unchanged (matches : str -> bool) (subst : str -> str)
    (files : list str) :
  (forall name, subst name = name) -> plan_of matches subst files = [].
Proof.
  intros Hsame. unfold plan_of.
  induction files as [|f files IH]; [done|].
  rewrite filter_cons, decide_False; [done|].
  unfold planned. intros (_ & Hne & _). by apply Hne.
Qed.

(** A search that fails at and after [pos] finds no match at [pos]. *)
Lemma search_from_none (r : Sre.regex) (pos : nat) (s : str) :
  Sre.search_from r pos s = None ->
  Sre.match_at r pos s false = None /\
  match s with
  | _ :: s' => Sre.search_from r (S pos) s' = None
  | [] => True
  end.
Proof.
  destruct s as [|c s]; cbn [Sre.search_from];
    destruct (Sre.match_at r pos _ false) as [[e cs]|]; done.
Qed.

(** A substitution leaves alone a string in which a search finds
    nothing. *)
Lemma sub_scan_unmatched (r : Sre.regex) (t : list Sre.titem) (s : str)
    (pos : nat) :
  Sre.search_from r pos s = None -> Sre.sub_scan r t pos 0 s = s.
Proof.
  revert pos. induction s as [|c s IH]; intros pos Hs;
    apply search_from_none in Hs as [Hm Hs]; cbn [Sre.sub_scan];
    rewrite Hm; [done|].
  cbn. by rewrite IH.
Qed.

Section engine.
Context `{Re}.

(** X11.  In the engine of the presets, a substitution returns the
    string as it is when a search finds no match in it: the files that
    [apply_regex] skips for want of a match would have kept their
    name. *)
Theorem unmatched_name_is_left_alone (pattern repl s : str) (r : Sre.regex)
    (n : nat) (tpl : list Sre.titem) :
  Sre.parse pattern = Some (r, n) ->
  Sre.parse_template (S (length repl)) n repl = Some tpl ->
  re_search pattern s 0 = Some false ->
  re_sub pattern repl s 0 = Some s.
Proof.
  intros Hp Ht Hs.
  rewrite (re_search_parsed _ _ _ _ Hp) in Hs. injection Hs as Hs.
  apply bool_decide_eq_false in Hs.
  rewrite (re_sub_parsed _ _ _ _ _ Hp), Ht. cbn [mbind option_bind].
  rewrite sub_scan_unmatched; [done|].
  destruct (Sre.search_from r 0 s) eqn:E; [|done].
  exfalso. apply Hs. by eexists.
Qed.

(** X10.  Under Remove Text a text of white space only is stripped to
    the empty text, which is found in every name and whose removal changes
    none: no change is planned. *)
Theorem remove_text_blank_plans_nothing (g : gui) (info : option str)
    (files : list str) (g0 : gui) :
  let pattern := re_escape (strip (replacement_var g)) in
  pattern_var g = "Remove Text" ->
  forallb isspace (replacement_var g) = true ->
  build_rule g info = Substitute pattern [] /\
  re_compile pattern = true /\
  (apply_regex files pattern [] 0 g0).2 = Some [].
Proof.
  cbn zeta. intros E Hblank. split; [by apply build_rule_remove_text|].
  split; [by eapply re_compile_parsed, parse_escape|].
  rewrite (apply_regex_plan _ _ _ (str_in (strip (replacement_var g)))
             (str_replace (strip (replacement_var g)) [])).
  - f_equal. apply plan_of_unchanged. intros name.
    rewrite strip_blank by done. apply str_replace_skip_nothing.
  - intros name. apply re_search_escape.
  - intros name. rewrite re_sub_escape.
    apply sre_sub_escape_plain, not_backslash_nil.
Qed.
End engine.

(* ===================================================================== *)
(** * More of the preview and of the window *)
(* ===================================================================== *)

Section window_more.
Context `{Re} {world : Type} `{OS world}.

(** Every rule that [preview_changes] builds for a key of
    [self.patterns] has a pattern that compiles. *)
Lemma rule_compiles (g : gui) (info : option str) (pattern replacement : str) :
  assoc (pattern_var g) patterns = Some info ->
  build_rule g info = Substitute pattern replacement ->
  re_compile pattern = true.
Proof.
  intros Ha. unfold build_rule.
  repeat (match goal with
          | |- context [decide (pattern_var g = ?x)] =>
              destruct (decide (pattern_var g = x))
          end;
          [cbv iota; intros Hb;
           first [discriminate Hb
                 | injection Hb as <- <-; eapply re_compile_parsed;
                   first [apply parse_escape | vm_compute; reflexivity]]|]).
  intros Hb. injection Hb as <- <-.
  revert Ha. unfold patterns. cbn [assoc].
  repeat (match goal with
          | |- context [decide (?x = pattern_var g)] =>
              destruct (decide (x = pattern_var g))
          end;
          [cbv iota; intros Ha;
           first [congruence
                 | injection Ha as <-; eapply re_compile_parsed;
                   vm_compute; reflexivity]|]).
  discriminate.
Qed.

Lemma finish_preview_dialogs (g : gui) :
  dialogs (finish_preview g) = dialogs g /\
  rename_log (finish_preview g) = rename_log g.
Proof.
  unfold finish_preview. repeat (destruct (bool_decide _); simpl); done.
Qed.

(** X12.  The only message box a preview can show is the one for an
    invalid directory: every rule built for a key of [self.patterns] has a
    pattern that compiles, so the handler of [re.error] is never
    entered. *)
Theorem preview_shows_no_regex_error (w : world) (g : gui) :
  dialogs (preview_changes w g) = dialogs g \/
  dialogs (preview_changes w g) = dialogs g ++ [ErrorInvalidDirectory].
Proof.
  unfold preview_changes.
  destruct (_ || _); [by right|]. left.
  destruct (assoc _ _) as [info|] eqn:Ea; [|done].
  destruct (collect_files _ _ _) as [files|]; [|done].
  destruct (bool_decide (files = [])); [done|].
  set (g1 := log_output _ _).
  destruct (build_rule _ _) as [mode|pattern replacement] eqn:Er.
  - by destruct (finish_preview_dialogs (set_current_changes (case_changes mode files) g1)) as [-> _].
  - change (pattern_var (clear_output g)) with (pattern_var g) in Ea.
    change (build_rule (clear_output g) info) with (build_rule g info) in Er.
    rewrite (rule_compiles g info pattern replacement Ea Er). cbn [negb].
    pose proof (apply_regex_loop_gui files pattern replacement 0%Z [] g1) as Hg.
    unfold apply_regex.
    destruct (apply_regex_loop _ _ _ _ _ _) as [g2 [changes|]]; simpl in *.
    + destruct Hg as (_&_&_&_&_&_&_&_&Hd).
      destruct (_ && _); [done|].
      by destruct (finish_preview_dialogs (set_current_changes changes g2)) as [-> _].
    + by destruct Hg as (_&_&_&_&_&_&_&_&Hd).
Qed.

(** X13.  A preview of a directory entry that is blank, or that is no
    directory, clears the output and shows the error, and leaves the plan,
    the collisions, the button and the log as they were. *)
Theorem preview_of_an_invalid_directory (w : world) (g : gui) :
  forallb isspace (dir_var g) = true \/
  os_path_isdir w (strip (dir_var g)) = false ->
  let g' := preview_changes w g in
  dialogs g' = dialogs g ++ [ErrorInvalidDirectory] /\
  output_text g' = [] /\
  current_changes g' = current_changes g /\
  current_collisions g' = current_collisions g /\
  rename_button g' = rename_button g /\
  rename_log g' = rename_log g.
Proof.
  intros Hdir. cbn zeta. unfold preview_changes.
  change (dir_var (clear_output g)) with (dir_var g).
  replace (bool_decide (strip (dir_var g) = []) ||
           negb (os_path_isdir w (strip (dir_var g)))) with true; [done|].
  symmetry. destruct Hdir as [Hblank| ->].
  - by rewrite strip_blank.
  - apply orb_true_r.
Qed.

Lemma preview_changes_log (w : world) (g : gui) :
  rename_log (preview_changes w g) = rename_log g.
Proof.
  unfold preview_changes.
  destruct (_ || _); [done|].
  destruct (assoc _ _) as [info|]; [|done].
  destruct (collect_files _ _ _) as [files|]; [|done].
  destruct (bool_decide (files = [])); [done|].
  set (g1 := log_output _ _).
  destruct (build_rule _ _) as [mode|pattern replacement].
  - by destruct (finish_preview_dialogs (set_current_changes (case_changes mode files) g1)) as [_ ->].
  - destruct (negb _); [done|].
    pose proof (apply_regex_loop_gui files pattern replacement 0%Z [] g1) as Hg.
    unfold apply_regex.
    destruct (apply_regex_loop _ _ _ _ _ _) as [g2 [changes|]]; simpl in *.
    + destruct Hg as (_&_&_&_&Hl&_).
      destruct (_ && _); [done|].
      by destruct (finish_preview_dialogs (set_current_changes changes g2)) as [_ ->].
    + by destruct Hg as (_&_&_&_&Hl&_).
Qed.

(** One event: the log grows at its end, and a log that is written is the
    log after the event. *)
Lemma step_log (e : event) (w : world) (g : gui) :
  rename_log g `prefix_of` rename_log (step e w g).1.2 /\
  forall log_file entries ok,
    (log_file, entries, ok) ∈ log_writes (step e w g).2 ->
    entries = rename_log (step e w g).1.2.
Proof.
  assert (Hnone : forall (x : str * list log_entry * bool), x ∈ log_writes [] -> False).
  { intros x Hx. by apply elem_of_nil in Hx. }
  destruct e; cbn [step fst snd];
    try (split; [done|by intros ??? ?%Hnone]).
  - split; [|by intros ??? ?%Hnone]. by rewrite preview_changes_log.
  - destruct (rename_button g); [|split; [done|by intros ??? ?%Hnone]].
    unfold rename_files.
    destruct (bool_decide (current_changes g = []));
      [split; [done|by intros ??? ?%Hnone]|].
    destruct (negb _); [split; [done|by intros ??? ?%Hnone]|].
    destruct confirm; [|split; [done|by intros ??? ?%Hnone]].
    cbn [fst snd rename_log set_rename_button set_current_collisions
         set_current_changes clear_output set_output_text show_dialog
         set_dialogs].
    destruct (execute_executed w (asked g)) as [oks E].
    destruct E as [_ _ _ _ _ (added & Hadd & _) Hnw Hw _].
    change (rename_log (asked g)) with (rename_log g) in Hadd.
    fold (asked g). split; [rewrite Hadd; by eexists|].
    intros log_file entries ok Hin.
    destruct (count true oks) as [|n] eqn:En.
    + rewrite Hnw in Hin by done. by apply elem_of_nil in Hin.
    + destruct Hw as (log_file' & ok' & Hlw & _); [lia|].
      rewrite Hlw in Hin. apply list_elem_of_singleton in Hin.
      by injection Hin as _ -> _.
  - split; [|by intros ??? ?%Hnone].
    unfold on_pattern_selected.
    destruct (_ || _); [done|]. by destruct (bool_decide _).
Qed.

(** X24.  Over any sequence of events the rollback log only grows at its
    end, and every log handed to a write holds all the entries the object
    had at the start: the log of a later run repeats the entries of the
    earlier ones. *)
Theorem rollback_log_only_grows (es : list event) (w : world) (g : gui) :
  rename_log g `prefix_of` rename_log (run_events es w g).1.2 /\
  forall log_file entries ok,
    (log_file, entries, ok) ∈ log_writes (run_events es w g).2 ->
    rename_log g `prefix_of` entries /\
    entries `prefix_of` rename_log (run_events es w g).1.2.
Proof.
  revert w g. induction es as [|e es IH]; intros w g.
  - cbn. split; [done|]. by intros ??? ?%elem_of_nil.
  - cbn [run_events]. destruct (step_log e w g) as [Hpre Hwr].
    destruct (step e w g) as [[w1 g1] calls1]. cbn [fst snd] in Hpre, Hwr.
    destruct (IH w1 g1) as [Hpre' Hwr'].
    destruct (run_events es w1 g1) as [[w2 g2] calls2].
    cbn [fst snd] in *. split; [by etrans|].
    intros log_file entries ok. rewrite log_writes_app, elem_of_app.
    intros [Hin|Hin].
    + rewrite (Hwr _ _ _ Hin). done.
    + destruct (Hwr' _ _ _ Hin). split; [by etrans|done].
Qed.

(** X22.  An edit of the directory or of a text, or the choice of a
    preset, makes no call, disables the rename button, empties the plan,
    the collisions and the output; [rename_files] called then only shows
    its warning, and a click on the button does nothing. *)
Theorem edit_drops_the_plan (e : event) (w : world) (g : gui) :
  is_edit e = true ->
  let g' := (step e w g).1.2 in
  (step e w g).1.1 = w /\ (step e w g).2 = [] /\
  rename_button g' = disabled /\
  current_changes g' = [] /\
  current_collisions g' = ∅ /\
  output_text g' = [] /\
  forall confirm w',
    rename_files confirm w' g' = (w', show_dialog WarningNoChanges g', []) /\
    step (ClickRename confirm) w' g' = (w', g', []).
Proof.
  intros He. cbn zeta.
  assert (Hre : forall g1 : gui,
            current_changes g1 = [] -> rename_button g1 = disabled ->
            forall confirm (w' : world),
              rename_files confirm w' g1
              = (w', show_dialog WarningNoChanges g1, []) /\
              step (ClickRename confirm) w' g1 = (w', g1, [])).
  { intros g1 Hc Hb confirm w'. unfold rename_files. cbn [step].
    by rewrite Hc, Hb. }
  destruct e; try discriminate; cbn [step fst snd];
    try (repeat split; try done; apply Hre; done).
  unfold on_pattern_selected.
  destruct (_ || _); [repeat split; try done; by apply Hre|].
  destruct (bool_decide _); repeat split; try done; by apply Hre.
Qed.

(** X23.  The Browse button leads to no new state: a directory chosen
    in the dialog acts as the same directory typed, and a dialog that is
    cancelled changes nothing. *)
Theorem browse_reaches_nothing_new (w : world) (g : gui) (dir_path : str) :
  reachable w g ->
  reachable w (browse_directory dir_path g) /\
  (dir_path = [] -> browse_directory dir_path g = g) /\
  (dir_path ≠ [] ->
   browse_directory dir_path g = (step (EditDirectory dir_path) w g).1.2).
Proof.
  intros Hr. unfold browse_directory.
  destruct (decide (dir_path = [])) as [->|Hne].
  - by rewrite bool_decide_eq_true_2.
  - rewrite bool_decide_eq_false_2 by done. cbn [negb].
    split; [|done].
    apply (reachable_step (EditDirectory dir_path) w g Hr).
Qed.
End window_more.

(* ===================================================================== *)
(** * Collisions and distinct targets *)
(* ===================================================================== *)

Lemma detect_collisions_lookup (changes : list change) (key : str) :
  detect_collisions changes !! key = None <->
  length (claimants key changes) <= 1.
Proof.
  unfold detect_collisions. rewrite map_lookup_filter, record_claims_lookup.
  rewrite lookup_empty. simpl.
  destruct (claimants key changes) as [|a [|b l]]; simpl;
    (split; [intros; try done; lia|intros; try done; lia]).
Qed.

Lemma claimants_cons (key : str) (c : change) (changes : list change) :
  claimants key (c :: changes) =
    if decide (target_path c = key)
    then old_name_of c :: claimants key changes
    else claimants key changes.
Proof.
  unfold claimants. rewrite filter_cons.
  by destruct (decide (target_path c = key)).
Qed.

Lemma claimants_nil (key : str) (changes : list change) :
  claimants key changes = [] <-> key ∉ target_path <$> changes.
Proof.
  induction changes as [|c changes IH].
  - split; [|done]. intros _ ?%elem_of_nil. done.
  - rewrite claimants_cons, fmap_cons, not_elem_of_cons.
    destruct (decide (target_path c = key)) as [E|E].
    + split; [done|]. by intros [? _].
    + rewrite IH. split; [by intros ?|by intros [_ ?]].
Qed.

(** X16.  [detect_collisions] returns the empty dictionary exactly when
    the target paths of the changes are pairwise distinct. *)
Theorem no_collision_iff_distinct_targets (changes : list change) :
  detect_collisions changes = ∅ <-> NoDup (target_path <$> changes).
Proof.
  rewrite map_empty.
  setoid_rewrite detect_collisions_lookup.
  induction changes as [|c changes IH].
  - split; [constructor|]. intros _ key. simpl. lia.
  - rewrite fmap_cons, NoDup_cons. split.
    + intros Hall. split.
      * apply claimants_nil.
        specialize (Hall (target_path c)). rewrite claimants_cons in Hall.
        rewrite decide_True in Hall by done. simpl in Hall.
        destruct (claimants (target_path c) changes); [done|simpl in Hall; lia].
      * apply IH. intros key. specialize (Hall key).
        rewrite claimants_cons in Hall.
        destruct (decide _); simpl in Hall; lia.
    + intros [Hnot Hnd] key. rewrite claimants_cons.
      destruct (decide (target_path c = key)) as [<-|E].
      * apply claimants_nil in Hnot. rewrite Hnot. simpl. lia.
      * by apply IH.
Qed.

(* ===================================================================== *)
(** * Paths of the planned changes *)
(* ===================================================================== *)

(** The last occurrence of a character that does not occur after it. *)
Lemma rfind_last (c : ascii) (a b : str) :
  c ∉ b -> rfind c (a ++ c :: b) = Z.of_nat (length a).
Proof.
  intros Hb.
  destruct (rfind_spec c (a ++ c :: b)) as [[_ Hnot]|(k & -> & Hk & Hnot)].
  { exfalso. apply Hnot. apply elem_of_app. right. left. }
  f_equal. destruct (Nat.lt_trichotomy k (length a)) as [Hlt|[Heq|Hgt]];
    [|done|]; exfalso.
  - apply Hnot. apply list_elem_of_lookup. exists (length a - S k).
    rewrite lookup_drop.
    replace (S k + (length a - S k)) with (length a) by lia.
    by rewrite list_lookup_middle.
  - apply Hb. apply list_elem_of_lookup. exists (k - S (length a)).
    rewrite lookup_app_r in Hk by lia.
    destruct (k - length a) as [|m] eqn:Em; [lia|].
    simpl in Hk. by replace (k - S (length a)) with m by lia.
Qed.

Lemma basename_plain (b : str) : sep ∉ b -> basename b = b.
Proof. intros Hb. unfold basename. by rewrite rfind_absent. Qed.

Lemma basename_app (a b : str) : sep ∉ b -> basename (a ++ sep :: b) = b.
Proof.
  intros Hb. unfold basename, slice_from. rewrite rfind_last by done.
  replace (Z.to_nat (Z.of_nat (length a) + 1)) with (length a + 1) by lia.
  rewrite drop_app_add'; done.
Qed.

(** The three shapes of [os.path.join(d, n)] for a name without a
    separator. *)
Lemma join_cases (d n : str) :
  sep ∉ n ->
  (d = [] /\ join d n = n) \/
  (exists d', d = d' ++ [sep] /\ join d n = d' ++ sep :: n) \/
  (d ≠ [] /\ last d ≠ Some sep /\ join d n = d ++ sep :: n).
Proof.
  intros Hn. unfold join.
  assert (Hstart : startswith [sep] n = false).
  { destruct n as [|x n]; [done|]. simpl.
    rewrite bool_decide_eq_false_2; [done|].
    intros <-. apply Hn. left. }
  rewrite Hstart.
  destruct (decide (d = [])) as [->|Hd]; [by left|].
  rewrite (bool_decide_eq_false_2 (d = [])) by done. cbn [orb].
  right. destruct (decide (last d = Some sep)) as [Hl|Hl].
  - rewrite bool_decide_eq_true_2 by done. left.
    apply last_Some in Hl as [d' ->]. exists d'. split; [done|].
    by rewrite <- app_assoc.
  - rewrite bool_decide_eq_false_2 by done. right. done.
Qed.

(** The base name of a joined path is the name that was joined. *)
Lemma basename_join (d n : str) : sep ∉ n -> basename (join d n) = n.
Proof.
  intros Hn.
  destruct (join_cases d n Hn) as [[_ ->]|[(d' & _ & ->)|(_ & _ & ->)]].
  - by apply basename_plain.
  - by apply basename_app.
  - by apply basename_app.
Qed.

Lemma rstrip_char_keep (c x : ascii) (s : str) :
  x ≠ c -> rstrip_char c (s ++ [x]) = s ++ [x].
Proof.
  intros Hx. unfold rstrip_char. rewrite rev_unit. cbn [lstrip_char].
  rewrite decide_False by done. by rewrite <- rev_unit, rev_involutive.
Qed.

Lemma rstrip_char_drop (c : ascii) (s : str) :
  rstrip_char c (s ++ [c]) = rstrip_char c s.
Proof.
  unfold rstrip_char. rewrite rev_unit. cbn [lstrip_char].
  by rewrite decide_True.
Qed.

Lemma rstrip_char_spec (c : ascii) (s : str) :
  (rstrip_char c s = [] /\ s = replicate (length s) c) \/
  (exists t x, rstrip_char c s = t ++ [x] /\ x ≠ c).
Proof.
  induction s as [|x s IH] using rev_ind; [by left|].
  destruct (decide (x = c)) as [->|Hx].
  - rewrite rstrip_char_drop. destruct IH as [[-> Hs]|IH]; [|by right].
    left. split; [done|]. rewrite length_app. cbn [length].
    replace (length s + 1) with (S (length s)) by lia.
    rewrite replicate_S_end. by rewrite <- Hs.
  - right. exists s, x. by rewrite rstrip_char_keep.
Qed.

Lemma dirname_shape (p : str) : dir_shape (dirname p).
Proof.
  unfold dirname. set (head := slice_to _ p).
  destruct (decide (head = [])) as [E|E].
  { rewrite bool_decide_eq_true_2 by done. by left. }
  rewrite (bool_decide_eq_false_2 (head = [])) by done. cbn [negb andb].
  destruct (decide (head = replicate (length head) sep)) as [E'|E'].
  { rewrite bool_decide_eq_true_2 by done. right. by left. }
  rewrite bool_decide_eq_false_2 by done. cbn [negb].
  destruct (rstrip_char_spec sep head) as [[_ Hs]|Hs]; [done|].
  right. by right.
Qed.

Lemma dirname_app (a b : str) :
  sep ∉ b ->
  dirname (a ++ sep :: b) =
    if bool_decide (a ++ [sep] = replicate (length (a ++ [sep])) sep)
    then a ++ [sep] else rstrip_char sep a.
Proof.
  intros Hb. unfold dirname, slice_to. rewrite rfind_last by done.
  replace (Z.to_nat (Z.of_nat (length a) + 1)) with (length a + 1) by lia.
  replace (a ++ sep :: b) with ((a ++ [sep]) ++ b) by (by rewrite <- app_assoc).
  rewrite take_app_length' by (rewrite length_app; simpl; lia).
  rewrite (bool_decide_eq_false_2 (a ++ [sep] = []))
    by (by destruct a).
  cbn [negb andb]. destruct (bool_decide _); cbn [negb]; [done|].
  apply rstrip_char_drop.
Qed.

(** Joining a name to the directory of a path gives a path in that
    directory. *)
Lemma dirname_join (d n : str) :
  dir_shape d -> sep ∉ n -> dirname (join d n) = d.
Proof.
  intros Hd Hn.
  destruct (join_cases d n Hn) as [[-> ->]|[(d' & -> & ->)|(Hne & Hl & ->)]].
  - unfold dirname, slice_to. by rewrite rfind_absent.
  - rewrite dirname_app by done.
    destruct Hd as [Hd|[[_ Hd]|(t & x & Hd & Hx)]].
    + by destruct d'.
    + by rewrite bool_decide_eq_true_2.
    + apply app_inj_tail in Hd as [_ <-]. done.
  - rewrite dirname_app by done.
    destruct Hd as [Hd|[[_ Hd]|(t & x & -> & Hx)]]; [done| |].
    + exfalso. apply Hl. rewrite Hd.
      destruct (length d) as [|k] eqn:Ek; [by destruct d|].
      rewrite replicate_S_end. by rewrite last_snoc.
    + rewrite bool_decide_eq_false_2.
      * by apply rstrip_char_keep.
      * intros E. rewrite length_app in E. cbn [length] in E.
        replace (length (t ++ [x]) + 1) with (S (length (t ++ [x]))) in E
          by lia.
        rewrite replicate_S_end in E.
        apply app_inj_tail in E as [E _].
        rewrite length_app in E. cbn [length] in E.
        replace (length t + 1) with (S (length t)) in E by lia.
        rewrite replicate_S_end in E.
        apply app_inj_tail in E as [_ E]. done.
Qed.

(** The target of a change whose new name has no separator. *)
Lemma target_path_in_directory (c : change) :
  sep ∉ new_name_of c ->
  dirname (target_path c) = dirname (full_path_of c) /\
  basename (target_path c) = new_name_of c.
Proof.
  intros Hn. unfold target_path. split.
  - apply dirname_join; [apply dirname_shape|done].
  - by apply basename_join.
Qed.

Ltac each_char c :=
  destruct c as [[|] [|] [|] [|] [|] [|] [|] [|]].

(** The case mappings change letters into letters. *)
Lemma upper_char_sep (c : ascii) : upper_char c = sep -> c = sep.
Proof. each_char c; vm_compute; congruence. Qed.

Lemma lower_char_sep (c : ascii) : lower_char c = sep -> c = sep.
Proof. each_char c; vm_compute; congruence. Qed.

Lemma legal_name_no_sep (name : str) : legal_name name -> sep ∉ name.
Proof.
  unfold legal_name. rewrite Forall_forall. intros Hl Hin.
  apply (Hl sep Hin). unfold illegal_chars.
  do 4 apply list_elem_of_further. apply list_elem_of_here.
Qed.

Lemma elem_of_rev_1 {A} (x : A) (l : list A) : x ∈ rev l -> x ∈ l.
Proof. rewrite !list_elem_of_In. apply in_rev. Qed.

(** The words of [s.split()] are made of characters of [s]. *)
Lemma split_aux_chars (cur s w : str) (c : ascii) :
  w ∈ split_aux cur s -> c ∈ w -> c ∈ cur \/ c ∈ s.
Proof.
  revert cur. induction s as [|x s IH]; intros cur Hw Hc; cbn [split_aux] in Hw.
  - destruct cur as [|y cur]; [by apply elem_of_nil in Hw|].
    apply list_elem_of_singleton in Hw as ->. left.
    by apply elem_of_rev_1 in Hc.
  - destruct (isspace x).
    + destruct cur as [|y cur].
      * destruct (IH _ Hw Hc) as [?|?]; [by left|right; by right].
      * apply elem_of_cons in Hw as [->|Hw].
        -- left. by apply elem_of_rev_1 in Hc.
        -- destruct (IH _ Hw Hc) as [H1|?]; [by apply elem_of_nil in H1|].
           right. by right.
    + destruct (IH _ Hw Hc) as [H1|?]; [|right; by right].
      apply elem_of_cons in H1 as [->|?]; [right; left|by left].
Qed.

Lemma join_with_chars (sp : str) (ws : list str) (c : ascii) :
  c ∈ join_with sp ws -> c ∈ sp \/ exists w, w ∈ ws /\ c ∈ w.
Proof.
  induction ws as [|w ws IH]; [by intros ?%elem_of_nil|].
  cbn [join_with]. destruct ws as [|w' ws].
  - intros Hc. right. exists w. split; [left|done].
  - rewrite !elem_of_app. intros [Hc|[Hc|Hc]].
    + right. exists w. split; [left|done].
    + by left.
    + destruct (IH Hc) as [?|(w0 & Hw0 & ?)]; [by left|].
      right. exists w0. split; [by right|done].
Qed.

Lemma transform_stem_no_sep (mode : transform_mode) (s : str) :
  sep ∉ s -> sep ∉ transform_stem mode s.
Proof.
  intros Hs. destruct mode; cbn [transform_stem].
  - unfold upper. intros (c & Hc & Hin)%(list_elem_of_fmap_1 upper_char).
    symmetry in Hc. apply upper_char_sep in Hc as ->. done.
  - unfold lower. intros (c & Hc & Hin)%(list_elem_of_fmap_1 lower_char).
    symmetry in Hc. apply lower_char_sep in Hc as ->. done.
  - intros [Hsp|(w & Hw & Hc)]%join_with_chars.
    + apply list_elem_of_singleton in Hsp. discriminate.
    + apply (list_elem_of_fmap_1 capitalize) in Hw as (w0 & -> & Hw0).
      assert (Hsrc : exists c, c ∈ w0 /\ (upper_char c = sep \/ lower_char c = sep)).
      { destruct w0 as [|x w0]; [by apply elem_of_nil in Hc|].
        cbn [capitalize] in Hc. apply elem_of_cons in Hc as [Hc|Hc].
        - exists x. split; [left|by left].
        - unfold lower in Hc.
          apply (list_elem_of_fmap_1 lower_char) in Hc as (c & Hc & Hin).
          exists c. split; [by right|by right]. }
      destruct Hsrc as (c & Hc0 & Hsep).
      assert (c = sep) as ->.
      { destruct Hsep; [by apply upper_char_sep|by apply lower_char_sep]. }
      destruct (split_aux_chars [] s w0 sep Hw0 Hc0) as [H1|H1];
        [by apply elem_of_nil in H1|done].
Qed.

Lemma case_planned_no_sep (mode : transform_mode) (c : change) :
  case_planned mode c -> sep ∉ new_name_of c.
Proof.
  intros (Hold & -> & _).
  pose proof (basename_no_sep (full_path_of c)) as Hb. rewrite <- Hold in Hb.
  rewrite <- (splitext_app (old_name_of c)) in Hb.
  apply not_elem_of_app in Hb as [Hstem Hext].
  apply not_elem_of_app. split; [by apply transform_stem_no_sep|done].
Qed.

Section plans.
Context `{Re} {world : Type} `{OS world}.

(** Every change of a computed plan has the base name of its path as old
    name and a new name without a separator. *)
Lemma planned_by_names (w : world) (g : gui) (plan : list change) :
  planned_by w g plan ->
  Forall (fun c => old_name_of c = basename (full_path_of c) /\
                   new_name_of c ≠ old_name_of c /\
                   sep ∉ new_name_of c) plan.
Proof.
  intros (files & info & _ & _ & Hp).
  destruct (build_rule g info) as [mode|pattern replacement].
  - subst plan. eapply Forall_impl; [apply case_changes_sound|].
    intros c Hc. pose proof (case_planned_no_sep mode c Hc).
    by destruct Hc as (? & ? & ?).
  - destruct Hp as [g0 Hp].
    apply apply_regex_loop_sound in Hp as (added & -> & Hall).
    eapply Forall_impl; [exact Hall|].
    intros c (_ & ? & _ & _ & ? & Hl). by apply legal_name_no_sep in Hl.
Qed.

(** X17.  In every state the window reaches, each planned change has the
    base name of its path as old name, and its target is in the directory
    of its path, under the new name, and is another path. *)
Theorem renames_stay_in_the_directory (w : world) (g : gui) (c : change) :
  reachable w g -> c ∈ current_changes g ->
  old_name_of c = basename (full_path_of c) /\
  basename (target_path c) = new_name_of c /\
  dirname (target_path c) = dirname (full_path_of c) /\
  target_path c ≠ full_path_of c.
Proof.
  intros Hr Hc. destruct (reachable_inv w g Hr) as [_ Hplan].
  destruct Hplan as [E|[w0 Hp]].
  { rewrite E in Hc. by apply elem_of_nil in Hc. }
  apply planned_by_names in Hp. rewrite Forall_forall in Hp.
  destruct (Hp c Hc) as (Hold & Hne & Hsep).
  destruct (target_path_in_directory c Hsep) as [Hd Hb].
  repeat split; try done.
  intros E. apply Hne. rewrite Hold, <- Hb. by rewrite E.
Qed.
End plans.

(* ===================================================================== *)
(** * The files of a plan *)
(* ===================================================================== *)

(** The case conversion loop takes its changes from the files, in their
    order. *)
Lemma case_changes_sources (mode : transform_mode) (files : list str) :
  full_path_of <$> case_changes mode files `sublist_of` files.
Proof.
  unfold case_changes.
  assert (Hgen : forall acc,
            full_path_of <$> foldl (case_change mode) acc files
            `sublist_of` (full_path_of <$> acc) ++ files).
  { induction files as [|f files IH]; intros acc; cbn [foldl].
    - by rewrite app_nil_r.
    - etrans; [apply IH|]. unfold case_change.
      destruct (splitext (basename f)) as [name ext].
      destruct (negb _).
      + rewrite fmap_app. cbn. rewrite <- app_assoc. done.
      + apply sublist_app; [done|]. by apply sublist_cons. }
  apply (Hgen []).
Qed.

Section sources.
Context `{Re} {world : Type} `{OS world}.

Lemma apply_regex_loop_sources (files : list str) (pattern replacement : str)
    (flags : Z) (changes : list change) (g : gui) (plan : list change) :
  (apply_regex_loop files pattern replacement flags changes g).2 = Some plan ->
  full_path_of <$> plan `sublist_of` (full_path_of <$> changes) ++ files.
Proof.
  revert changes g.
  induction files as [|f files IH]; intros changes g; cbn [apply_regex_loop].
  - intros [= <-]. by rewrite app_nil_r.
  - assert (Hskip : forall g1,
              (apply_regex_loop files pattern replacement flags changes g1).2
              = Some plan ->
              full_path_of <$> plan
              `sublist_of` (full_path_of <$> changes) ++ f :: files).
    { intros g1 Hp. etrans; [by eapply IH|].
      apply sublist_app; [done|]. by apply sublist_cons. }
    destruct (re_search _ _ _) as [[|]|]; [| by apply Hskip | done].
    destruct (re_sub _ _ _ _) as [new|]; [|done].
    destruct (negb (is_valid_filename new)); [by apply Hskip|].
    destruct (bool_decide _); [by apply Hskip|].
    intros Hp. apply IH in Hp. rewrite fmap_app in Hp. cbn in Hp.
    by rewrite <- app_assoc in Hp.
Qed.

(** X18.  When the listing of the directory has no name twice and no
    name with a separator, the plan a preview computes renames no path
    twice, and each of its changes renames an entry of the listing that
    is a file: its path is the directory joined with its old name. *)
Theorem planned_files_are_listed_once (w : world) (g : gui)
    (plan : list change) (names : list str) :
  planned_by w g plan ->
  os_listdir w (strip (dir_var g)) = Some names ->
  NoDup names ->
  Forall (fun name => sep ∉ name) names ->
  NoDup (full_path_of <$> plan) /\
  Forall (fun c =>
            old_name_of c ∈ names /\
            full_path_of c = join (strip (dir_var g)) (old_name_of c) /\
            os_path_isfile w (full_path_of c) = true) plan.
Proof.
  intros Hp Hls Hnd Hsep.
  pose proof (planned_by_names w g plan Hp) as Hnames.
  destruct Hp as (files & info & Hf & _ & Hp).
  unfold collect_files in Hf. rewrite Hls in Hf. cbn in Hf.
  rewrite collect_loop in Hf. cbn in Hf. injection Hf as <-.
  set (d := strip (dir_var g)) in *.
  set (listed := filter (fun p => os_path_isfile w p = true)
                   (map (join d) names)) in *.
  rewrite Forall_forall in Hsep.
  assert (Hlisted : NoDup listed).
  { apply NoDup_filter, NoDup_fmap_2_strong; [|done].
    intros n1 n2 H1 H2 E. apply (f_equal basename) in E.
    by rewrite !basename_join in E by auto. }
  assert (Hsub : full_path_of <$> plan `sublist_of` sorted listed).
  { destruct (build_rule g info) as [mode|pattern replacement].
    - subst plan. apply case_changes_sources.
    - destruct Hp as [g0 Hp]. by apply apply_regex_loop_sources in Hp. }
  split.
  - eapply sublist_NoDup; [|exact Hsub].
    unfold sorted. by rewrite merge_sort_Permutation.
  - rewrite Forall_forall in Hnames. apply Forall_forall. intros c Hc.
    destruct (Hnames c Hc) as (Hold & _ & _).
    assert (Hin : full_path_of c ∈ listed).
    { assert (Hin : full_path_of c ∈ sorted listed).
      { eapply elem_of_sublist; [|exact Hsub]. by apply list_elem_of_fmap_2. }
      unfold sorted in Hin. by rewrite merge_sort_Permutation in Hin. }
    apply list_elem_of_filter in Hin as [Hfile Hin].
    apply list_elem_of_fmap in Hin as (name & Hpath & Hname).
    rewrite Hpath in Hfile.
    rewrite Hold, Hpath, basename_join by auto. done.
Qed.
End sources.

(* ===================================================================== *)
(** * Case conversion, again *)
(* ===================================================================== *)

Lemma upper_char_marks (c : ascii) :
  (c = extsep <-> upper_char c = extsep) /\ (c = sep <-> upper_char c = sep).
Proof. each_char c; vm_compute; repeat split; congruence. Qed.

Lemma lower_char_marks (c : ascii) :
  (c = extsep <-> lower_char c = extsep) /\ (c = sep <-> lower_char c = sep).
Proof. each_char c; vm_compute; repeat split; congruence. Qed.

Lemma upper_char_idemp (c : ascii) : upper_char (upper_char c) = upper_char c.
Proof. each_char c; reflexivity. Qed.

Lemma lower_char_idemp (c : ascii) : lower_char (lower_char c) = lower_char c.
Proof. each_char c; reflexivity. Qed.

Lemma find_last_marks (c : ascii) (p q : str) (i : nat) (acc : Z) :
  Forall2 (fun x y => x = c <-> y = c) p q ->
  find_last c p i acc = find_last c q i acc.
Proof.
  intros Hpq. revert i acc.
  induction Hpq as [|x y p q Hxy _ IH]; intros i acc; [done|].
  cbn [find_last]. rewrite IH.
  destruct (decide (x = c)) as [E|E], (decide (y = c)) as [E'|E'];
    try done; tauto.
Qed.

Lemma skip_leading_dots_marks (p q : str) (i j fuel : nat) :
  Forall2 (fun x y => x = extsep <-> y = extsep) p q ->
  skip_leading_dots p i j fuel = skip_leading_dots q i j fuel.
Proof.
  intros Hpq. revert i. induction fuel as [|fuel IH]; intros i; [done|].
  cbn [skip_leading_dots]. rewrite IH.
  destruct (i <? j); [|done].
  assert (Hi : p !! i = Some extsep <-> q !! i = Some extsep).
  { split; intros Hl.
    - destruct (Forall2_lookup_l _ _ _ _ _ Hpq Hl) as (y & Hy & Hxy).
      rewrite Hy. f_equal. by apply Hxy.
    - destruct (Forall2_lookup_r _ _ _ _ _ Hpq Hl) as (x & Hx & Hxy).
      rewrite Hx. f_equal. by apply Hxy. }
  destruct (decide (p !! i = Some extsep)) as [E|E].
  - rewrite !bool_decide_eq_true_2 by tauto. done.
  - rewrite !bool_decide_eq_false_2 by tauto. done.
Qed.

(** [splitext] cuts two such strings at the same place. *)
Lemma splitext_marks (p q : str) :
  same_marks p q -> length (splitext q).1 = length (splitext p).1.
Proof.
  intros Hpq. unfold splitext, rfind.
  assert (Hlen : length p = length q) by (by eapply Forall2_length).
  rewrite <- (find_last_marks sep p q), <- (find_last_marks extsep p q).
  - rewrite <- (skip_leading_dots_marks p q), Hlen.
    + destruct (_ && _); cbn [fst]; [|done].
      unfold slice_to. rewrite !length_take. lia.
    + eapply Forall2_impl; [exact Hpq|]. by intros x y [? _].
  - eapply Forall2_impl; [exact Hpq|]. by intros x y [? _].
  - eapply Forall2_impl; [exact Hpq|]. by intros x y [_ ?].
Qed.

Lemma splitext_take (p : str) :
  splitext p = (take (length (splitext p).1) p, drop (length (splitext p).1) p).
Proof.
  pose proof (splitext_app p) as Happ.
  destruct (splitext p) as [a b]. cbn [fst snd] in *. subst p.
  by rewrite take_app_length, drop_app_length.
Qed.

(** The name after a conversion that keeps dots and separators is cut
    where the name before was. *)
Lemma splitext_mapped (f : ascii -> ascii) (name : str) :
  (forall c, (c = extsep <-> f c = extsep) /\ (c = sep <-> f c = sep)) ->
  splitext (map f (splitext name).1 ++ (splitext name).2)
  = (map f (splitext name).1, (splitext name).2).
Proof.
  intros Hf.
  set (new := map f (splitext name).1 ++ (splitext name).2).
  assert (Hm : same_marks name new).
  { unfold same_marks, new. rewrite <- (splitext_app name) at 1.
    apply Forall2_app.
    - apply Forall2_fmap_r, Forall_Forall2_diag, Forall_forall.
      intros c _. apply Hf.
    - apply Forall_Forall2_diag, Forall_forall. by intros c _. }
  rewrite (splitext_take new), (splitext_marks name new Hm).
  unfold new.
  rewrite <- (length_map f) at 1 2.
  by rewrite take_app_length, drop_app_length.
Qed.

Lemma map_idemp (f : ascii -> ascii) (s : str) :
  (forall c, f (f c) = f c) -> map f (map f s) = map f s.
Proof. intros Hf. rewrite map_map. apply map_ext. intros c. apply Hf. Qed.

(** White space and words. *)
Lemma split_aux_word (w cur s : str) :
  forallb (fun c => negb (isspace c)) w = true ->
  split_aux cur (w ++ s) = split_aux (rev w ++ cur) s.
Proof.
  revert cur. induction w as [|c w IH]; intros cur Hw; [done|].
  cbn [forallb] in Hw. apply andb_true_iff in Hw as [Hc Hw].
  apply negb_true_iff in Hc. cbn [app split_aux]. rewrite Hc.
  rewrite IH by done. cbn [rev]. by rewrite <- app_assoc.
Qed.

Lemma rev_not_nil (w : str) : w ≠ [] -> rev w ≠ [].
Proof.
  intros Hne E. apply Hne. apply (f_equal (@rev ascii)) in E.
  by rewrite rev_involutive in E.
Qed.

Lemma split_aux_end (cur : str) : cur ≠ [] -> split_aux cur [] = [rev cur].
Proof. by destruct cur. Qed.

(** X20.  Camel Case on a stem without white space capitalizes it: the
    first character in upper case, all others in lower case. *)
Theorem camel_case_of_one_word (name : str) :
  forallb (fun c => negb (isspace c)) name = true ->
  transform_stem mode_camel name = capitalize name.
Proof.
  intros Hw. cbn [transform_stem]. unfold split.
  destruct name as [|c name]; [done|].
  rewrite <- (app_nil_r (c :: name)) at 1. rewrite split_aux_word by done.
  rewrite app_nil_r, split_aux_end by (by apply rev_not_nil).
  by rewrite rev_involutive.
Qed.

(** X21.  A file renamed as Convert to Uppercase or Convert to Lowercase
    plans is not planned by the same conversion again: its new name is
    cut by [splitext] where the old one was. *)
Theorem converted_name_is_not_converted_again (mode : transform_mode)
    (files : list str) (c : change) :
  mode ≠ mode_camel ->
  c ∈ case_changes mode files ->
  case_changes mode [target_path c] = [].
Proof.
  intros Hmode Hc.
  pose proof (case_changes_sound mode files) as Hall.
  rewrite Forall_forall in Hall. specialize (Hall c Hc).
  pose proof (case_planned_no_sep mode c Hall) as Hsep.
  destruct (target_path_in_directory c Hsep) as [_ Hb].
  destruct Hall as (_ & Hnew & _).
  unfold case_changes. cbn [foldl]. unfold case_change.
  rewrite Hb, Hnew.
  assert (Hcut : exists f : ascii -> ascii,
            (forall s, transform_stem mode s = map f s) /\
            (forall x, f (f x) = f x) /\
            (forall x, (x = extsep <-> f x = extsep) /\
                       (x = sep <-> f x = sep))).
  { destruct mode; [| |done].
    - exists upper_char. split; [done|]. split; [apply upper_char_idemp|].
      apply upper_char_marks.
    - exists lower_char. split; [done|]. split; [apply lower_char_idemp|].
      apply lower_char_marks. }
  destruct Hcut as (f & Hf & Hidemp & Hmarks).
  rewrite !Hf, (splitext_mapped f _ Hmarks), Hf, map_idemp by done.
  by rewrite bool_decide_eq_true_2.
Qed.

(* ===================================================================== *)
(** * What the window shows *)
(* ===================================================================== *)

Lemma filter_none {A} (P : A -> Prop) `{!forall x, Decision (P x)}
    (l : list A) :
  Forall (fun x => ~ P x) l -> filter P l = [].
Proof.
  induction 1 as [|x l Hx _ IH]; [done|].
  by rewrite filter_cons, decide_False.
Qed.

Lemma filter_all {A} (P : A -> Prop) `{!forall x, Decision (P x)}
    (l : list A) :
  Forall P l -> filter P l = l.
Proof.
  induction 1 as [|x l Hx _ IH]; [done|].
  by rewrite filter_cons, decide_True, IH.
Qed.

Lemma shown_lines (g : gui) :
  no_plan_shown g ->
  filter (fun l => shows_plan l = true) (output_text g) = [].
Proof.
  intros Hg. apply filter_none. eapply Forall_impl; [exact Hg|].
  intros l Hl. cbn beta in *. congruence.
Qed.

(** The end of a preview shows no plan, or shows the plan it stores and
    enables the button. *)
Lemma finish_preview_display (g : gui) :
  no_plan_shown g ->
  let g' := finish_preview g in
  no_plan_shown g' \/
  (filter (fun l => shows_plan l = true) (output_text g')
   = PreviewHeader (length (current_changes g'))
     :: plan_lines (current_changes g') /\
   rename_button g' = normal /\ current_collisions g' = ∅).
Proof.
  intros Hg. cbn zeta. unfold finish_preview.
  destruct (bool_decide (current_changes g = [])).
  { left. unfold no_plan_shown. cbn. apply Forall_app. split; [done|].
    by repeat constructor. }
  cbn [current_collisions set_current_collisions].
  destruct (decide (detect_collisions (current_changes g) = ∅)) as [E|E].
  - rewrite bool_decide_eq_true_2 by done. cbn [negb]. right.
    cbn [output_text current_changes rename_button current_collisions
         set_rename_button log_lines set_output_text set_current_collisions].
    split; [|done].
    rewrite filter_app, (shown_lines g Hg), app_nil_l, filter_app.
    rewrite !filter_cons, filter_nil.
    rewrite decide_False by done. rewrite decide_True by done.
    rewrite decide_False by done. cbn [app]. f_equal.
    apply filter_all. unfold plan_lines. apply Forall_forall.
    intros l (c & -> & _)%list_elem_of_fmap. done.
  - rewrite bool_decide_eq_false_2 by done. cbn [negb]. left.
    unfold no_plan_shown. cbn. apply Forall_app. split; [done|].
    repeat constructor. apply Forall_app. split; [|by repeat constructor].
    apply collision_report_no_plan.
Qed.

Section display.
Context `{Re} {world : Type} `{OS world}.

(** X14.  After a preview the output either shows no plan, or shows the
    plan that is stored, one line for each change in its order under a
    header with their number, and then the rename button is enabled and no
    collision is stored. *)
Theorem displayed_plan_is_the_stored_plan (w : world) (g : gui) :
  let g' := preview_changes w g in
  no_plan_shown g' \/
  (filter (fun l => shows_plan l = true) (output_text g')
   = PreviewHeader (length (current_changes g'))
     :: plan_lines (current_changes g') /\
   rename_button g' = normal /\ current_collisions g' = ∅).
Proof.
  cbn zeta. unfold preview_changes.
  destruct (_ || _); [left; constructor|].
  destruct (assoc _ _) as [info|]; [|left; constructor].
  destruct (collect_files _ _ _) as [files|]; [|left; constructor].
  destruct (bool_decide (files = [])); [left; by repeat constructor|].
  set (g1 := log_output _ _).
  assert (Hout1 : no_plan_shown g1) by (by repeat constructor).
  destruct (build_rule _ _) as [mode|pattern replacement].
  - by apply finish_preview_display.
  - destruct (negb _); [by left|].
    pose proof (apply_regex_loop_output files pattern replacement 0%Z [] g1
                  Hout1) as Ho.
    unfold apply_regex.
    destruct (apply_regex_loop _ _ _ _ _ _) as [g2 [changes|]];
      cbn [fst snd] in *; [|by left].
    destruct (_ && _).
    + left. unfold no_plan_shown. cbn. apply Forall_app. split; [done|].
      by repeat constructor.
    + by apply finish_preview_display.
Qed.

(** The loop of [rename_files] leaves in [dir_path] the directory of the
    last change. *)
Lemma rename_loop_dir (changes : list change) (r : @run world) :
  run_dir_path (foldl rename_one r changes) =
    match last changes with
    | Some c => dirname (full_path_of c)
    | None => run_dir_path r
    end.
Proof.
  revert r. induction changes as [|c changes IH]; intros r; [done|].
  cbn [foldl]. rewrite IH. destruct changes as [|c' changes]; cbn [last].
  - destruct c as [[full_path old] new]. unfold rename_one.
    by destruct (os_rename _ _ _).
  - destruct (last (c' :: changes)) eqn:El; [done|].
    by apply last_None in El.
Qed.

(** X25.  The rollback log of a run is written in the directory of the
    last change of the plan, under a name made of [.rename_log_], a time
    stamp and [.json]. *)
Theorem rollback_log_is_written_beside_the_last_file (w : world) (g : gui)
    (log_file : str) (entries : list log_entry) (ok : bool) :
  (log_file, entries, ok) ∈ log_writes (rename_files true w g).2 ->
  exists c stamp,
    last (current_changes g) = Some c /\
    log_file = join (dirname (full_path_of c))
                 (".rename_log_" ++ stamp ++ ".json").
Proof.
  unfold rename_files.
  destruct (bool_decide (current_changes g = [])) eqn:Ec;
    [by intros ?%elem_of_nil|].
  destruct (negb _); [by intros ?%elem_of_nil|].
  cbn [snd]. fold (asked g). unfold execute.
  set (g1 := log_lines _ (clear_output (asked g))).
  unfold rename_all. change (current_changes g1) with (current_changes g).
  destruct (rename_loop_done (current_changes g) (Run w g1 0 0 [] []))
    as [oks [_ Hcalls _ _ _ _ _]].
  pose proof (rename_loop_dir (current_changes g) (Run w g1 0 0 [] [])) as Hdir.
  set (r1 := foldl rename_one _ _) in *. cbn [run_calls app] in Hcalls.
  apply bool_decide_eq_false in Ec.
  destruct (last (current_changes g)) as [c|] eqn:El;
    [|by apply last_None in El].
  destruct (0 <? success_count (summarize r1)).
  - unfold save_rollback_log.
    destruct (write_json _ _ _); cbn [run_calls summarize];
      rewrite log_writes_app, Hcalls, log_writes_attempts, app_nil_l;
      intros Hin%list_elem_of_singleton; injection Hin as -> _ _;
      exists c, (now_strftime (run_world r1)); by rewrite Hdir.
  - cbn [run_calls summarize]. rewrite Hcalls, log_writes_attempts.
    by intros ?%elem_of_nil.
Qed.


End display.

(* ===================================================================== *)
(** * A preview made twice *)
(* ===================================================================== *)

Ltac fields :=
  cbn [dir_var pattern_var replacement_var replace_with_var rename_log
       current_changes current_collisions rename_button output_text dialogs
       set_rename_log set_current_changes set_current_collisions
       set_rename_button set_output_text set_dialogs log_output log_lines
       clear_output show_dialog default].

Section again.
Context `{Re} {world : Type} `{OS world}.

(** The warnings of [apply_regex] and its result do not depend on the
    object. *)
Lemma apply_regex_loop_shape (files : list str) (pattern replacement : str)
    (flags : Z) (changes : list change) :
  exists ws res, forall g,
    apply_regex_loop files pattern replacement flags changes g
    = (set_output_text (output_text g ++ ws) g, res).
Proof.
  revert changes. induction files as [|f files IH]; intros changes.
  - exists [], (Some changes). intros g. cbn [apply_regex_loop].
    rewrite app_nil_r. by destruct g.
  - cbn [apply_regex_loop].
    destruct (re_search _ _ _) as [[|]|].
    + destruct (re_sub _ _ _ _) as [new|].
      * destruct (negb (is_valid_filename new)).
        -- destruct (IH changes) as (ws & res & Hg).
           exists (SkippingIllegal (basename f) :: ws), res. intros g.
           rewrite Hg. cbn. by rewrite <- app_assoc.
        -- destruct (bool_decide _); apply IH.
      * exists [], None. intros g. rewrite app_nil_r. by destruct g.
    + apply IH.
    + exists [], None. intros g. rewrite app_nil_r. by destruct g.
Qed.

Lemma finish_preview_updated (g : gui) :
  exists kk bb ws,
    forall g', current_changes g' = current_changes g ->
      finish_preview g'
      = updated None kk (Some bb) (output_text g' ++ ws) [] g'.
Proof.
  destruct (bool_decide (current_changes g = [])) eqn:Ec.
  - exists None, disabled, [NoFileMatches; TryAdjusting]. intros g' Hg'.
    destruct g' as [d p r rw lg cc' kk' b' o ds']. cbn in Hg'. subst cc'.
    unfold finish_preview, updated. fields. rewrite Ec. fields.
    by rewrite app_nil_r.
  - destruct (negb (bool_decide (detect_collisions (current_changes g) = ∅)))
      eqn:Ek.
    + exists (Some (detect_collisions (current_changes g))), disabled,
             ([SameNameWarning; RenamingStopped] ++
              collision_report (detect_collisions (current_changes g)) ++
              [PleaseAdjust]).
      intros g' Hg'.
      destruct g' as [d p r rw lg cc' kk' b' o ds']. cbn in Hg'. subst cc'.
      unfold finish_preview, updated. fields. rewrite Ec. fields.
      rewrite Ek. fields. by rewrite app_nil_r.
    + exists (Some (detect_collisions (current_changes g))), normal,
             ([RuleLine; PreviewHeader (length (current_changes g)); RuleLine]
              ++ plan_lines (current_changes g)).
      intros g' Hg'.
      destruct g' as [d p r rw lg cc' kk' b' o ds']. cbn in Hg'. subst cc'.
      unfold finish_preview, updated. fields. rewrite Ec. fields.
      rewrite Ek. fields. by rewrite app_nil_r.
Qed.

(** A preview is an update that the entries and the machine determine. *)
Lemma preview_changes_updated (w : world) (g : gui) :
  exists cc kk bb out ds,
    forall g', same_entries g g' ->
      preview_changes w g' = updated cc kk bb out ds g'.
Proof.
  destruct (bool_decide (strip (dir_var g) = []) ||
            negb (os_path_isdir w (strip (dir_var g)))) eqn:Edir.
  { exists None, None, None, [], [ErrorInvalidDirectory].
    intros g' (Hd & _). unfold preview_changes.
    change (dir_var (clear_output g')) with (dir_var g').
    rewrite Hd, Edir. by destruct g'. }
  destruct (assoc (pattern_var g) patterns) as [info|] eqn:Ea.
  2:{ exists None, None, None, [], []. intros g' (Hd & Hp & _).
      unfold preview_changes.
      change (dir_var (clear_output g')) with (dir_var g').
      change (pattern_var (clear_output g')) with (pattern_var g').
      rewrite Hd, Hp, Edir, Ea. unfold updated. rewrite app_nil_r.
      by destruct g'. }
  destruct (collect_files w (strip (dir_var g)) false) as [files|] eqn:Ef.
  2:{ exists None, None, None, [], []. intros g' (Hd & Hp & _).
      unfold preview_changes.
      change (dir_var (clear_output g')) with (dir_var g').
      change (pattern_var (clear_output g')) with (pattern_var g').
      rewrite Hd, Hp, Edir, Ea, Ef. unfold updated. rewrite app_nil_r.
      by destruct g'. }
  destruct (bool_decide (files = [])) eqn:Eempty.
  { exists None, None, (Some disabled), [NoFilesInFolder; ChooseOtherFolder], [].
    intros g' (Hd & Hp & _). unfold preview_changes.
    change (dir_var (clear_output g')) with (dir_var g').
    change (pattern_var (clear_output g')) with (pattern_var g').
    rewrite Hd, Hp, Edir, Ea, Ef, Eempty. unfold updated. rewrite app_nil_r.
    by destruct g'. }
  destruct (build_rule g info) as [mode|pattern replacement] eqn:Er.
  - destruct (finish_preview_updated
                (set_current_changes (case_changes mode files) g))
      as (kk & bb & ws & Hfin).
    exists (Some (case_changes mode files)), kk, (Some bb),
           ([FoundFiles (length files)] ++ ws), [].
    intros g' Hs. pose proof Hs as (Hd & Hp & _). unfold preview_changes.
    change (dir_var (clear_output g')) with (dir_var g').
    change (pattern_var (clear_output g')) with (pattern_var g').
    rewrite Hd, Hp, Edir, Ea, Ef, Eempty.
    rewrite (build_rule_entries g (clear_output g') info), Er
      by (destruct Hs as (?&?&?&?); by repeat split).
    rewrite Hfin by done. unfold updated. cbn. destruct kk; by destruct g'.
  - destruct (re_compile pattern) eqn:Ecomp.
    2:{ exists None, None, None, [FoundFiles (length files)], [ErrorRegex].
        intros g' Hs. pose proof Hs as (Hd & Hp & _). unfold preview_changes.
        change (dir_var (clear_output g')) with (dir_var g').
        change (pattern_var (clear_output g')) with (pattern_var g').
        rewrite Hd, Hp, Edir, Ea, Ef, Eempty.
        rewrite (build_rule_entries g (clear_output g') info), Er
          by (destruct Hs as (?&?&?&?); by repeat split).
        rewrite Ecomp. by destruct g'. }
    destruct (apply_regex_loop_shape files pattern replacement 0%Z [])
      as (ws & res & Hloop).
    destruct res as [changes|].
    2:{ exists None, None, None, ([FoundFiles (length files)] ++ ws), [].
        intros g' Hs. pose proof Hs as (Hd & Hp & _). unfold preview_changes.
        change (dir_var (clear_output g')) with (dir_var g').
        change (pattern_var (clear_output g')) with (pattern_var g').
        rewrite Hd, Hp, Edir, Ea, Ef, Eempty.
        rewrite (build_rule_entries g (clear_output g') info), Er
          by (destruct Hs as (?&?&?&?); by repeat split).
        rewrite Ecomp. unfold apply_regex. rewrite Hloop.
        unfold updated. cbn. rewrite app_nil_r. by destruct g'. }
    destruct ((bool_decide (pattern_var g = "Replace Spaces with Underscores")
               || bool_decide (pattern_var g = "Replace Spaces with Hyphens"))
              && negb (existsb (fun f => contains_char " "%char (basename f))
                         files)) eqn:Espaces.
    + exists (Some changes), None, (Some disabled),
             ([FoundFiles (length files)] ++ ws
              ++ [NoSpacesInNames; NothingToReplace]), [].
      intros g' Hs. pose proof Hs as (Hd & Hp & _). unfold preview_changes.
      change (dir_var (clear_output g')) with (dir_var g').
      change (pattern_var (clear_output g')) with (pattern_var g').
      rewrite Hd, Hp, Edir, Ea, Ef, Eempty.
      rewrite (build_rule_entries g (clear_output g') info), Er
        by (destruct Hs as (?&?&?&?); by repeat split).
      rewrite Ecomp. unfold apply_regex. rewrite Hloop. cbn [negb].
      rewrite Espaces. unfold updated. cbn. rewrite app_nil_r.
      by destruct g'.
    + destruct (finish_preview_updated (set_current_changes changes g))
        as (kk & bb & ws' & Hfin).
      exists (Some changes), kk, (Some bb),
             (([FoundFiles (length files)] ++ ws) ++ ws'), [].
      intros g' Hs. pose proof Hs as (Hd & Hp & _). unfold preview_changes.
      change (dir_var (clear_output g')) with (dir_var g').
      change (pattern_var (clear_output g')) with (pattern_var g').
      rewrite Hd, Hp, Edir, Ea, Ef, Eempty.
      rewrite (build_rule_entries g (clear_output g') info), Er
        by (destruct Hs as (?&?&?&?); by repeat split).
      rewrite Ecomp. unfold apply_regex. rewrite Hloop. cbn [negb].
      rewrite Espaces. rewrite Hfin by done.
      unfold updated. cbn. destruct kk; by destruct g'.
Qed.

(** X15.  A second preview on the same machine leaves the object as the
    first one left it, apart from the message boxes shown. *)
Theorem preview_again_changes_nothing (w : world) (g : gui) :
  let g1 := preview_changes w g in
  set_dialogs (dialogs g1) (preview_changes w g1) = g1.
Proof.
  cbn zeta.
  destruct (preview_changes_updated w g) as (cc & kk & bb & out & ds & Hup).
  pose proof (preview_changes_entries w g) as Hs.
  rewrite (Hup _ Hs).
  rewrite (Hup g) by (by repeat split).
  unfold updated, set_dialogs. cbn.
  destruct cc, kk, bb; reflexivity.
Qed.
End again.


(* ===================================================================== *)
(** * The sessions *)
(* ===================================================================== *)

Import Sessions.
#[local] Existing Instance fragment_only.

Lemma reachable_session es m :
  reachable (session es m).1.1 (session es m).1.2.
Proof. apply reachable_run_events, reachable_initial. Qed.

(** What the sessions leave, by computation. *)
Lemma spaces_plan :
  current_changes spaces_previewed.1.2
  = [("d/a b.txt" : str, "a b.txt" : str, "a_b.txt" : str);
     ("d/c d.txt" : str, "c d.txt" : str, "c_d.txt" : str)] /\
  current_collisions spaces_previewed.1.2 = ∅ /\
  spaces_previewed.1.1 = spaces_later.
Proof. vm_compute. repeat split; reflexivity. Qed.


Lemma tabs_plan :
  let a_tab_b : str := ("a" : str) ++ [tab] ++ ("b.txt" : str) in
  let a_tabs_b : str := ("a" : str) ++ [tab; tab] ++ ("b.txt" : str) in
  current_changes tabs_previewed.1.2
  = [(("d/" : str) ++ a_tabs_b, a_tabs_b, "a_b.txt" : str);
     (("d/" : str) ++ a_tab_b, a_tab_b, "a_b.txt" : str)] /\
  detect_collisions (current_changes tabs_previewed.1.2)
    !! ("d/a_b.txt" : str)
  = Some [a_tabs_b; a_tab_b] /\
  current_collisions tabs_previewed.1.2 = ∅ /\
  rename_button tabs_previewed.1.2 = disabled /\
  output_text tabs_previewed.1.2
  = [FoundFiles 2; NoSpacesInNames; NothingToReplace] /\
  renames (rename_files true tabs_previewed.1.1 tabs_previewed.1.2).2
  = [(("d/" : str) ++ a_tabs_b, "d/a_b.txt" : str, true);
     (("d/" : str) ++ a_tab_b, "d/a_b.txt" : str, true)] /\
  entry_names <$>
    rename_log (rename_files true tabs_previewed.1.1 tabs_previewed.1.2).1.2
  = [(a_tabs_b, "a_b.txt" : str); (a_tab_b, "a_b.txt" : str)] /\
  rename_log tabs_previewed.1.2 = [] /\
  Toy.files (rename_files true tabs_previewed.1.1 tabs_previewed.1.2).1.1
  = ["d/.rename_log_20240115_103000.json" : str; "d/a_b.txt" : str].
Proof. vm_compute. repeat split; reflexivity. Qed.

Lemma versions_plan :
  pattern_var versions_previewed.1.2 = "Remove Text" /\
  strip (replacement_var versions_previewed.1.2) = "[v1.0]" /\
  current_changes versions_previewed.1.2
  = [("d/app[v1.0].zip" : str, "app[v1.0].zip" : str, "app.zip" : str)].
Proof. vm_compute. repeat split; reflexivity. Qed.

Lemma home_plan :
  pattern_var home_previewed.1.2 = "Convert to Uppercase" /\
  case_preset (pattern_var home_previewed.1.2) = Some mode_upper /\
  current_changes home_previewed.1.2
  = [("d/.bashrc" : str, ".bashrc" : str, ".BASHRC" : str);
     ("d/archive.tar.gz" : str, "archive.tar.gz" : str,
      "ARCHIVE.TAR.gz" : str);
     ("d/what?.txt" : str, "what?.txt" : str, "WHAT?.txt" : str)] /\
  rename_button home_previewed.1.2 = normal /\
  output_text home_previewed.1.2
  = [FoundFiles 3; RuleLine; PreviewHeader 3; RuleLine;
     PlanLine ".bashrc" ".BASHRC";
     PlanLine "archive.tar.gz" "ARCHIVE.TAR.gz";
     PlanLine "what?.txt" "WHAT?.txt"].
Proof. vm_compute. repeat split; reflexivity. Qed.

Lemma key_not_empty (m : gmap str (list str)) (k : str) (v : list str) :
  m !! k = Some v -> m ≠ ∅.
Proof. intros Hk ->. by rewrite lookup_empty in Hk. Qed.

(** The names in [d] on the first machine; three are files. *)
Lemma collect_files_spec_witness :
  os_listdir spaces "d"
  = Some ["c d.txt" : str; "a b.txt" : str; "e.txt" : str; "sub" : str] /\
  collect_files spaces "d" true = collect_files spaces "d" false.
Proof.
  assert (Hls : os_listdir spaces "d"
            = Some ["c d.txt" : str; "a b.txt" : str; "e.txt" : str;
                    "sub" : str]) by (vm_compute; reflexivity).
  split; [exact Hls|].
  destruct (collect_files_spec spaces "d" _ true Hls)
    as (files & _ & _ & _ & _ & E).
  exact E.
Defined.

Lemma apply_regex_spec_witness :
  (forall f, f ∈ four_files ->
     re_search "\d+" (basename f) 0 = Some (has_number (basename f))) /\
  (forall f, f ∈ four_files -> has_number (basename f) = true ->
     re_sub "\d+" [] (basename f) 0 = Some (without_numbers (basename f))) /\
  (apply_regex four_files "\d+" [] 0 initial).2
  = Some [("d/a1.txt" : str, "a1.txt" : str, "a.txt" : str);
          ("d/9d.txt" : str, "9d.txt" : str, "d.txt" : str)].
Proof.
  assert (H1 : forall f, f ∈ four_files ->
            re_search "\d+" (basename f) 0 = Some (has_number (basename f))).
  { intros f Hf. unfold four_files in Hf.
    repeat (apply elem_of_cons in Hf as [->|Hf]; [vm_compute; reflexivity|]).
    by apply elem_of_nil in Hf. }
  assert (H2 : forall f, f ∈ four_files -> has_number (basename f) = true ->
            re_sub "\d+" [] (basename f) 0
            = Some (without_numbers (basename f))).
  { intros f Hf _. unfold four_files in Hf.
    repeat (apply elem_of_cons in Hf as [->|Hf]; [vm_compute; reflexivity|]).
    by apply elem_of_nil in Hf. }
  split; [exact H1|]. split; [exact H2|].
  rewrite (apply_regex_spec four_files "\d+" [] 0 initial
             has_number without_numbers H1 H2).
  vm_compute. reflexivity.
Defined.

Lemma spaces_plan_not_empty : current_changes spaces_previewed.1.2 ≠ [].
Proof. destruct spaces_plan as (-> & _). discriminate. Qed.

Lemma spaces_plan_no_collision : current_collisions spaces_previewed.1.2 = ∅.
Proof. by destruct spaces_plan as (_ & -> & _). Qed.




Lemma executed_plan_is_dropped_witness :
  current_changes spaces_previewed.1.2 ≠ [] /\
  current_collisions spaces_previewed.1.2 = ∅ /\
  rename_button (rename_files true spaces_later spaces_previewed.1.2).1.2
  = disabled /\
  (run_events [ClickRename true; ClickClear; ClickRename true] spaces_later
     (rename_files true spaces_later spaces_previewed.1.2).1.2).2 = [].
Proof.
  split; [exact spaces_plan_not_empty|].
  split; [exact spaces_plan_no_collision|].
  destruct (executed_plan_is_dropped spaces_later spaces_previewed.1.2
              spaces_plan_not_empty spaces_plan_no_collision)
    as (_ & _ & Hb & Hrun).
  split; [exact Hb|]. apply Hrun.
  repeat (apply not_elem_of_cons; split; [discriminate|]).
  apply not_elem_of_nil.
Defined.


(** The guard of [rename_files] reads the collisions that are stored.
    The state that the preview of the names with tabs leaves has a plan
    with a collision and none stored, and its button is disabled; were
    [rename_files] called there by other code than the button, it would
    run both renames, the second over the result of the first, and log
    them. *)
Lemma stale_collisions_let_renames_run :
  let w := tabs_previewed.1.1 in
  let g := tabs_previewed.1.2 in
  let a_tab_b : str := ("a" : str) ++ [tab] ++ ("b.txt" : str) in
  let a_tabs_b : str := ("a" : str) ++ [tab; tab] ++ ("b.txt" : str) in
  reachable w g /\
  detect_collisions (current_changes g) ≠ ∅ /\
  rename_button g = disabled /\
  renames (rename_files true w g).2
  = [(("d/" : str) ++ a_tabs_b, "d/a_b.txt" : str, true);
     (("d/" : str) ++ a_tab_b, "d/a_b.txt" : str, true)] /\
  rename_log (rename_files true w g).1.2 ≠ rename_log g.
Proof.
  destruct tabs_plan as (_ & Hd & _ & Hb & _ & Hren & Hlog & Hlog0 & _).
  cbv zeta. split; [apply reachable_session|]. split; [|split; [|split]].
  - by eapply key_not_empty.
  - exact Hb.
  - exact Hren.
  - intros E. rewrite E, Hlog0 in Hlog. discriminate Hlog.
Qed.

(** A version in brackets is removed as it is written; the name in
    which other characters stand at the place of the dot and the brackets
    is left alone. *)
Lemma escaped_text_is_literal_witness :
  reachable versions_previewed.1.1 versions_previewed.1.2 /\
  pattern_var versions_previewed.1.2 = "Remove Text" /\
  forall c, c ∈ current_changes versions_previewed.1.2 ->
    new_name_of c
    = str_replace (strip (replacement_var versions_previewed.1.2)) []
        (old_name_of c).
Proof.
  assert (Hr : reachable versions_previewed.1.1 versions_previewed.1.2)
    by apply reachable_session.
  destruct versions_plan as (Hp & _).
  split; [exact Hr|]. split; [exact Hp|].
  intros c Hc.
  destruct (escaped_text_is_literal _ _ Hr) as (_ & Hrem & _).
  destruct (Hrem Hp c Hc) as [_ Hnew]. exact Hnew.
Defined.

Lemma case_conversion_keeps_extension_witness :
  reachable home_previewed.1.1 home_previewed.1.2 /\
  case_preset (pattern_var home_previewed.1.2) = Some mode_upper /\
  forall c, c ∈ current_changes home_previewed.1.2 ->
    new_name_of c
    = upper (splitext (old_name_of c)).1 ++ (splitext (old_name_of c)).2.
Proof.
  assert (Hr : reachable home_previewed.1.1 home_previewed.1.2)
    by apply reachable_session.
  destruct home_plan as (_ & Hp & _).
  split; [exact Hr|]. split; [exact Hp|].
  intros c Hc.
  destruct (case_conversion_keeps_extension _ _ _ Hr Hp c Hc)
    as (_ & Hnew & _).
  exact Hnew.
Defined.

(** The dot file: its name is the stem for [splitext] and is converted
    as a whole, while a cut at the last dot makes the whole name the
    extension. *)
Lemma dot_file_is_converted :
  let g := home_previewed.1.2 in
  let c : change := ("d/.bashrc" : str, ".bashrc" : str, ".BASHRC" : str) in
  reachable home_previewed.1.1 g /\
  case_preset (pattern_var g) = Some mode_upper /\
  c ∈ current_changes g /\
  split_last_dot (old_name_of c) = ([], ".bashrc" : str) /\
  new_name_of c ≠
    transform_stem mode_upper (split_last_dot (old_name_of c)).1
    ++ (split_last_dot (old_name_of c)).2 /\
  (split_last_dot (new_name_of c)).2 ≠ (split_last_dot (old_name_of c)).2.
Proof.
  destruct home_plan as (_ & Hp & Hplan & _).
  cbv zeta. split; [apply reachable_session|]. split; [exact Hp|].
  split; [rewrite Hplan; left|].
  split; [vm_compute; reflexivity|].
  split; vm_compute; discriminate.
Qed.

(** C4 at a name with a question mark, under Convert to Uppercase: the
    preview stores a plan whose new name keeps the question mark, shows
    it and enables the rename button; the check that [apply_regex] makes
    refuses that name. *)
Theorem case_conversion_plans_illegal_name :
  let g := home_previewed.1.2 in
  let c : change :=
    ("d/what?.txt" : str, "what?.txt" : str, "WHAT?.txt" : str) in
  reachable home_previewed.1.1 g /\
  pattern_var g = "Convert to Uppercase" /\
  c ∈ current_changes g /\
  rename_button g = normal /\
  PlanLine (old_name_of c) (new_name_of c) ∈ output_text g /\
  is_valid_filename (new_name_of c) = false /\
  ~ legal_name (new_name_of c).
Proof.
  destruct home_plan as (Hp & _ & Hplan & Hb & Hout).
  cbv zeta. split; [apply reachable_session|]. split; [exact Hp|].
  split.
  { rewrite Hplan. do 2 apply list_elem_of_further. apply list_elem_of_here. }
  split; [exact Hb|]. split.
  { rewrite Hout. do 6 apply list_elem_of_further. apply list_elem_of_here. }
  assert (Hv : is_valid_filename "WHAT?.txt" = false)
    by (vm_compute; reflexivity).
  split; [exact Hv|].
  intros Hl. apply is_valid_filename_spec in Hl.
  discriminate (eq_trans (eq_sym Hl) Hv).
Qed.

(* ===================================================================== *)
(** * The further properties on examples *)
(* ===================================================================== *)

Import Samples.

Ltac by_computation :=
  match goal with
  | |- ?P => apply (@bool_decide_unpack P _); vm_compute; exact I
  end.

Lemma remove_numbers_deletes_digits_witness :
  pattern_var (chosen "Remove Numbers") = "Remove Numbers" /\
  build_rule (chosen "Remove Numbers") None = Substitute "\d+" [] /\
  re_compile "\d+" = true /\
  (apply_regex four_files "\d+" [] 0 initial).2
  = Some (plan_of (existsb is_digit)
            (filter (fun c => is_digit c = false)) four_files).
Proof.
  split; [reflexivity|].
  apply (remove_numbers_deletes_digits (chosen "Remove Numbers")).
  reflexivity.
Defined.

Lemma replace_spaces_replaces_runs_witness :
  let g := chosen "Replace Spaces with Hyphens" in
  (pattern_var g = "Replace Spaces with Underscores" \/
   pattern_var g = "Replace Spaces with Hyphens") /\
  build_rule g None = Substitute "\s+" "-" /\
  re_compile "\s+" = true /\
  (apply_regex four_files "\s+" "-" 0 initial).2
  = Some (plan_of (existsb isspace) (replace_runs isspace "-" false)
            four_files).
Proof.
  cbv zeta. split; [right; reflexivity|].
  apply (replace_spaces_replaces_runs (chosen "Replace Spaces with Hyphens")).
  right. reflexivity.
Defined.

Lemma remove_extra_spaces_deletes_white_space_witness :
  let g := chosen "Remove Extra Spaces" in
  pattern_var g = "Remove Extra Spaces" /\
  assoc (pattern_var g) patterns = Some (Some ("\s+" : str)) /\
  build_rule g (Some ("\s+" : str)) = Substitute "\s+" [] /\
  re_compile "\s+" = true /\
  (apply_regex four_files "\s+" [] 0 initial).2
  = Some (plan_of (existsb isspace)
            (filter (fun c => isspace c = false)) four_files).
Proof.
  cbv zeta. split; [reflexivity|]. split; [reflexivity|].
  apply (remove_extra_spaces_deletes_white_space
           (chosen "Remove Extra Spaces")); reflexivity.
Defined.

Lemma remove_special_keeps_plain_characters_witness :
  let g := chosen "Remove Special Characters" in
  pattern_var g = "Remove Special Characters" /\
  assoc (pattern_var g) patterns
  = Some (Some ("[^a-zA-Z0-9._\-\s]" : str)) /\
  build_rule g (Some ("[^a-zA-Z0-9._\-\s]" : str))
  = Substitute "[^a-zA-Z0-9._\-\s]" [] /\
  re_compile "[^a-zA-Z0-9._\-\s]" = true /\
  (apply_regex four_files "[^a-zA-Z0-9._\-\s]" [] 0 initial).2
  = Some (plan_of (existsb (fun c => negb (kept_char c)))
            (filter (fun c => kept_char c = true)) four_files).
Proof.
  cbv zeta. split; [reflexivity|]. split; [reflexivity|].
  apply (remove_special_keeps_plain_characters
           (chosen "Remove Special Characters")); reflexivity.
Defined.

Lemma extract_numbers_keeps_digits_witness :
  let g := chosen "Extract Numbers Only" in
  pattern_var g = "Extract Numbers Only" /\
  assoc (pattern_var g) patterns = Some (Some ("[^\d]" : str)) /\
  build_rule g (Some ("[^\d]" : str)) = Substitute "[^\d]" [] /\
  re_compile "[^\d]" = true /\
  (apply_regex four_files "[^\d]" [] 0 initial).2
  = Some (plan_of (existsb (fun c => negb (is_digit c)))
            (filter (fun c => is_digit c = true)) four_files).
Proof.
  cbv zeta. split; [reflexivity|]. split; [reflexivity|].
  apply (extract_numbers_keeps_digits (chosen "Extract Numbers Only"));
    reflexivity.
Defined.

Lemma add_prefix_prepends_witness :
  let g := typed "Add Prefix" " new_ " in
  let prefix := strip (replacement_var g) in
  pattern_var g = "Add Prefix" /\
  (Sre.backslash ∉ prefix) /\
  Forall (fun f => Sre.newline ∉ basename f) four_files /\
  build_rule g None = Substitute "^(.*)$" (prefix ++ "\1") /\
  re_compile "^(.*)$" = true /\
  (apply_regex four_files "^(.*)$" (prefix ++ "\1") 0 initial).2
  = Some (plan_of (fun _ => true) (fun name => prefix ++ name) four_files).
Proof.
  cbv zeta.
  assert (H1 : Sre.backslash
               ∉ strip (replacement_var (typed "Add Prefix" " new_ ")))
    by by_computation.
  assert (H2 : Forall (fun f => Sre.newline ∉ basename f) four_files)
    by by_computation.
  split; [reflexivity|]. split; [exact H1|]. split; [exact H2|].
  apply (add_prefix_prepends (typed "Add Prefix" " new_ "));
    [reflexivity|exact H1|exact H2].
Defined.

Lemma add_suffix_goes_before_the_extension_witness :
  let g := typed "Add Suffix Before Extension" "_v2" in
  let sfx := strip (replacement_var g) in
  pattern_var g = "Add Suffix Before Extension" /\
  (Sre.backslash ∉ sfx) /\
  Forall (fun f => Sre.newline ∉ basename f) four_files /\
  build_rule g None
  = Substitute "^(.*?)(\.[\w]+)$" ("\1" ++ sfx ++ "\2") /\
  re_compile "^(.*?)(\.[\w]+)$" = true /\
  (apply_regex four_files "^(.*?)(\.[\w]+)$" ("\1" ++ sfx ++ "\2") 0
     initial).2
  = Some (plan_of has_extension (insert_suffix sfx) four_files).
Proof.
  cbv zeta.
  assert (H1 : Sre.backslash
               ∉ strip (replacement_var
                          (typed "Add Suffix Before Extension" "_v2")))
    by by_computation.
  assert (H2 : Forall (fun f => Sre.newline ∉ basename f) four_files)
    by by_computation.
  split; [reflexivity|]. split; [exact H1|]. split; [exact H2|].
  apply (add_suffix_goes_before_the_extension
           (typed "Add Suffix Before Extension" "_v2"));
    [reflexivity|exact H1|reflexivity|exact H2].
Defined.

Lemma add_suffix_with_leading_digit_raises_witness :
  let g := typed "Add Suffix Before Extension" "2" in
  let sfx := strip (replacement_var g) in
  pattern_var g = "Add Suffix Before Extension" /\
  sfx = ["2"%char] /\
  is_digit "2" = true /\
  Exists (fun f => (Sre.newline ∉ basename f) /\
                   has_extension (basename f) = true) four_files /\
  build_rule g None
  = Substitute "^(.*?)(\.[\w]+)$" ("\1" ++ sfx ++ "\2") /\
  re_compile "^(.*?)(\.[\w]+)$" = true /\
  (apply_regex four_files "^(.*?)(\.[\w]+)$" ("\1" ++ sfx ++ "\2") 0
     initial).2
  = None.
Proof.
  cbv zeta.
  assert (H1 : Exists (fun f => (Sre.newline ∉ basename f) /\
                                has_extension (basename f) = true) four_files).
  { apply Exists_cons_hd. split; [by_computation|reflexivity]. }
  split; [reflexivity|]. split; [reflexivity|]. split; [reflexivity|].
  split; [exact H1|].
  apply (add_suffix_with_leading_digit_raises
           (typed "Add Suffix Before Extension" "2") None four_files initial
           "2"%char []); [reflexivity|reflexivity|reflexivity|exact I|exact H1].
Defined.

Lemma replace_text_with_trailing_backslash_raises_witness :
  let g := typed_both "Replace Text" "a" "x\" in
  let pattern := re_escape (strip (replacement_var g)) in
  let replacement := strip (replace_with_var g) in
  pattern_var g = "Replace Text" /\
  replacement = ("x" : str) ++ [Sre.backslash] /\
  (Sre.backslash ∉ ("x" : str)) /\
  Exists (fun f => str_in (strip (replacement_var g)) (basename f) = true)
    four_files /\
  build_rule g None = Substitute pattern replacement /\
  re_compile pattern = true /\
  (apply_regex four_files pattern replacement 0 initial).2 = None.
Proof.
  cbv zeta.
  assert (H1 : Sre.backslash ∉ ("x" : str)) by by_computation.
  assert (H2 : Exists
                 (fun f =>
                    str_in (strip (replacement_var
                                     (typed_both "Replace Text" "a" "x\")))
                      (basename f) = true) four_files).
  { apply Exists_cons_hd. reflexivity. }
  split; [reflexivity|]. split; [reflexivity|]. split; [exact H1|].
  split; [exact H2|].
  apply (replace_text_with_trailing_backslash_raises
           (typed_both "Replace Text" "a" "x\") None four_files initial "x");
    [reflexivity|reflexivity|exact H1|exact H2].
Defined.

Lemma remove_text_blank_plans_nothing_witness :
  let g := typed "Remove Text" "  " in
  let pattern := re_escape (strip (replacement_var g)) in
  pattern_var g = "Remove Text" /\
  forallb isspace (replacement_var g) = true /\
  build_rule g None = Substitute pattern [] /\
  re_compile pattern = true /\
  (apply_regex four_files pattern [] 0 initial).2 = Some [].
Proof.
  cbv zeta. split; [reflexivity|]. split; [reflexivity|].
  apply (remove_text_blank_plans_nothing (typed "Remove Text" "  "));
    reflexivity.
Defined.

Lemma unmatched_name_is_left_alone_witness :
  Sre.parse "\d+"
  = Some (one_or_more false [Sre.SCat false Sre.CatDigit], 0) /\
  Sre.parse_template 2 0 "x" = Some [Sre.TLit "x"] /\
  re_search "\d+" "b.txt" 0 = Some false /\
  re_sub "\d+" "x" "b.txt" 0 = Some ("b.txt" : str).
Proof.
  split; [reflexivity|]. split; [reflexivity|]. split; [reflexivity|].
  apply (unmatched_name_is_left_alone "\d+" "x" "b.txt"
           (one_or_more false [Sre.SCat false Sre.CatDigit]) 0
           [Sre.TLit "x"]); reflexivity.
Defined.

Lemma preview_of_an_invalid_directory_witness :
  (forallb isspace (dir_var initial) = true \/
   os_path_isdir spaces (strip (dir_var initial)) = false) /\
  dialogs (preview_changes spaces initial) = [ErrorInvalidDirectory] /\
  rename_button (preview_changes spaces initial) = disabled.
Proof.
  split; [left; reflexivity|].
  destruct (preview_of_an_invalid_directory spaces initial
              (or_introl eq_refl)) as (Hd & _ & _ & _ & Hb & _).
  split; [exact Hd|exact Hb].
Defined.

Lemma edit_drops_the_plan_witness :
  let e : @event Toy.machine := EditReplacement "x" in
  is_edit e = true /\
  rename_button (step e spaces_later spaces_previewed.1.2).1.2 = disabled /\
  current_changes (step e spaces_later spaces_previewed.1.2).1.2 = [].
Proof.
  cbv zeta. split; [reflexivity|].
  destruct (edit_drops_the_plan (EditReplacement "x") spaces_later
              spaces_previewed.1.2 eq_refl) as (_ & _ & Hb & Hc & _).
  split; [exact Hb|exact Hc].
Defined.

Lemma browse_reaches_nothing_new_witness :
  reachable spaces_previewed.1.1 spaces_previewed.1.2 /\
  reachable spaces_previewed.1.1
    (browse_directory "d/sub" spaces_previewed.1.2).
Proof.
  assert (Hr : reachable spaces_previewed.1.1 spaces_previewed.1.2)
    by apply reachable_session.
  split; [exact Hr|].
  destruct (browse_reaches_nothing_new _ _ "d/sub" Hr) as [Hb _]. exact Hb.
Defined.

Lemma archive_is_planned :
  ("d/archive.tar.gz" : str, "archive.tar.gz" : str, "ARCHIVE.TAR.gz" : str)
  ∈ current_changes home_previewed.1.2.
Proof.
  destruct home_plan as (_ & _ & -> & _).
  apply list_elem_of_further, list_elem_of_here.
Qed.

Lemma renames_stay_in_the_directory_witness :
  let c : change :=
    ("d/archive.tar.gz" : str, "archive.tar.gz" : str,
     "ARCHIVE.TAR.gz" : str) in
  reachable home_previewed.1.1 home_previewed.1.2 /\
  c ∈ current_changes home_previewed.1.2 /\
  basename (target_path c) = new_name_of c /\
  dirname (target_path c) = dirname (full_path_of c).
Proof.
  cbv zeta.
  assert (Hr : reachable home_previewed.1.1 home_previewed.1.2)
    by apply reachable_session.
  split; [exact Hr|]. split; [exact archive_is_planned|].
  destruct (renames_stay_in_the_directory _ _ _ Hr archive_is_planned)
    as (_ & Hb & Hd & _).
  split; [exact Hb|exact Hd].
Defined.

Lemma home_planned :
  planned_by home home_previewed.1.2 (current_changes home_previewed.1.2).
Proof.
  exists ["d/.bashrc" : str; "d/archive.tar.gz" : str; "d/what?.txt" : str],
         (Some ("(.*)" : str)).
  vm_compute. repeat split; reflexivity.
Qed.

Lemma planned_files_are_listed_once_witness :
  let names := [".bashrc" : str; "what?.txt" : str; "archive.tar.gz" : str] in
  planned_by home home_previewed.1.2 (current_changes home_previewed.1.2) /\
  os_listdir home (strip (dir_var home_previewed.1.2)) = Some names /\
  NoDup names /\
  Forall (fun name => sep ∉ name) names /\
  NoDup (full_path_of <$> current_changes home_previewed.1.2).
Proof.
  cbv zeta.
  assert (H1 : os_listdir home (strip (dir_var home_previewed.1.2))
               = Some [".bashrc" : str; "what?.txt" : str;
                       "archive.tar.gz" : str]) by (vm_compute; reflexivity).
  assert (H2 : NoDup [".bashrc" : str; "what?.txt" : str;
                      "archive.tar.gz" : str]) by by_computation.
  assert (H3 : Forall (fun name => sep ∉ name)
                 [".bashrc" : str; "what?.txt" : str;
                  "archive.tar.gz" : str]) by by_computation.
  split; [exact home_planned|]. split; [exact H1|]. split; [exact H2|].
  split; [exact H3|].
  destruct (planned_files_are_listed_once _ _ _ _ home_planned H1 H2 H3)
    as [Hnd _].
  exact Hnd.
Defined.

Lemma camel_case_of_one_word_witness :
  forallb (fun c => negb (isspace c)) ("myFile" : str) = true /\
  transform_stem mode_camel "myFile" = capitalize "myFile".
Proof.
  split; [reflexivity|].
  apply (camel_case_of_one_word "myFile"). reflexivity.
Defined.

Lemma converted_name_is_not_converted_again_witness :
  let c : change := ("d/a.txt" : str, "a.txt" : str, "A.txt" : str) in
  mode_upper ≠ mode_camel /\
  c ∈ case_changes mode_upper ["d/a.txt" : str] /\
  case_changes mode_upper [target_path c] = [].
Proof.
  cbv zeta.
  assert (H1 : mode_upper ≠ mode_camel) by discriminate.
  assert (H2 : ("d/a.txt" : str, "a.txt" : str, "A.txt" : str)
               ∈ case_changes mode_upper ["d/a.txt" : str])
    by apply list_elem_of_here.
  split; [exact H1|]. split; [exact H2|].
  apply (converted_name_is_not_converted_again mode_upper ["d/a.txt" : str]);
    [exact H1|exact H2].
Defined.

Lemma spaces_log_written :
  log_writes (rename_files true spaces_later spaces_previewed.1.2).2
  = [("d/.rename_log_20240115_103000.json" : str,
      [LogEntry "a b.txt" "a_b.txt" "2024-01-15T10:30:00"], true)].
Proof. vm_compute. reflexivity. Qed.

Lemma rollback_log_is_written_beside_the_last_file_witness :
  let log_file : str := "d/.rename_log_20240115_103000.json" in
  let entries := [LogEntry "a b.txt" "a_b.txt" "2024-01-15T10:30:00"] in
  (log_file, entries, true)
  ∈ log_writes (rename_files true spaces_later spaces_previewed.1.2).2 /\
  exists c stamp,
    last (current_changes spaces_previewed.1.2) = Some c /\
    log_file = join (dirname (full_path_of c))
                 (".rename_log_" ++ stamp ++ ".json").
Proof.
  cbv zeta.
  assert (H1 : ("d/.rename_log_20240115_103000.json" : str,
                [LogEntry "a b.txt" "a_b.txt" "2024-01-15T10:30:00"], true)
               ∈ log_writes (rename_files true spaces_later
                               spaces_previewed.1.2).2).
  { rewrite spaces_log_written. apply list_elem_of_here. }
  split; [exact H1|].
  exact (rollback_log_is_written_beside_the_last_file _ _ _ _ _ H1).
Defined.

